(** * A shallow embedding of the video overlay batch tool (src/main.py)

    The development has two parts.  Part I embeds the program: the Python
    values and exceptions it manipulates, the media probe, the pair
    selector, the file-name sanitizer, the encoder negotiation, the
    transcode job and the batch driver, then the import of files with
    the two list boxes, the renaming, the start-up and the session as a
    whole, with several batches and edits.  Part II states and proves
    the properties of these definitions.

    Conventions of the embedding.
    - A Python [float] is a binary64 value: Rocq's primitive [float].
    - A Python [int] is a [Z]; a [str] is a [string], one character per
      code point.
    - A call that may raise returns a [res]; [try ... except Exception]
      is [try_except].  Only subclasses of [Exception] are modelled
      (no KeyboardInterrupt or SystemExit).
    - Calls to [logging] and to the Tk widgets have no effect on the
      values studied here and are left out. *)

From Stdlib Require Import ZArith List String Ascii Bool Lia Floats.
From stdpp Require Import gmap strings list fin_maps sorting.

(* ===================================================================== *)
(** * Part I.  The embedding                                              *)
(* ===================================================================== *)

(** ** Python exceptions and fallible computations *)

Inductive exn : Type :=
| ValueError
| OverflowError
| ZeroDivisionError
| IndexError
| UnicodeError
| OSError
| cv2_error
| UnboundLocalError (var : string)
| Exception (msg : string).

Inductive res (A : Type) : Type :=
| Ret (a : A)
| Raise (e : exn).
Arguments Ret {A} a.
Arguments Raise {A} e.

#[global] Instance res_ret : MRet res := fun A a => Ret a.
#[global] Instance res_bind : MBind res := fun A B k m =>
  match m with
  | Ret a => k a
  | Raise e => Raise e
  end.

(** [try: body / except Exception as e: handler e]. *)
Definition try_except {A} (body : res A) (handler : exn -> res A) : res A :=
  match body with
  | Ret a => Ret a
  | Raise e => handler e
  end.

(** ** Python numbers *)

(** [int(x)] for a float [x]: truncation toward zero; [ValueError] on a
    NaN and [OverflowError] on an infinity. *)
Definition py_int (x : float) : res Z :=
  match Prim2SF x with
  | S754_zero _ => Ret 0%Z
  | S754_finite s m e =>
      let a := Z.shiftl (Z.pos m) e in
      Ret (if s then (- a)%Z else a)
  | S754_infinity _ => Raise OverflowError
  | S754_nan => Raise ValueError
  end.

(** The conversion of an [int] operand of a float operation: correctly
    rounded, [OverflowError] when the integer is out of range. *)
Definition py_float (z : Z) : res float :=
  let f := SF2Prim (binary_normalize prec emax z 0 false) in
  if is_infinity f then Raise OverflowError else Ret f.

(** [a / b] for an int [a] and a float [b]. *)
Definition py_truediv (a : Z) (b : float) : res float :=
  x ← py_float a;
  if (b =? 0)%float then Raise ZeroDivisionError else Ret (x / b)%float.

(** ** MediaProbe: [get_video_duration] *)

(** What [cv2.VideoCapture(path)] answers for a given file: the outcome
    of each method the probe calls on the capture object. *)
Record VideoCapture : Type := {
  isOpened : res bool;
  get_CAP_PROP_FPS : res float;
  get_CAP_PROP_FRAME_COUNT : res float;
  get_CAP_PROP_FRAME_WIDTH : res float;
  get_CAP_PROP_FRAME_HEIGHT : res float;
  release : res unit
}.

(** The media back end: the capture object built for each path, or the
    exception raised by the constructor. *)
Definition cv2 : Type := string -> res VideoCapture.

Definition get_video_duration_try (cv : cv2) (video_path : string) : res float :=
  cap ← cv video_path;
  opened ← isOpened cap;
  if negb opened then Ret 0%float
  else
    fps ← get_CAP_PROP_FPS cap;
    raw ← get_CAP_PROP_FRAME_COUNT cap;
    frame_count ← py_int raw;
    if (fps <=? 0)%float || (frame_count <=? 0)%Z then Ret 0%float
    else
      duration ← py_truediv frame_count fps;
      _ ← release cap;
      if (0 <? duration)%float then Ret duration else Ret 0%float.

Definition get_video_duration (cv : cv2) (video_path : string) : res float :=
  try_except (get_video_duration_try cv video_path) (fun _ => Ret 0%float).

(** ** PairSelector: [get_suitable_overlay_videos], [select_random_overlay_video] *)

(** The value the probe hands to its caller (the probe catches every
    exception); used to state the selector's result. *)
Definition probed_duration (cv : cv2) (video_path : string) : float :=
  match get_video_duration cv video_path with
  | Ret d => d
  | Raise _ => 0%float
  end.

(** The test of line 316, [min_duration <= overlay_duration <= max_duration],
    with [min_duration = main_duration] and
    [max_duration = main_duration * 3.0]. *)
Definition in_window (main_duration overlay_duration : float) : bool :=
  let min_duration := main_duration in
  let max_duration := (main_duration * 3)%float in
  (min_duration <=? overlay_duration)%float && (overlay_duration <=? max_duration)%float.

(** The [for overlay_path in self.overlay_video_paths] loop;
    [suitable_videos] is the list accumulated so far. *)
Fixpoint suitable_loop (cv : cv2) (main_duration : float)
    (overlay_video_paths suitable_videos : list string) : res (list string) :=
  match overlay_video_paths with
  | [] => Ret suitable_videos
  | overlay_path :: rest =>
      overlay_duration ← get_video_duration cv overlay_path;
      if (overlay_duration <=? 0)%float then
        suitable_loop cv main_duration rest suitable_videos
      else if in_window main_duration overlay_duration then
        suitable_loop cv main_duration rest (suitable_videos ++ [overlay_path])
      else
        suitable_loop cv main_duration rest suitable_videos
  end.

Definition get_suitable_overlay_videos (cv : cv2) (overlay_video_paths : list string)
    (main_video_path : string) : res (list string) :=
  try_except
    (main_duration ← get_video_duration cv main_video_path;
     if (main_duration <=? 0)%float then Ret []
     else suitable_loop cv main_duration overlay_video_paths [])
    (fun _ => Ret []).

(** [random.choice(seq)]: [IndexError] on an empty sequence, otherwise
    [seq[randbelow(len(seq))]].  The random source is the function
    [randbelow], which the library draws uniformly from [range(n)]. *)
Definition random_choice {A} (randbelow : nat -> nat) (seq : list A) : res A :=
  match seq with
  | [] => Raise IndexError
  | _ =>
      match seq !! randbelow (length seq) with
      | Some x => Ret x
      | None => Raise IndexError
      end
  end.

(** The result is [None] for Python's [None]. *)
Definition select_random_overlay_video (cv : cv2) (randbelow : nat -> nat)
    (overlay_video_paths : list string) (main_video_path : string) : res (option string) :=
  suitable_videos ← get_suitable_overlay_videos cv overlay_video_paths main_video_path;
  match suitable_videos with
  | [] => Ret None
  | _ => overlay ← random_choice randbelow suitable_videos; Ret (Some overlay)
  end.

(** A media library used in the examples: a clip opens and reports its
    frame rate and frame count, and a 1280x720 picture; a path that is
    not in the table does not open. *)
Definition capture_of (opened : bool) (fps frames : float) : VideoCapture :=
  {| isOpened := Ret opened; get_CAP_PROP_FPS := Ret fps;
     get_CAP_PROP_FRAME_COUNT := Ret frames;
     get_CAP_PROP_FRAME_WIDTH := Ret 1280%float;
     get_CAP_PROP_FRAME_HEIGHT := Ret 720%float; release := Ret tt |}.

Definition clip (fps : float) (frames : float) : res VideoCapture :=
  Ret (capture_of true fps frames).

Definition demo_cv2 : cv2 := fun path =>
  if String.eqb path "main10.mp4" then clip 25 250
  else if String.eqb path "o5.mp4" then clip 25 125
  else if String.eqb path "o9999.mp4" then clip 1000 9999
  else if String.eqb path "o10.mp4" then clip 25 250
  else if String.eqb path "o30.mp4" then clip 25 750
  else if String.eqb path "o31.mp4" then clip 25 775
  else Ret (capture_of false 0 0).

(** ** File names: [os.path.splitext] and [sanitize_filename] *)

(** A [str] seen as the list of its characters. *)
Abbreviation chars := (list ascii).

(** [p.rfind(c)]: the highest index of [c] in [p], or -1. *)
Fixpoint rfind (c : ascii) (p : chars) : Z :=
  match p with
  | [] => (-1)%Z
  | x :: rest =>
      let k := rfind c rest in
      if (0 <=? k)%Z then (k + 1)%Z
      else if Ascii.eqb x c then 0%Z else (-1)%Z
  end.

(** The slices [p[:i]] and [p[i:]]: a negative index counts from the
    end, and an index out of range is clamped. *)
Definition slice_to {A} (p : list A) (i : Z) : list A :=
  if (i <? 0)%Z then take (Z.to_nat (Z.of_nat (length p) + i)) p
  else take (Z.to_nat i) p.

Definition slice_from {A} (p : list A) (i : Z) : list A :=
  if (i <? 0)%Z then drop (Z.to_nat (Z.of_nat (length p) + i)) p
  else drop (Z.to_nat i) p.

(** [genericpath._splitext(p, sep, altsep, extsep)]: split at the last
    dot that follows the last separator, unless only dots stand between
    that separator and the dot. *)
Definition _splitext (p : chars) (sep : ascii) (altsep : option ascii) (extsep : ascii)
  : chars * chars :=
  let sepIndex := rfind sep p in
  let sepIndex :=
    match altsep with
    | Some a => Z.max sepIndex (rfind a p)
    | None => sepIndex
    end in
  let dotIndex := rfind extsep p in
  if (sepIndex <? dotIndex)%Z then
    let filenameIndex := (sepIndex + 1)%Z in
    if existsb (fun c => negb (Ascii.eqb c extsep))
               (slice_from (slice_to p dotIndex) filenameIndex)
    then (slice_to p dotIndex, slice_from p dotIndex)
    else (p, [])
  else (p, []).

(** [os.path.splitext] of the platform the tool runs on (Windows:
    [ntpath], separators backslash and slash). *)
Definition splitext (p : chars) : chars * chars :=
  _splitext p "092"%char (Some "/"%char) "."%char.

(** The character class of the pattern of line 43: the characters
    < > : double-quote / backslash | ? and the star. *)
Definition illegal_char (c : ascii) : bool :=
  existsb (Ascii.eqb c)
    ["<"; ">"; ":"; "034"; "/"; "092"; "|"; "?"; "*"]%char.

(** [re.sub(pattern, '_', filename)]: every character of the class is
    replaced by an underscore. *)
Definition clean_char (c : ascii) : ascii := if illegal_char c then "_"%char else c.

Definition re_sub_illegal (filename : chars) : chars := List.map clean_char filename.

Definition sanitize_filename_chars (filename : chars) : chars :=
  let filename := re_sub_illegal filename in
  let '(base, ext) := splitext filename in
  if (255 <? Z.of_nat (length filename))%Z then
    slice_to base (255 - Z.of_nat (length ext)) ++ ext
  else filename.

Definition sanitize_filename (filename : string) : string :=
  string_of_list_ascii (sanitize_filename_chars (list_ascii_of_string filename)).

(** A name whose extension is longer than 255 characters: [a.xxx...x]
    with 300 times [x]. *)
Definition long_extension_name : string :=
  string_of_list_ascii (["a"; "."]%char ++ repeat "x"%char 300).

(** ** The application object *)

(** What the control thread may do between two polls of a job. *)
Inductive ui_event : Type :=
| UiNone          (* nothing happened since the last poll *)
| UiStop          (* [stop_processing] ran on the control thread *)
| UiTogglePause.  (* [toggle_pause] ran on the control thread *)

(** One round of the monitor loop during which the process is still
    running: what the control thread did before the poll, and the line
    [stderr.readline()] yields if the round gets that far. *)
Record tick : Type := {
  ui : ui_event;
  stderr_line : string
}.

(** [process.terminate()] followed by [process.wait(timeout=5)]: the
    process ends with a return code, or the wait times out and the
    process is killed (its [returncode] attribute then still [None]). *)
Inductive terminate_outcome : Type :=
| Terminated (returncode : Z)
| TimeoutExpired_killed.

(** The handle [subprocess.Popen] returns, together with what the
    external encoder does while the job watches it. *)
Record Popen : Type := {
  pid : nat;
  ticks : list tick;               (* rounds with [poll() is None] *)
  exit_code : Z;                   (* return code once it ends by itself *)
  on_terminate : terminate_outcome;
  stderr_rest : string;            (* what [stderr.read()] returns at the end *)
  writes : gmap string N -> gmap string N  (* its effect on the files *)
}.

(** The attributes of [VideoOverlayApp] the core reads and writes.
    [processing_semaphore] is the number of free slots of the gate. *)
Record App : Type := {
  main_video_paths : list string;
  overlay_video_paths : list string;
  main_video_durations : gmap string float;
  overlay_video_durations : gmap string float;
  output_directory : option string;
  opacity_var : float;
  processing : bool;
  paused : bool;
  current_processes : gmap string Popen;
  max_concurrent_processes : nat;
  processing_semaphore : nat;
  use_gpu : bool;
  ffmpeg_path : string
}.

Definition set_main_video_paths (v : list string) (a : App) : App :=
  {| main_video_paths := v; overlay_video_paths := overlay_video_paths a;
     main_video_durations := main_video_durations a;
     overlay_video_durations := overlay_video_durations a;
     output_directory := output_directory a; opacity_var := opacity_var a;
     processing := processing a; paused := paused a;
     current_processes := current_processes a;
     max_concurrent_processes := max_concurrent_processes a;
     processing_semaphore := processing_semaphore a;
     use_gpu := use_gpu a; ffmpeg_path := ffmpeg_path a |}.

Definition set_overlay_videos (v : list string) (d : gmap string float) (a : App) : App :=
  {| main_video_paths := main_video_paths a; overlay_video_paths := v;
     main_video_durations := main_video_durations a;
     overlay_video_durations := d;
     output_directory := output_directory a; opacity_var := opacity_var a;
     processing := processing a; paused := paused a;
     current_processes := current_processes a;
     max_concurrent_processes := max_concurrent_processes a;
     processing_semaphore := processing_semaphore a;
     use_gpu := use_gpu a; ffmpeg_path := ffmpeg_path a |}.

Definition set_processing (v : bool) (a : App) : App :=
  {| main_video_paths := main_video_paths a; overlay_video_paths := overlay_video_paths a;
     main_video_durations := main_video_durations a;
     overlay_video_durations := overlay_video_durations a;
     output_directory := output_directory a; opacity_var := opacity_var a;
     processing := v; paused := paused a;
     current_processes := current_processes a;
     max_concurrent_processes := max_concurrent_processes a;
     processing_semaphore := processing_semaphore a;
     use_gpu := use_gpu a; ffmpeg_path := ffmpeg_path a |}.

Definition set_paused (v : bool) (a : App) : App :=
  {| main_video_paths := main_video_paths a; overlay_video_paths := overlay_video_paths a;
     main_video_durations := main_video_durations a;
     overlay_video_durations := overlay_video_durations a;
     output_directory := output_directory a; opacity_var := opacity_var a;
     processing := processing a; paused := v;
     current_processes := current_processes a;
     max_concurrent_processes := max_concurrent_processes a;
     processing_semaphore := processing_semaphore a;
     use_gpu := use_gpu a; ffmpeg_path := ffmpeg_path a |}.

Definition set_current_processes (v : gmap string Popen) (a : App) : App :=
  {| main_video_paths := main_video_paths a; overlay_video_paths := overlay_video_paths a;
     main_video_durations := main_video_durations a;
     overlay_video_durations := overlay_video_durations a;
     output_directory := output_directory a; opacity_var := opacity_var a;
     processing := processing a; paused := paused a;
     current_processes := v;
     max_concurrent_processes := max_concurrent_processes a;
     processing_semaphore := processing_semaphore a;
     use_gpu := use_gpu a; ffmpeg_path := ffmpeg_path a |}.

Definition set_processing_semaphore (v : nat) (a : App) : App :=
  {| main_video_paths := main_video_paths a; overlay_video_paths := overlay_video_paths a;
     main_video_durations := main_video_durations a;
     overlay_video_durations := overlay_video_durations a;
     output_directory := output_directory a; opacity_var := opacity_var a;
     processing := processing a; paused := paused a;
     current_processes := current_processes a;
     max_concurrent_processes := max_concurrent_processes a;
     processing_semaphore := v;
     use_gpu := use_gpu a; ffmpeg_path := ffmpeg_path a |}.

(** [__init__]: empty collections, opacity 2, three slots, GPU on. *)
Definition init_App (ffmpeg : string) : App :=
  {| main_video_paths := []; overlay_video_paths := [];
     main_video_durations := ∅; overlay_video_durations := ∅;
     output_directory := None; opacity_var := 2%float;
     processing := false; paused := false;
     current_processes := ∅;
     max_concurrent_processes := 3;
     processing_semaphore := 3;
     use_gpu := true; ffmpeg_path := ffmpeg |}.

(** ** Collections: [add_video], [remove_selected_video], [remove_selected_overlay] *)

Inductive group : Type := main_group | overlay_group.

(** [add_video]: a file whose probe answers 0 is refused; a path already
    in the collection is not added twice. *)
Definition add_video (cv : cv2) (video_path : string) (target : group) (a : App) : App :=
  let duration := probed_duration cv video_path in
  if (duration =? 0)%float then a
  else
    match target with
    | main_group =>
        if bool_decide (video_path ∈ main_video_paths a) then a
        else
          {| main_video_paths := main_video_paths a ++ [video_path];
             overlay_video_paths := overlay_video_paths a;
             main_video_durations := <[video_path := duration]> (main_video_durations a);
             overlay_video_durations := overlay_video_durations a;
             output_directory := output_directory a; opacity_var := opacity_var a;
             processing := processing a; paused := paused a;
             current_processes := current_processes a;
             max_concurrent_processes := max_concurrent_processes a;
             processing_semaphore := processing_semaphore a;
             use_gpu := use_gpu a; ffmpeg_path := ffmpeg_path a |}
    | overlay_group =>
        if bool_decide (video_path ∈ overlay_video_paths a) then a
        else set_overlay_videos (overlay_video_paths a ++ [video_path])
               (<[video_path := duration]> (overlay_video_durations a)) a
    end.

(** The loop of [remove_selected_video] over [reversed(selected)]:
    [self.main_video_paths.pop(index)], [IndexError] out of range.  The
    duration index is not touched. *)
Fixpoint remove_selected_video_loop (indices : list nat) (paths : list string)
  : list string * res unit :=
  match indices with
  | [] => (paths, Ret tt)
  | index :: rest =>
      if decide (index < length paths) then
        remove_selected_video_loop rest (delete index paths)
      else (paths, Raise IndexError)
  end.

(** [selected] is [self.video_listbox.curselection()]: the selected row
    numbers, in increasing order. *)
Definition remove_selected_video (selected : list nat) (a : App) : App * res unit :=
  let '(paths, r) := remove_selected_video_loop (rev selected) (main_video_paths a) in
  (set_main_video_paths paths a, r).

(** The loop of [remove_selected_overlay]: the path at [index] is
    dropped from the duration index when it is a key of it, then from
    the list. *)
Fixpoint remove_selected_overlay_loop (indices : list nat) (paths : list string)
    (durations : gmap string float) : list string * gmap string float * res unit :=
  match indices with
  | [] => (paths, durations, Ret tt)
  | index :: rest =>
      match paths !! index with
      | None => (paths, durations, Raise IndexError)
      | Some path =>
          let durations :=
            if bool_decide (path ∈ dom durations) then delete path durations
            else durations in
          remove_selected_overlay_loop rest (delete index paths) durations
      end
  end.

Definition remove_selected_overlay (selected : list nat) (a : App) : App * res unit :=
  match selected with
  | [] => (a, Ret tt)   (* warning box, nothing removed *)
  | _ =>
      let '(paths, durations, r) :=
        remove_selected_overlay_loop (rev selected) (overlay_video_paths a)
          (overlay_video_durations a) in
      (set_overlay_videos paths durations a, r)
  end.

(** The rows of [l] that a selection leaves: the elements whose row
    number, counted from [base], is not selected.  Used to state what
    the two removal loops compute. *)
Fixpoint keep_unselected {A} (selected : list nat) (base : nat) (l : list A) : list A :=
  match l with
  | [] => []
  | x :: rest =>
      if bool_decide (base ∈ selected) then keep_unselected selected (S base) rest
      else x :: keep_unselected selected (S base) rest
  end.

(** One main asset, probed and added through [add_video]. *)
Definition one_main_App : App :=
  add_video demo_cv2 "main10.mp4" main_group (init_App "ffmpeg").

(** ** Stateful computations

    A method that reads and writes the world: from a state it returns a
    value or raises, and leaves a state; [None] when it never returns
    (it waits for a slot of the gate that nobody frees). *)
Definition M (S A : Type) : Type := S -> option (res A * S).

#[global] Instance M_ret {S} : MRet (M S) := fun A a s => Some (Ret a, s).
#[global] Instance M_bind {S} : MBind (M S) := fun A B k m s =>
  match m s with
  | Some (Ret a, s') => k a s'
  | Some (Raise e, s') => Some (Raise e, s')
  | None => None
  end.

Definition raise {S A} (e : exn) : M S A := fun s => Some (Raise e, s).
Definition lift {S A} (r : res A) : M S A := fun s => Some (r, s).
Definition get {S} : M S S := fun s => Some (Ret s, s).
Definition modify {S} (f : S -> S) : M S unit := fun s => Some (Ret tt, f s).

(** [try: body / except Exception as e: handler e]. *)
Definition try_exceptM {S A} (body : M S A) (handler : exn -> M S A) : M S A := fun s =>
  match body s with
  | Some (Raise e, s') => handler e s'
  | other => other
  end.

(** [try: body / finally: final]: [final] runs on every exit of [body];
    an exception of [final] replaces the result of [body]. *)
Definition try_finally {S A} (body : M S A) (final : M S unit) : M S A := fun s =>
  match body s with
  | Some (r, s') =>
      match final s' with
      | Some (Ret _, s'') => Some (r, s'')
      | Some (Raise e, s'') => Some (Raise e, s'')
      | None => None
      end
  | None => None
  end.

(** ** The world outside the application *)

(** [subprocess.CompletedProcess]. *)
Record CompletedProcess : Type := {
  returncode : Z;
  stdout : string
}.

(** The operating system as the core uses it.  Each field is the answer
    of one library call; the answers do not change during a job, except
    for the files, which are part of the state. *)
Record Env : Type := {
  subprocess_run : list string -> res CompletedProcess;
  subprocess_Popen : list string -> res Popen;
  os_makedirs : string -> res unit;
  os_path_isdir : string -> bool;           (* [os.path.exists] of a directory *)
  os_remove_allowed : string -> bool;       (* may this file be deleted? *)
  os_path_basename : string -> string;
  os_path_dirname : string -> string;
  os_path_join : string -> string -> string;
  os_path_normpath : string -> string;
  utf8_encodable : string -> bool;          (* [s.encode('utf-8')] succeeds *)
  cv2_VideoCapture : cv2;
  parse_dimensions : string -> res (Z * Z); (* [map(int, text.strip().split('\n'))] *)
  format_filter : Z -> Z -> float -> string (* the f-string of the filter *)
}.

(** What a job reads and writes: the application object, the files
    (path to size), the commands run through [subprocess.run] so far
    (oldest first), and its two locals that the handlers of
    [process_video] read: [None] while the local is not bound. *)
Record World : Type := {
  self : App;
  files : gmap string N;
  spawned : list (list string);
  output_path : option string;
  process_key : option string
}.

Definition set_self (f : App -> App) (w : World) : World :=
  {| self := f (self w); files := files w; spawned := spawned w;
     output_path := output_path w; process_key := process_key w |}.

Definition set_files (f : gmap string N -> gmap string N) (w : World) : World :=
  {| self := self w; files := f (files w); spawned := spawned w;
     output_path := output_path w; process_key := process_key w |}.

Definition log_spawn (cmd : list string) (w : World) : World :=
  {| self := self w; files := files w; spawned := spawned w ++ [cmd];
     output_path := output_path w; process_key := process_key w |}.

Definition set_output_path (p : string) (w : World) : World :=
  {| self := self w; files := files w; spawned := spawned w;
     output_path := Some p; process_key := process_key w |}.

Definition set_process_key (k : string) (w : World) : World :=
  {| self := self w; files := files w; spawned := spawned w;
     output_path := output_path w; process_key := Some k |}.

(** [subprocess.run(cmd, ...)]: the command is recorded, then it
    completes or raises. *)
Definition run (env : Env) (cmd : list string) : M World CompletedProcess :=
  _ ← modify (log_spawn cmd);
  lift (subprocess_run env cmd).

(** ** EncoderProfileSelector: [check_gpu_support] *)

Inductive gpu : Type := NVIDIA | AMD.

(** [needle in haystack] for two strings. *)
Fixpoint contains (needle haystack : string) : bool :=
  String.prefix needle haystack ||
  match haystack with
  | EmptyString => false
  | String _ rest => contains needle rest
  end.

Definition encoders_cmd (ffmpeg : string) : list string :=
  [ffmpeg; "-hide_banner"; "-encoders"].

(** The test encode: one second of a black 1280x720 source at 30 frames
    per second, encoded with [encoder], output discarded. *)
Definition test_cmd (ffmpeg encoder : string) : list string :=
  [ffmpeg; "-hide_banner"; "-f"; "lavfi"; "-i"; "color=black:s=1280x720:r=30";
   "-t"; "1"; "-c:v"; encoder; "-f"; "null"; "-"].

Definition check_gpu_support (env : Env) : M World (option gpu) :=
  try_exceptM
    (w ← get;
     let ffmpeg := ffmpeg_path (self w) in
     result ← run env (encoders_cmd ffmpeg);
     let encoders := stdout result in
     let gpu_type : option gpu := None in
     gpu_type ←
       (if contains "h264_nvenc" encoders then
          test ← run env (test_cmd ffmpeg "h264_nvenc");
          if (returncode test =? 0)%Z then mret (Some NVIDIA) else mret gpu_type
        else mret gpu_type);
     gpu_type ←
       (if negb (bool_decide (is_Some gpu_type)) && contains "h264_amf" encoders then
          test ← run env (test_cmd ffmpeg "h264_amf");
          if (returncode test =? 0)%Z then mret (Some AMD) else mret gpu_type
        else mret gpu_type);
     mret gpu_type)
    (fun _ => mret None).

(** The encoder, preset and parameter table [process_video] picks for a
    negotiated type (lines 713-756); [None] is the software profile. *)
Definition encoder_profile (gpu_type : option gpu) : string * string * list string :=
  match gpu_type with
  | Some NVIDIA =>
      ("h264_nvenc", "p1",
       ["-rc"; "vbr"; "-b:v"; "8M"; "-maxrate"; "12M"; "-bufsize"; "16M";
        "-profile:v"; "high"; "-level"; "5.2"; "-spatial-aq"; "1";
        "-temporal-aq"; "1"; "-cq"; "16"; "-qmin"; "1"; "-qmax"; "51";
        "-rc-lookahead"; "32"])
  | Some AMD =>
      ("h264_amf", "quality",
       ["-quality"; "quality"; "-rc"; "vbr_peak"; "-b:v"; "8M"; "-maxrate"; "12M";
        "-bufsize"; "16M"; "-profile:v"; "high"; "-qmin"; "1"; "-qmax"; "51"])
  | None =>
      ("libx264", "slower",
       ["-b:v"; "8M"; "-maxrate"; "12M"; "-bufsize"; "16M"; "-profile:v"; "high";
        "-level"; "5.2"; "-movflags"; "+faststart"; "-tune"; "film"; "-x264opts";
        "me=umh:subme=10:ref=5:b-adapt=2:direct=auto:rc-lookahead=60:no-fast-pskip=1:no-dct-decimate=1";
        "-psy-rd"; "1.0:0.15"])
  end.

(** The three facts the negotiation establishes about an encoder:
    it is named in the listing, its test encode exits with code 0, its
    test encode raises. *)
Definition listed (env : Env) (ffmpeg encoder : string) : bool :=
  match subprocess_run env (encoders_cmd ffmpeg) with
  | Ret out => contains encoder (stdout out)
  | Raise _ => false
  end.

Definition passes (env : Env) (ffmpeg encoder : string) : bool :=
  match subprocess_run env (test_cmd ffmpeg encoder) with
  | Ret t => (returncode t =? 0)%Z
  | Raise _ => false
  end.

Definition test_raises (env : Env) (ffmpeg encoder : string) : bool :=
  match subprocess_run env (test_cmd ffmpeg encoder) with
  | Ret _ => false
  | Raise _ => true
  end.

(** A host for the examples: [ffmpeg] lists both hardware encoders, the
    NVENC test encode exits with code 1, the AMF one with code 0; every
    other call of the operating system succeeds.  [demo_process] ends by
    itself with code 0 and writes nothing. *)
Definition demo_process : Popen :=
  {| pid := 1; ticks := []; exit_code := 0;
     on_terminate := Terminated 1; stderr_rest := "";
     writes := fun fs => fs |}.

(** [host process removable]: the encoder behaves as [process], and
    files can be deleted when [removable] holds. *)
Definition host (process : Popen) (removable : bool) : Env :=
  {| subprocess_run := fun cmd =>
       if bool_decide (cmd = encoders_cmd "ffmpeg") then
         Ret {| returncode := 0; stdout := " V..... h264_amf  V..... h264_nvenc" |}
       else if bool_decide (cmd = test_cmd "ffmpeg" "h264_nvenc") then
         Ret {| returncode := 1; stdout := "" |}
       else Ret {| returncode := 0; stdout := "" |};
     subprocess_Popen := fun _ => Ret process;
     os_makedirs := fun _ => Ret tt;
     os_path_isdir := fun _ => true;
     os_remove_allowed := fun _ => removable;
     os_path_basename := fun p => p;
     os_path_dirname := fun _ => "dir";
     os_path_join := fun d f => d +:+ "/" +:+ f;
     os_path_normpath := fun p => p;
     utf8_encodable := fun _ => true;
     cv2_VideoCapture := demo_cv2;
     parse_dimensions := fun _ => Raise ValueError;
     format_filter := fun _ _ _ => "filter" |}.

Definition demo_env : Env := host demo_process true.

Definition demo_world : World :=
  {| self := set_processing true (init_App "ffmpeg"); files := ∅; spawned := [];
     output_path := None; process_key := None |}.

(** ** MediaProbe: [get_video_dimensions] *)

Definition probe_cmd (ffmpeg video_path : string) : list string :=
  [ffmpeg; "-i"; video_path; "-v"; "quiet"; "-select_streams"; "v:0";
   "-show_entries"; "stream=width,height"; "-of"; "default=noprint_wrappers=1:nokey=1"].

(** [not text.strip()]: the text holds white space only. *)
Definition is_blank (text : string) : bool :=
  forallb (fun c => existsb (Ascii.eqb c) [" "; "009"; "010"; "011"; "012"; "013"]%char)
          (list_ascii_of_string text).

(** The first attempt asks the external tool; the second reads the
    capture properties.  [None] stands for the pair [(None, None)]. *)
Definition get_video_dimensions (env : Env) (video_path : string) : M World (option (Z * Z)) :=
  probed ← try_exceptM
              (w ← get;
               result ← run env (probe_cmd (ffmpeg_path (self w)) video_path);
               if is_blank (stdout result) then mret None
               else dimensions ← lift (parse_dimensions env (stdout result));
                    mret (Some dimensions))
              (fun _ => mret None);
  match probed with
  | Some dimensions => mret (Some dimensions)
  | None =>
      try_exceptM
        (lift (cap ← cv2_VideoCapture env video_path;
               opened ← isOpened cap;
               if negb opened then Raise (Exception "cannot open the video file")
               else
                 raw_width ← get_CAP_PROP_FRAME_WIDTH cap;
                 width ← py_int raw_width;
                 raw_height ← get_CAP_PROP_FRAME_HEIGHT cap;
                 height ← py_int raw_height;
                 _ ← release cap;
                 if (0 <? width)%Z && (0 <? height)%Z then Ret (Some (width, height))
                 else Raise (Exception "the dimensions are not valid")))
        (fun _ => mret None)
  end.

(** ** Pause and stop: [toggle_pause], [stop_processing] *)

Definition toggle_pause (a : App) : App :=
  if negb (processing a) then a else set_paused (negb (paused a)) a.

(** [stop_processing]: the flag goes down, every process of the map is
    terminated, the map is cleared and the pause is reset. *)
Definition stop_processing (a : App) : App :=
  if negb (processing a) then a
  else set_paused false (set_current_processes ∅ (set_processing false a)).

Definition apply_ui (e : ui_event) (a : App) : App :=
  match e with
  | UiNone => a
  | UiStop => stop_processing a
  | UiTogglePause => toggle_pause a
  end.

(** ** TranscodeJob: [process_video] *)

Definition give_slot (w : World) : World :=
  set_self (fun a => set_processing_semaphore (S (processing_semaphore a)) a) w.

(** [with self.processing_semaphore: body]: wait for a free slot, take
    it, give it back on every exit of [body]. *)
Definition with_semaphore {A} (body : M World A) : M World A := fun w =>
  match processing_semaphore (self w) with
  | 0 => None
  | S n =>
      match body (set_self (set_processing_semaphore n) w) with
      | Some (r, w') => Some (r, give_slot w')
      | None => None
      end
  end.

Definition os_path_exists (path : string) : M World bool :=
  w ← get; mret (bool_decide (is_Some (files w !! path))).

(** [os.remove(path)]: [OSError] when there is no such file or when the
    system refuses the deletion. *)
Definition os_remove (env : Env) (path : string) : M World unit :=
  present ← os_path_exists path;
  if present && os_remove_allowed env path then modify (set_files (delete path))
  else raise OSError.

(** [path.replace('\\', '/')]. *)
Definition slashes (path : string) : string :=
  string_of_list_ascii
    (List.map (fun c => if Ascii.eqb c "092"%char then "/"%char else c)
              (list_ascii_of_string path)).

Definition normalize_path (env : Env) (path : string) : string :=
  slashes (os_path_normpath env path).

(** [ensure_directory(path)]: [False] when the directory cannot be made. *)
Definition ensure_directory (env : Env) (path : string) : bool :=
  let directory := os_path_dirname env path in
  if negb (String.eqb directory "") && negb (os_path_isdir env directory) then
    match os_makedirs env directory with
    | Ret _ => true
    | Raise _ => false
    end
  else true.

(** [os.path.splitext(os.path.basename(path))[0]]. *)
Definition base_name (env : Env) (path : string) : string :=
  string_of_list_ascii (fst (splitext (list_ascii_of_string (os_path_basename env path)))).

(** Lines 653-656: the directory the output goes to. *)
Definition output_dir_of (env : Env) (a : App) (main_video_path : string) : string :=
  match output_directory a with
  | Some d =>
      if os_path_isdir env d then d
      else os_path_join env (os_path_dirname env main_video_path) "output"
  | None => os_path_join env (os_path_dirname env main_video_path) "output"
  end.

(** Lines 664-667: [output_<main>_C_<overlay>.mp4], sanitized, in the
    output directory. *)
Definition joined_output_path (env : Env) (a : App) (main_video_path overlay_video_path : string)
  : string :=
  let main_video_name := base_name env main_video_path in
  let overlay_name := base_name env overlay_video_path in
  let output_name := "output_" +:+ main_video_name +:+ "_C_" +:+ overlay_name +:+ ".mp4" in
  os_path_join env (output_dir_of env a main_video_path) (sanitize_filename output_name).

(** The key under which the job registers its process (line 805). *)
Definition job_key (env : Env) (main_video_path overlay_video_path : string) : string :=
  normalize_path env main_video_path +:+ "_" +:+ normalize_path env overlay_video_path.

(** Lines 768-789: the argument vector of the encoder. *)
Definition ffmpeg_command (ffmpeg main_video_path overlay_video_path filter_str : string)
    (gpu_type : option gpu) (output_path : string) : list string :=
  let '(video_encoder, encoder_preset, gpu_params) := encoder_profile gpu_type in
  [ffmpeg; "-y"; "-hwaccel"; match gpu_type with Some _ => "auto" | None => "none" end;
   "-i"; main_video_path; "-i"; overlay_video_path;
   "-filter_complex"; filter_str; "-map"; "[outv]"; "-map"; "0:a";
   "-c:a"; "aac"; "-b:a"; "320k"; "-ar"; "48000";
   "-c:v"; video_encoder; "-preset"; encoder_preset; "-shortest"]
  ++ gpu_params ++ [output_path].

(** Lines 636-803, up to the spawn: the paths, the dimensions, the
    encoder, the command, and the process handle.  Returns the handle,
    the key of line 805 and the normalized output path. *)
Definition prepare_and_spawn (env : Env) (main_video_path overlay_video_path : string)
  : M World (Popen * string * string) :=
  w ← get;
  let output_dir := output_dir_of env (self w) main_video_path in
  _ ← lift (os_makedirs env output_dir);
  let output_path := joined_output_path env (self w) main_video_path overlay_video_path in
  _ ← modify (set_output_path output_path);
  if negb (utf8_encodable env main_video_path && utf8_encodable env overlay_video_path
           && utf8_encodable env output_path)
  then raise UnicodeError
  else
    let main_video_path := normalize_path env main_video_path in
    let overlay_video_path := normalize_path env overlay_video_path in
    let output_path := normalize_path env output_path in
    _ ← modify (set_output_path output_path);
    if negb (ensure_directory env output_path)
    then raise (Exception "cannot create the output directory")
    else
      dimensions ← get_video_dimensions env main_video_path;
      match dimensions with
      | None => raise (Exception "cannot get the video dimensions")
      | Some (width, height) =>
          if (width =? 0)%Z || (height =? 0)%Z
          then raise (Exception "cannot get the video dimensions")
          else
            gpu_type ← (if use_gpu (self w) then check_gpu_support env else mret None);
            let filter_str :=
              format_filter env width height (opacity_var (self w) / 100)%float in
            let command :=
              ffmpeg_command (ffmpeg_path (self w)) main_video_path overlay_video_path
                filter_str gpu_type output_path in
            process ← lift (subprocess_Popen env command);
            mret (process, main_video_path +:+ "_" +:+ overlay_video_path, output_path)
      end.

(** Lines 813-833: the monitor loop, one [tick] per round in which
    [process.poll()] is [None].  Returns [process.returncode] as it is
    when the loop is left, and the diagnostic lines collected.  Before
    each round the control thread may have paused or stopped the
    session.  The lines are taken as already stripped. *)
Fixpoint monitor (process : Popen) (rounds : list tick) (error_output : list string)
  : M World (option Z * list string) :=
  match rounds with
  | [] => mret (Some (exit_code process), error_output)
  | t :: rest =>
      _ ← modify (set_self (apply_ui (ui t)));
      w ← get;
      if negb (processing (self w)) then
        (* terminate(), wait(timeout=5), kill() on timeout, break *)
        match on_terminate process with
        | Terminated rc => mret (Some rc, error_output)
        | TimeoutExpired_killed => mret (None, error_output)
        end
      else if paused (self w) then
        monitor process rest error_output   (* sleep(0.1); continue *)
      else
        let line := stderr_line t in
        monitor process rest
          (if String.eqb line "" then error_output else error_output ++ [line])
  end.

Definition newline : string := String "010"%char EmptyString.

(** Lines 808-842: the [try] block around the loop, with the check of
    the return code. *)
Definition watch (process : Popen) : M World (list string) :=
  ended ← monitor process (ticks process) [];
  let '(rc, error_output) := ended in
  if bool_decide (rc = Some 0%Z) then mret error_output
  else
    let error_output :=
      if String.eqb (stderr_rest process) "" then error_output
      else error_output ++ [stderr_rest process] in
    raise (Exception ("FFmpeg failed: " +:+ String.concat newline error_output)).

(** Lines 844-854: the [finally] of that block.  The pipes are closed
    and the process is waited for: from here on its effect on the files
    is complete.  Then the key leaves the map if it is in it. *)
Definition release_process (process : Popen) (key : string) : M World unit :=
  _ ← modify (set_files (writes process));
  w ← get;
  if bool_decide (key ∈ dom (current_processes (self w))) then
    modify (set_self (fun a => set_current_processes (delete key (current_processes a)) a))
  else mret tt.

(** Lines 856-875: after the settle delay, the output must exist and
    must not be empty. *)
Definition verify_output (env : Env) (output_path : string) : M World unit :=
  w ← get;
  match files w !! output_path with
  | None => raise (Exception "the output file was not generated")
  | Some size =>
      if (size =? 0)%N then
        _ ← try_exceptM (os_remove env output_path) (fun _ => mret tt);
        raise (Exception "the output file has size 0")
      else mret tt
  end.

(** Lines 805-806: [process_key] is bound and the handle enters the
    active-process map under it. *)
Definition register_process (key : string) (process : Popen) (w : World) : World :=
  set_self (fun a => set_current_processes (<[key := process]> (current_processes a)) a)
           (set_process_key key w).

(** Lines 805-875: register the process, watch it, release it, check
    the output. *)
Definition encode_and_verify (env : Env) (process : Popen) (key output_path : string)
  : M World unit :=
  _ ← modify (register_process key process);
  _ ← try_finally (watch process) (release_process process key);
  verify_output env output_path.

(** Lines 632-875: the body of the outer [try]. *)
Definition process_video_try (env : Env) (main_video_path overlay_video_path : string)
  : M World unit :=
  with_semaphore
    (w ← get;
     if negb (processing (self w)) then mret tt   (* return *)
     else
       spawned ← prepare_and_spawn env main_video_path overlay_video_path;
       let '(process, key, output_path) := spawned in
       encode_and_verify env process key output_path).

(** Lines 877-885: the handler deletes what is at [output_path], if the
    local is bound and the file exists, swallows any error of that, and
    raises the exception again. *)
Definition discard_output (env : Env) : M World unit :=
  try_exceptM
    (w ← get;
     match output_path w with
     | None => raise (UnboundLocalError "output_path")
     | Some path =>
         present ← os_path_exists path;
         if (present : bool) then os_remove env path else mret tt
     end)
    (fun _ => mret tt).

(** Lines 886-889: the outer [finally] reads the local [process_key]. *)
Definition forget_process : M World unit :=
  w ← get;
  match process_key w with
  | None => raise (UnboundLocalError "process_key")
  | Some key =>
      if bool_decide (key ∈ dom (current_processes (self w))) then
        modify (set_self (fun a => set_current_processes (delete key (current_processes a)) a))
      else mret tt
  end.

(** A call starts with both locals unbound. *)
Definition fresh_frame (w : World) : World :=
  {| self := self w; files := files w; spawned := spawned w;
     output_path := None; process_key := None |}.

(** The state in which the body of the job starts once it has a slot:
    fresh locals, one slot less. *)
Definition job_entry (w : World) : World :=
  set_self (set_processing_semaphore (Nat.pred (processing_semaphore (self w))))
           (fresh_frame w).

(** [total_videos] and [processed_count] only feed the progress labels. *)
Definition process_video (env : Env) (main_video_path overlay_video_path : string)
    (total_videos processed_count : nat) : M World unit :=
  _ ← modify fresh_frame;
  try_finally
    (try_exceptM (process_video_try env main_video_path overlay_video_path)
       (fun e => _ ← discard_output env; raise e))
    forget_process.

(** Runs for the examples.  The output path of the pair [main10.mp4],
    [o10.mp4] on the demo host, and an encoder that ends with code 0 and
    leaves an empty file there. *)
Definition demo_output_path : string := "dir/output/output_main10_C_o10.mp4".

Definition empty_writer : Popen :=
  {| pid := 2; ticks := [{| ui := UiNone; stderr_line := "frame=    1" |}];
     exit_code := 0; on_terminate := Terminated 1; stderr_rest := "";
     writes := fun fs => <[demo_output_path := 0%N]> fs |}.



(** ** Relations between worlds used in the statements *)

(** Two worlds with the same application object, files and locals. *)
Definition same_frame (w w' : World) : Prop :=
  self w' = self w /\ files w' = files w /\
  output_path w' = output_path w /\ process_key w' = process_key w.

(** What the control thread can do to the world while a job watches its
    process: it can pause, resume and stop, which may empty the
    active-process map but never adds to it, and touches neither the
    gate, nor the files, nor the locals of the job. *)
Definition ui_evolved (w w' : World) : Prop :=
  files w' = files w /\ output_path w' = output_path w /\ process_key w' = process_key w /\
  processing_semaphore (self w') = processing_semaphore (self w) /\
  dom (current_processes (self w')) ⊆ dom (current_processes (self w)).

(** ** JobScheduler: the batch as a transition system

    [_process_videos_thread] (the driver), the job threads it starts and
    the control thread run interleaved.  A state holds the application
    object, the driver's position and the job threads in the order they
    were started (the driver's local list [threads]).  A step is one
    access of one thread to the shared state; everything a thread does
    on its own between two such accesses (probing, building the command,
    the external encoder, the files) shows only as the choice of the
    next position. *)

(** Where a job thread stands in [process_video].  In [JLeaving],
    [JHandler] and [JFinally], [ok] tells that no exception is in flight
    and [bound] that the local [process_key] is bound. *)
Inductive job_pc : Type :=
| JWaiting                          (* at [with self.processing_semaphore], no slot yet *)
| JEntered                          (* slot taken, before [if not self.processing] *)
| JPreparing                        (* lines 636-803 *)
| JSpawned (process : Popen)        (* [Popen] returned, before line 806 *)
| JWatching (process : Popen)       (* registered; in the monitor loop *)
| JWatched (ok : bool)              (* loop and return-code check over; inner [finally] next *)
| JVerifying                        (* settle delay and output check *)
| JLeaving (ok bound : bool)        (* about to leave the [with] block *)
| JHandler (bound : bool)           (* slot given back; in the [except] handler *)
| JFinally (bound : bool)           (* at the outer [finally] *)
| JDone.                            (* the thread has ended *)

(** The positions at which the job holds a slot of the gate: inside the
    [with] block. *)
Definition holds_slot (pc : job_pc) : bool :=
  match pc with
  | JEntered | JPreparing | JSpawned _ | JWatching _ | JWatched _ | JVerifying
  | JLeaving _ _ => true
  | JWaiting | JHandler _ | JFinally _ | JDone => false
  end.

(** The positions between the registration (line 806) and the removal
    of the key by the inner [finally] (line 854). *)
Definition registered (pc : job_pc) : bool :=
  match pc with
  | JWatching _ | JWatched _ => true
  | _ => false
  end.

Definition set_map (f : gmap string Popen -> gmap string Popen) (a : App) : App :=
  set_current_processes (f (current_processes a)) a.

(** One step of a job thread whose key is [key]. *)
Inductive job_step (key : string) : App -> job_pc -> App -> job_pc -> Prop :=
| js_acquire a n :
    processing_semaphore a = S n ->
    job_step key a JWaiting (set_processing_semaphore n a) JEntered
| js_proceed a :
    processing a = true -> job_step key a JEntered a JPreparing
| js_cancelled a :
    processing a = false -> job_step key a JEntered a (JLeaving true false)
| js_spawn a process :
    job_step key a JPreparing a (JSpawned process)
| js_prepare_fails a :
    job_step key a JPreparing a (JLeaving false false)
| js_register a process :
    job_step key a (JSpawned process) (set_map (insert key process) a) (JWatching process)
| js_watched a process ok :
    job_step key a (JWatching process) a (JWatched ok)
| js_release_ok a :
    job_step key a (JWatched true) (set_map (delete key) a) JVerifying
| js_release_failed a :
    job_step key a (JWatched false) (set_map (delete key) a) (JLeaving false true)
| js_verified a ok :
    job_step key a JVerifying a (JLeaving ok true)
| js_leave_ok a bound :
    job_step key a (JLeaving true bound)
             (set_processing_semaphore (S (processing_semaphore a)) a) (JFinally bound)
| js_leave_raising a bound :
    job_step key a (JLeaving false bound)
             (set_processing_semaphore (S (processing_semaphore a)) a) (JHandler bound)
| js_handled a bound :
    job_step key a (JHandler bound) a (JFinally bound)
| js_forget a :
    job_step key a (JFinally true) (set_map (delete key) a) JDone
| js_unbound a :
    job_step key a (JFinally false) a JDone.

Record thread : Type := {
  job_index : nat;     (* the row of the main asset in the collection *)
  thread_key : string; (* the key of line 805 *)
  pc : job_pc
}.

Definition at_pc (t : thread) (pc' : job_pc) : thread :=
  {| job_index := job_index t; thread_key := thread_key t; pc := pc' |}.

(** Where the driver stands in [_process_videos_thread]. *)
Inductive driver_pc : Type :=
| DLoop (i : nat)     (* at the head of the [for] loop, next row [i] *)
| DBody (i : nat)     (* row [i] fetched and [self.processing] found set *)
| DJoin (i : nat)     (* at [thread.join()] for the job of row [i] *)
| DCleanup            (* loop left, or exception caught: at the [finally] *)
| DDone.

Record sys : Type := {
  app : App;
  driver : driver_pc;
  threads : list thread
}.

Section Batch.
Variable env : Env.

(** One step of the batch. *)
Inductive step : sys -> sys -> Prop :=
(* the driver *)
| d_exhausted s i :
    driver s = DLoop i -> length (main_video_paths (app s)) <= i ->
    step s {| app := app s; driver := DCleanup; threads := threads s |}
| d_break s i :
    driver s = DLoop i -> i < length (main_video_paths (app s)) ->
    processing (app s) = false ->
    step s {| app := app s; driver := DCleanup; threads := threads s |}
| d_enter s i :
    driver s = DLoop i -> i < length (main_video_paths (app s)) ->
    processing (app s) = true ->
    step s {| app := app s; driver := DBody i; threads := threads s |}
| d_missing s i :           (* the file is gone: error box, [continue] *)
    driver s = DBody i ->
    step s {| app := app s; driver := DLoop (S i); threads := threads s |}
| d_no_overlay s i main_video_path :
    driver s = DBody i -> main_video_paths (app s) !! i = Some main_video_path ->
    get_suitable_overlay_videos (cv2_VideoCapture env) (overlay_video_paths (app s))
      main_video_path = Ret [] ->
    step s {| app := app s; driver := DLoop (S i); threads := threads s |}
| d_start s i main_video_path suitable overlay_video_path :
    driver s = DBody i -> main_video_paths (app s) !! i = Some main_video_path ->
    get_suitable_overlay_videos (cv2_VideoCapture env) (overlay_video_paths (app s))
      main_video_path = Ret suitable ->
    overlay_video_path ∈ suitable ->
    step s {| app := app s; driver := DJoin i;
              threads := threads s ++
                [{| job_index := i;
                    thread_key := job_key env main_video_path overlay_video_path;
                    pc := JWaiting |}] |}
| d_join s i t :
    driver s = DJoin i -> last (threads s) = Some t -> pc t = JDone ->
    step s {| app := app s; driver := DLoop (S i); threads := threads s |}
| d_raise s i :             (* an exception in the loop: [except], then [finally] *)
    driver s = DLoop i \/ driver s = DBody i \/ driver s = DJoin i ->
    step s {| app := app s; driver := DCleanup; threads := threads s |}
| d_finally s :
    driver s = DCleanup ->
    step s {| app := set_current_processes ∅ (set_processing false (app s));
              driver := DDone; threads := threads s |}
(* a job thread *)
| t_step s tid t a' pc' :
    threads s !! tid = Some t ->
    job_step (thread_key t) (app s) (pc t) a' pc' ->
    step s {| app := a'; driver := driver s; threads := <[tid := at_pc t pc']> (threads s) |}
(* the control thread *)
| u_stop s :
    step s {| app := stop_processing (app s); driver := driver s; threads := threads s |}
| u_pause s :
    step s {| app := toggle_pause (app s); driver := driver s; threads := threads s |}.

(** [start_processing] on an idle application: both collections are
    not empty, no process is registered, every slot of the gate is
    free; the flags are set and the driver starts at row 0. *)
Definition initial (s : sys) : Prop :=
  exists a,
    main_video_paths a <> [] /\ overlay_video_paths a <> [] /\
    current_processes a = ∅ /\
    processing_semaphore a = max_concurrent_processes a /\
    s = {| app := set_paused false (set_processing true a);
           driver := DLoop 0; threads := [] |}.

Inductive reachable : sys -> Prop :=
| reachable_initial s : initial s -> reachable s
| reachable_step s s' : reachable s -> step s s' -> reachable s'.
End Batch.

(** A job is live from the start of its thread to its end. *)
Definition live (t : thread) : Prop := pc t <> JDone.

(** The number of job threads that hold a slot, and the keys of those
    that stand between registration and removal. *)
Fixpoint holders (l : list thread) : nat :=
  match l with
  | [] => 0
  | t :: rest => (if holds_slot (pc t) then 1 else 0) + holders rest
  end.

Fixpoint registered_keys (l : list thread) : list string :=
  match l with
  | [] => []
  | t :: rest =>
      if registered (pc t) then thread_key t :: registered_keys rest
      else registered_keys rest
  end.

(** ** Invariants of the batch *)

Definition b2n (b : bool) : nat := if b then 1 else 0.

(** The invariant of the gate: free slots and slot holders add up to the
    limit, and every key of the map belongs to a job that stands
    between its registration and its removal. *)
Definition gate_invariant (s : sys) : Prop :=
  processing_semaphore (app s) + holders (threads s) = max_concurrent_processes (app s) /\
  forall x, x ∈ dom (current_processes (app s)) -> x ∈ registered_keys (threads s).

Definition done (t : thread) : Prop := pc t = JDone.

(** The invariant of the dispatch.  The rows of the started jobs
    increase strictly; every job but the last started has ended; at the
    head and in the body of the loop for row [i] every started job has
    ended and belongs to an earlier row; at the [join] for row [i] the
    last started job is the one of row [i]. *)
Definition dispatch_invariant (s : sys) : Prop :=
  StronglySorted lt (job_index <$> threads s) /\
  (forall j t, threads s !! j = Some t -> S j < length (threads s) -> done t) /\
  match driver s with
  | DLoop i | DBody i => Forall (fun t => done t /\ job_index t < i) (threads s)
  | DJoin i => Forall (fun t => job_index t <= i) (threads s)
  | DCleanup | DDone => True
  end.

(** A batch for the examples: one main asset and one overlay. *)
Definition demo_batch : sys :=
  {| app := set_paused false (set_processing true
              (add_video demo_cv2 "o10.mp4" overlay_group one_main_App));
     driver := DLoop 0; threads := [] |}.

(** The job of the demo batch, and the states of the batch while the
    driver waits for it. *)
Definition demo_job : thread :=
  {| job_index := 0; thread_key := job_key demo_env "main10.mp4" "o10.mp4"; pc := JWaiting |}.

Definition demo_state (a : App) (pc0 : job_pc) : sys :=
  {| app := a; driver := DJoin 0; threads := [at_pc demo_job pc0] |}.

(** The demo job has registered its process and watches it. *)
Definition demo_running : sys :=
  demo_state (set_map (insert (thread_key demo_job) demo_process)
                (set_processing_semaphore 2 (app demo_batch)))
             (JWatching demo_process).

(** ** Import: [is_video_file], [import_folder] and the drop handler *)

(** [VIDEO_EXTENSIONS] (line 22); only membership is asked of the set. *)
Definition VIDEO_EXTENSIONS : list string :=
  [".mp4"; ".avi"; ".mkv"; ".mov"; ".wmv"; ".flv"].

(** [c.lower()] for a code point below 256: the letters A to Z and the
    capital letters of Latin-1 (U+00C0 to U+00DE but for the
    multiplication sign U+00D7) move 32 places up; every other character
    is its own lower case. *)
Definition lower_char (c : ascii) : ascii :=
  let n := nat_of_ascii c in
  if (Nat.leb 65 n && Nat.leb n 90) || (Nat.leb 192 n && Nat.leb n 222 && negb (Nat.eqb n 215))
  then ascii_of_nat (n + 32) else c.

Definition lower (s : chars) : chars := List.map lower_char s.

(** [PurePath.suffix] (pathlib, Python 3.4 to 3.13) from the final
    component [name]: [name[i:]] for [i = name.rfind('.')] when
    [0 < i < len(name) - 1], the empty string otherwise. *)
Definition suffix (name : chars) : chars :=
  let i := rfind "."%char name in
  if (0 <? i)%Z && (i <? Z.of_nat (length name) - 1)%Z then slice_from name i else [].

(** What the import and the renaming read from the desktop besides the
    calls of [Env]. *)
Record Desktop : Type := {
  Path_name : string -> string;                     (* [Path(p).name], the final component *)
  os_walk : string -> list (string * list string);  (* the [(root, files)] of [os.walk], in order *)
  isdir : string -> bool;                           (* [os.path.isdir] *)
  decode_gbk : list Byte.byte -> option string;     (* [b.decode('gbk')]; [None]: UnicodeDecodeError *)
  decode_utf8 : list Byte.byte -> option string;    (* [b.decode('utf-8')] *)
  row_label : string -> float -> string;            (* the row text of a name with its duration *)
  shutil_move_allowed : string -> string -> bool    (* may this file be moved to that path? *)
}.

Definition is_video_file (desk : Desktop) (file_path : string) : bool :=
  bool_decide
    (string_of_list_ascii (lower (suffix (list_ascii_of_string (Path_name desk file_path))))
       ∈ VIDEO_EXTENSIONS).

(** ** The window: the application object and its two list boxes *)

Record Window : Type := {
  core : App;
  video_listbox : list string;     (* the rows of the list box of group A *)
  overlay_listbox : list string    (* the rows of the list box of group B *)
}.

(** The row [update_main_video_list] and [update_overlay_video_list]
    insert for a path: its base name, with the duration when the index
    has one. *)
Definition row (env : Env) (desk : Desktop) (durations : gmap string float) (path : string)
  : string :=
  match durations !! path with
  | Some duration => row_label desk (os_path_basename env path) duration
  | None => os_path_basename env path
  end.

(** Both functions empty the list box and fill it again, one row per
    path of the collection, in order; the result is the new rows. *)
Definition update_main_video_list (env : Env) (desk : Desktop) (a : App) : list string :=
  row env desk (main_video_durations a) <$> main_video_paths a.

Definition update_overlay_video_list (env : Env) (desk : Desktop) (a : App) : list string :=
  row env desk (overlay_video_durations a) <$> overlay_video_paths a.

(** The start of a session: [__init__] and two empty list boxes. *)
Definition init_Window (ffmpeg : string) : Window :=
  {| core := init_App ffmpeg; video_listbox := []; overlay_listbox := [] |}.

(** The three methods that edit a collection, with what they do to the
    list boxes. *)
Module Gui.

(** [add_video]: the list box of the target is filled again when the
    path was appended (lines 283 and 288).  The application object is
    updated by [add_video] as defined above. *)
Definition add_video (env : Env) (desk : Desktop) (video_path : string) (target : group)
    (g : Window) : Window :=
  let duration := probed_duration (cv2_VideoCapture env) video_path in
  if (duration =? 0)%float then g
  else
    let a := add_video (cv2_VideoCapture env) video_path target (core g) in
    match target with
    | main_group =>
        if bool_decide (video_path ∈ main_video_paths (core g)) then g
        else {| core := a; video_listbox := update_main_video_list env desk a;
                overlay_listbox := overlay_listbox g |}
    | overlay_group =>
        if bool_decide (video_path ∈ overlay_video_paths (core g)) then g
        else {| core := a; video_listbox := video_listbox g;
                overlay_listbox := update_overlay_video_list env desk a |}
    end.

(** The loop of [remove_selected_video]: the row leaves the list box
    (Tk ignores a row number that is out of range), then the path is
    popped from the list. *)
Fixpoint remove_selected_video_loop (indices : list nat) (rows paths : list string)
  : list string * list string * res unit :=
  match indices with
  | [] => (rows, paths, Ret tt)
  | index :: rest =>
      let rows := delete index rows in
      if decide (index < length paths) then
        remove_selected_video_loop rest rows (delete index paths)
      else (rows, paths, Raise IndexError)
  end.

(** [selected] is [self.video_listbox.curselection()]. *)
Definition remove_selected_video (selected : list nat) (g : Window) : Window * res unit :=
  let '(rows, paths, r) :=
    remove_selected_video_loop (rev selected) (video_listbox g) (main_video_paths (core g)) in
  ({| core := set_main_video_paths paths (core g); video_listbox := rows;
      overlay_listbox := overlay_listbox g |}, r).

(** [remove_selected_overlay]: the list box is filled again after the
    loop (line 1070), unless the selection is empty or the loop raised. *)
Definition remove_selected_overlay (env : Env) (desk : Desktop) (selected : list nat)
    (g : Window) : Window * res unit :=
  match selected with
  | [] => (g, Ret tt)
  | _ =>
      let '(a, r) := remove_selected_overlay selected (core g) in
      match r with
      | Ret _ =>
          ({| core := a; video_listbox := video_listbox g;
              overlay_listbox := update_overlay_video_list env desk a |}, Ret tt)
      | Raise e =>
          ({| core := a; video_listbox := video_listbox g;
              overlay_listbox := overlay_listbox g |}, Raise e)
      end
  end.

End Gui.

(** [select_all_files]: after [select_set(0, END)] the selection is
    every row of the list box. *)
Definition select_all_files (rows : list string) : list nat := seq 0 (length rows).

(** [import_folder]: every file of the walk whose name has a video
    extension is handed to [add_video], root by root, file by file. *)
Definition import_folder (env : Env) (desk : Desktop) (folder_path : string) (target : group)
    (g : Window) : Window :=
  foldl (fun g '(root, files) =>
           foldl (fun g file =>
                    let file_path := os_path_join env root file in
                    if is_video_file desk file_path
                    then Gui.add_video env desk file_path target g
                    else g)
                 g files)
        g (os_walk desk folder_path).

(** What the drop hook hands over: a [str], or the [bytes] of a path. *)
Inductive dropped : Type :=
| dropped_str (s : string)
| dropped_bytes (b : list Byte.byte).

(** Lines 1184-1192: [bytes] are decoded as GBK, then as UTF-8; [None]
    when both fail (the item is skipped). *)
Definition decode_dropped (desk : Desktop) (item : dropped) : option string :=
  match item with
  | dropped_str s => Some s
  | dropped_bytes b =>
      match decode_gbk desk b with
      | Some s => Some s
      | None => decode_utf8 desk b
      end
  end.

(** [handle_files] of [setup_drag_drop]: a directory is imported, a file
    with a video extension is added, anything else is ignored. *)
Fixpoint handle_files (env : Env) (desk : Desktop) (files : list dropped) (target_type : group)
    (g : Window) : Window :=
  match files with
  | [] => g
  | item :: rest =>
      match decode_dropped desk item with
      | None => handle_files env desk rest target_type g   (* continue *)
      | Some file_path =>
          let g :=
            if isdir desk file_path then import_folder env desk file_path target_type g
            else if is_video_file desk file_path
                 then Gui.add_video env desk file_path target_type g
                 else g in
          handle_files env desk rest target_type g
      end
  end.

(** The states of a session in which the user adds files, imports
    folders, drops items and removes selected rows.  A selection is what
    [curselection()] returns: increasing row numbers of the list box. *)
Inductive session (env : Env) (desk : Desktop) : Window -> Prop :=
| session_start ffmpeg : session env desk (init_Window ffmpeg)
| session_add g video_path target :
    session env desk g -> session env desk (Gui.add_video env desk video_path target g)
| session_import g folder_path target :
    session env desk g -> session env desk (import_folder env desk folder_path target g)
| session_drop g files target :
    session env desk g -> session env desk (handle_files env desk files target g)
| session_remove_main g selected :
    session env desk g ->
    StronglySorted lt selected -> Forall (fun i => i < length (video_listbox g)) selected ->
    session env desk (fst (Gui.remove_selected_video selected g))
| session_remove_overlay g selected :
    session env desk g ->
    StronglySorted lt selected -> Forall (fun i => i < length (overlay_listbox g)) selected ->
    session env desk (fst (Gui.remove_selected_overlay env desk selected g)).

(** ** Statements about editing sessions *)

(** The collection and the duration index of a group, and the other
    group; used to state what an edit does to its target and what it
    leaves alone. *)
Definition paths_of (target : group) (a : App) : list string :=
  match target with
  | main_group => main_video_paths a
  | overlay_group => overlay_video_paths a
  end.

Definition durations_of (target : group) (a : App) : gmap string float :=
  match target with
  | main_group => main_video_durations a
  | overlay_group => overlay_video_durations a
  end.

Definition other (target : group) : group :=
  match target with
  | main_group => overlay_group
  | overlay_group => main_group
  end.

(** A collection is consistent with its duration index: no path is
    listed twice and every listed path has a duration above zero in the
    index. *)
Definition consistent (paths : list string) (durations : gmap string float) : Prop :=
  NoDup paths /\
  Forall (fun p => exists d, durations !! p = Some d /\ (0 <? d)%float = true) paths.

Definition collections_consistent (a : App) : Prop :=
  consistent (main_video_paths a) (main_video_durations a) /\
  consistent (overlay_video_paths a) (overlay_video_durations a).

(** The overlay duration index holds the listed overlay paths as its
    keys and no other key. *)
Definition overlay_index_exact (a : App) : Prop :=
  dom (overlay_video_durations a) = list_to_set (overlay_video_paths a).

(** The list boxes show the collections, row for row. *)
Definition mirrored (env : Env) (desk : Desktop) (g : Window) : Prop :=
  video_listbox g = update_main_video_list env desk (core g) /\
  overlay_listbox g = update_overlay_video_list env desk (core g).

(** What every state of a session satisfies. *)
Definition session_ok (env : Env) (desk : Desktop) (g : Window) : Prop :=
  collections_consistent (core g) /\ mirrored env desk g /\ overlay_index_exact (core g).

(** The files of a walk, as the paths [import_folder] forms for them. *)
Definition walked_files (env : Env) (desk : Desktop) (folder_path : string) : list string :=
  '(root, files) ← os_walk desk folder_path; os_path_join env root <$> files.

(** [g'] is [g] with paths appended to the target collection, each one a
    video file by its name with a probed duration above zero; the other
    group is as in [g]. *)
Definition videos_appended (env : Env) (desk : Desktop) (target : group) (g g' : Window)
  : Prop :=
  paths_of (other target) (core g') = paths_of (other target) (core g) /\
  durations_of (other target) (core g') = durations_of (other target) (core g) /\
  exists added,
    paths_of target (core g') = paths_of target (core g) ++ added /\
    Forall (fun p => is_video_file desk p = true /\
                     (0 <? probed_duration (cv2_VideoCapture env) p)%float = true) added.

(** One round of the import on the path [p]. *)
Definition import_file (env : Env) (desk : Desktop) (target : group) (g : Window) (p : string)
  : Window :=
  if is_video_file desk p then Gui.add_video env desk p target g else g.

(** ** Start-up: [get_ffmpeg_path] *)

(** [s.split(sep)] for a separator of one character: the pieces between
    the separators, empty pieces included; one empty piece for the empty
    string. *)
Fixpoint split (sep : ascii) (s : string) : list string :=
  match s with
  | EmptyString => [EmptyString]
  | String c rest =>
      if Ascii.eqb c sep then EmptyString :: split sep rest
      else
        match split sep rest with
        | piece :: pieces => String c piece :: pieces
        | [] => [String c EmptyString]
        end
  end.

(** The loop over the directories of [PATH]. *)
Fixpoint first_on_path (env : Env) (exists_ : string -> bool) (directories : list string)
  : string :=
  match directories with
  | [] => "ffmpeg"
  | path :: rest =>
      let ffmpeg_path := os_path_join env path "ffmpeg.exe" in
      if exists_ ffmpeg_path then ffmpeg_path else first_on_path env exists_ rest
  end.

(** [exists_] is [os.path.exists]; [current_dir] is the directory of the
    script; [PATH] is [os.environ] at the key [PATH], [None] when the
    variable is not set: the lookup then raises a [KeyError], written
    here as an [Exception] with that text.  The separator [os.pathsep]
    is the semicolon of Windows. *)
Definition get_ffmpeg_path (env : Env) (exists_ : string -> bool) (current_dir : string)
    (PATH : option string) : res string :=
  let ffmpeg_path := os_path_join env current_dir "ffmpeg.exe" in
  if exists_ ffmpeg_path then Ret ffmpeg_path
  else
    match PATH with
    | None => Raise (Exception "KeyError: 'PATH'")
    | Some value => Ret (first_on_path env exists_ (split ";"%char value))
    end.

(** ** Start of a batch: [start_processing] *)

(** [Thread_start] is the outcome of creating and starting the driver
    thread.  The result tells whether the driver runs.  With an empty
    collection the method shows a warning and returns; when the thread
    cannot be started the handler lowers the flag again. *)
Definition start_processing (Thread_start : res unit) (a : App) : App * bool :=
  match main_video_paths a with
  | [] => (a, false)
  | _ =>
      match overlay_video_paths a with
      | [] => (a, false)
      | _ =>
          let a := set_paused false (set_processing true a) in
          match Thread_start with
          | Ret _ => (a, true)
          | Raise _ => (set_processing false a, false)
          end
      end
  end.

(** ** Renaming: [rename_selected_files] *)

(** The decimal digits of a number, most significant first. *)
Fixpoint uint_chars (d : Decimal.uint) : chars :=
  match d with
  | Decimal.Nil => []
  | Decimal.D0 d => "0"%char :: uint_chars d
  | Decimal.D1 d => "1"%char :: uint_chars d
  | Decimal.D2 d => "2"%char :: uint_chars d
  | Decimal.D3 d => "3"%char :: uint_chars d
  | Decimal.D4 d => "4"%char :: uint_chars d
  | Decimal.D5 d => "5"%char :: uint_chars d
  | Decimal.D6 d => "6"%char :: uint_chars d
  | Decimal.D7 d => "7"%char :: uint_chars d
  | Decimal.D8 d => "8"%char :: uint_chars d
  | Decimal.D9 d => "9"%char :: uint_chars d
  end.

(** The format [{n:03d}]: the decimal digits of [n], padded with zeros
    on the left to three places. *)
Definition format_03d (n : nat) : string :=
  let digits := uint_chars (Nat.to_uint n) in
  string_of_list_ascii (repeat "0"%char (3 - length digits) ++ digits).

(** [os.path.exists(path)]: a file of the state or a directory. *)
Definition path_exists (env : Env) (files : gmap string N) (path : string) : bool :=
  bool_decide (is_Some (files !! path)) || os_path_isdir env path.

(** [os.path.splitext] on a [str]. *)
Definition splitext_str (p : string) : string * string :=
  let '(root, ext) := splitext (list_ascii_of_string p) in
  (string_of_list_ascii root, string_of_list_ascii ext).

(** The loop of line 507: while the candidate exists, the next candidate
    is the first one with the counter appended to its root.  [None]: no
    free name was found within [fuel] rounds. *)
Fixpoint free_path (env : Env) (files : gmap string N) (base_path ext : string)
    (fuel counter : nat) (new_path : string) : option string :=
  if path_exists env files new_path then
    match fuel with
    | 0 => None
    | S fuel =>
        let base_name := fst (splitext_str base_path) in
        free_path env files base_path ext fuel (S counter)
          (os_path_normpath env (base_name +:+ "_" +:+ format_03d counter +:+ ext))
    end
  else Some new_path.

(** [shutil.move(src, dst)] for a file [src] and a path [dst] at which
    nothing exists: the file is at [dst] afterwards; an [OSError] when
    there is no file at [src] or the system refuses, and the files are
    then as before. *)
Definition shutil_move (desk : Desktop) (src dst : string) (files : gmap string N)
  : res (gmap string N) :=
  match files !! src with
  | Some size =>
      if shutil_move_allowed desk src dst then Ret (<[dst := size]> (delete src files))
      else Raise OSError
  | None => Raise OSError
  end.

(** The first loop (lines 499-514), from the [i]-th selected row on:
    each file is moved to the first free name, and the move is recorded
    in [renamed_paths]. *)
Fixpoint rename_loop (env : Env) (desk : Desktop) (fuel : nat) (prefix target_dir : string)
    (paths : list string) (selected : list nat) (i : nat) (files : gmap string N)
    (renamed_paths : gmap string string)
  : option (gmap string N * res (gmap string string)) :=
  match selected with
  | [] => Some (files, Ret renamed_paths)
  | index :: rest =>
      match paths !! index with
      | None => Some (files, Raise IndexError)
      | Some old_path =>
          let ext := snd (splitext_str old_path) in
          let new_filename := prefix +:+ "_" +:+ format_03d (i + 1) +:+ ext in
          let new_path := os_path_normpath env (os_path_join env target_dir new_filename) in
          match free_path env files new_path ext fuel 1 new_path with
          | None => None
          | Some new_path =>
              match shutil_move desk old_path new_path files with
              | Ret files =>
                  rename_loop env desk fuel prefix target_dir paths rest (S i) files
                    (<[old_path := new_path]> renamed_paths)
              | Raise e => Some (files, Raise e)
              end
          end
      end
  end.

(** The second loop (lines 516-525) over the rows not yet visited:
    [updated] holds the rows already visited.  A renamed row takes its
    new path, and its duration moves to the new key; a [KeyError],
    written as an [Exception], when the index has no entry for the old
    path (the row has its new path by then). *)
Fixpoint update_loop (renamed_paths : gmap string string) (paths updated : list string)
    (durations : gmap string float) : list string * gmap string float * res unit :=
  match paths with
  | [] => (updated, durations, Ret tt)
  | path :: rest =>
      match renamed_paths !! path with
      | Some new_path =>
          match durations !! path with
          | Some duration =>
              update_loop renamed_paths rest (updated ++ [new_path])
                (delete path (<[new_path := duration]> durations))
          | None =>
              (updated ++ new_path :: rest, durations, Raise (Exception "KeyError"))
          end
      | None => update_loop renamed_paths rest (updated ++ [path]) durations
      end
  end.

Definition set_group (target : group) (paths : list string) (durations : gmap string float)
    (a : App) : App :=
  match target with
  | main_group =>
      {| main_video_paths := paths; overlay_video_paths := overlay_video_paths a;
         main_video_durations := durations;
         overlay_video_durations := overlay_video_durations a;
         output_directory := output_directory a; opacity_var := opacity_var a;
         processing := processing a; paused := paused a;
         current_processes := current_processes a;
         max_concurrent_processes := max_concurrent_processes a;
         processing_semaphore := processing_semaphore a;
         use_gpu := use_gpu a; ffmpeg_path := ffmpeg_path a |}
  | overlay_group => set_overlay_videos paths durations a
  end.

(** The prefix of the new names: [Main], or [video_] and the target,
    which is [overlay] for the second list box (line 385). *)
Definition rename_prefix (target : group) : string :=
  match target with
  | main_group => "Main"
  | overlay_group => "video_overlay"
  end.

(** [selected] is the selection of the list box of [target]; the files
    are part of the state.  The result tells whether the success box
    was shown: every exception is caught, logged and shown instead.
    [None]: the search of a free name did not end within [fuel]
    rounds. *)
Definition rename_selected_files (env : Env) (desk : Desktop) (fuel : nat) (target : group)
    (selected : list nat) (g : Window) (files : gmap string N)
  : option (Window * gmap string N * bool) :=
  let paths := paths_of target (core g) in
  let durations := durations_of target (core g) in
  let prefix := rename_prefix target in
  match selected with
  | [] => Some (g, files, false)   (* warning box *)
  | first :: _ =>
      match paths !! first with
      | None => Some (g, files, false)
      | Some first_file =>
          let target_dir := os_path_dirname env first_file in
          match rename_loop env desk fuel prefix target_dir paths selected 0 files ∅ with
          | None => None
          | Some (files, Raise _) => Some (g, files, false)
          | Some (files, Ret renamed_paths) =>
              let '(paths, durations, r) := update_loop renamed_paths paths [] durations in
              let a := set_group target paths durations (core g) in
              match r with
              | Raise _ =>
                  Some ({| core := a; video_listbox := video_listbox g;
                           overlay_listbox := overlay_listbox g |}, files, false)
              | Ret _ =>
                  Some (match target with
                        | main_group =>
                            {| core := a; video_listbox := update_main_video_list env desk a;
                               overlay_listbox := overlay_listbox g |}
                        | overlay_group =>
                            {| core := a; video_listbox := video_listbox g;
                               overlay_listbox := update_overlay_video_list env desk a |}
                        end, files, true)
              end
          end
      end
  end.

(** The names the loop of line 507 tries, in order: the first name, then
    the names with the counters 1, 2, ... appended to its root. *)
Definition candidate (env : Env) (base_path ext : string) (k : nat) : string :=
  match k with
  | 0 => base_path
  | S _ =>
      os_path_normpath env (fst (splitext_str base_path) +:+ "_" +:+ format_03d k +:+ ext)
  end.

(** The name of line 503 for the [i]-th selected row. *)
Definition first_name (env : Env) (prefix target_dir : string) (i : nat) (old_path : string)
  : string :=
  os_path_normpath env
    (os_path_join env target_dir
       (prefix +:+ "_" +:+ format_03d (i + 1) +:+ snd (splitext_str old_path))).

(** The first [n + 1] names tried from [base_path] are pairwise distinct
    and none of them is a directory. *)
Definition names_usable (env : Env) (n : nat) (base_path ext : string) : Prop :=
  (forall j k, j <= n -> k <= n ->
     candidate env base_path ext j = candidate env base_path ext k -> j = k) /\
  (forall k, k <= n -> os_path_isdir env (candidate env base_path ext k) = false).

(** ** Jobs that launch no encoder *)

(** The positions of a job that has prepared nothing and will not: it
    waits at the gate, stands before the check of line 633, or leaves
    after that check found the session stopped. *)
Definition unstarted (pc0 : job_pc) : bool :=
  match pc0 with
  | JWaiting | JEntered | JLeaving true false | JFinally false | JDone => true
  | _ => false
  end.

(** ** The whole session: batches, a new start while a driver lives, edits

    [step] follows one batch whose collections nobody touches.  The
    window allows more while a batch runs.  [stop_processing] lowers
    [processing] and enables the start button again (lines 971 and
    1012-1013) although the driver and its job are still alive, and
    [start_processing] has no guard against a living driver (lines
    561-581): several drivers can run at once.  The buttons that add,
    remove and rename files are never disabled (lines 999-1023), and
    both collections are lists changed in place, which the loops of the
    driver read through their iterators.

    A [machine] holds the application object and one [batch] per driver
    that was started.  A driver fetches row [i] of the list as it is at
    that moment, and the loop of [get_suitable_overlay_videos] fetches
    row [j] of the overlay list as it is at that moment.  An edit is any
    change of the application object that keeps the flags, the
    active-process map, the gate and the path of the encoder: this
    covers [add_video], [import_folder], the drop handler, both
    removals, the renaming and the settings, also when a driver or a job
    runs between two of their assignments.  A start may happen in any
    state, which covers every state in which the button is enabled.
    [stop_processing] and [toggle_pause] are one step each, as in [step],
    and so is [start_processing].  The host is a parameter of every move: in
    [reached] it may answer differently from one move to the next (files
    are moved and deleted while the session runs), in [reached_on] it
    answers the same throughout. *)

(** Where a driver stands in [_process_videos_thread], with the locals
    it holds there. *)
Inductive driver_at : Type :=
| AtNext (i : nat)
    (* at the head of the [for] loop, the iterator at row [i] *)
| AtCheck (i : nat) (main_video_path : string)
    (* row [i] fetched, before [if not self.processing] *)
| AtBody (i : nat) (main_video_path : string)
    (* lines 901-906, up to the probe of the main asset *)
| AtSelect (i : nat) (main_video_path : string) (main_duration : float) (j : nat)
           (suitable_videos : list string)
    (* in the loop of [get_suitable_overlay_videos], its iterator at row [j] *)
| AtJoin (i : nat)
    (* the job of row [i] started; up to [thread.join()] *)
| AtFinally
    (* loop left or exception caught: before [self.processing = False] *)
| AtClear
    (* before [self.current_processes.clear()] *)
| AtEnd.

(** A driver and the jobs it has started, oldest first (its local list
    [threads]). *)
Record batch : Type := {
  batch_driver : driver_at;
  batch_threads : list thread
}.

Definition new_job (env : Env) (i : nat) (main_video_path overlay_video_path : string)
  : thread :=
  {| job_index := i; thread_key := job_key env main_video_path overlay_video_path;
     pc := JWaiting |}.

Definition at_driver (b : batch) (d : driver_at) : batch :=
  {| batch_driver := d; batch_threads := batch_threads b |}.

(** The positions from which an exception takes the driver to its
    handler and then to the [finally]. *)
Definition in_try (d : driver_at) : bool :=
  match d with
  | AtNext _ | AtCheck _ _ | AtBody _ _ | AtSelect _ _ _ _ _ | AtJoin _ => true
  | AtFinally | AtClear | AtEnd => false
  end.

(** The test and the [append] of lines 303-318 for one overlay. *)
Definition consider (main_duration overlay_duration : float) (overlay_path : string)
    (suitable_videos : list string) : list string :=
  if (overlay_duration <=? 0)%float then suitable_videos
  else if in_window main_duration overlay_duration then suitable_videos ++ [overlay_path]
  else suitable_videos.

(** One step of a driver. *)
Inductive driver_step (env : Env) : App -> batch -> App -> batch -> Prop :=
| ds_exhausted a b i :
    batch_driver b = AtNext i -> length (main_video_paths a) <= i ->
    driver_step env a b a (at_driver b AtFinally)
| ds_fetch a b i main_video_path :
    batch_driver b = AtNext i -> main_video_paths a !! i = Some main_video_path ->
    driver_step env a b a (at_driver b (AtCheck i main_video_path))
| ds_break a b i main_video_path :
    batch_driver b = AtCheck i main_video_path -> processing a = false ->
    driver_step env a b a (at_driver b AtFinally)
| ds_enter a b i main_video_path :
    batch_driver b = AtCheck i main_video_path -> processing a = true ->
    driver_step env a b a (at_driver b (AtBody i main_video_path))
| ds_missing a b i main_video_path :     (* the file is gone: error box, [continue] *)
    batch_driver b = AtBody i main_video_path ->
    driver_step env a b a (at_driver b (AtNext (S i)))
| ds_main_raises a b i main_video_path e :   (* [except]: no overlay, [continue] *)
    batch_driver b = AtBody i main_video_path ->
    get_video_duration (cv2_VideoCapture env) main_video_path = Raise e ->
    driver_step env a b a (at_driver b (AtNext (S i)))
| ds_main_unreadable a b i main_video_path main_duration :
    batch_driver b = AtBody i main_video_path ->
    get_video_duration (cv2_VideoCapture env) main_video_path = Ret main_duration ->
    (main_duration <=? 0)%float = true ->
    driver_step env a b a (at_driver b (AtNext (S i)))
| ds_select a b i main_video_path main_duration :
    batch_driver b = AtBody i main_video_path ->
    get_video_duration (cv2_VideoCapture env) main_video_path = Ret main_duration ->
    (main_duration <=? 0)%float = false ->
    driver_step env a b a (at_driver b (AtSelect i main_video_path main_duration 0 []))
| ds_overlay a b i main_video_path main_duration j suitable_videos overlay_path
             overlay_duration :
    batch_driver b = AtSelect i main_video_path main_duration j suitable_videos ->
    overlay_video_paths a !! j = Some overlay_path ->
    get_video_duration (cv2_VideoCapture env) overlay_path = Ret overlay_duration ->
    driver_step env a b a
      (at_driver b (AtSelect i main_video_path main_duration (S j)
                      (consider main_duration overlay_duration overlay_path suitable_videos)))
| ds_overlay_raises a b i main_video_path main_duration j suitable_videos overlay_path e :
    batch_driver b = AtSelect i main_video_path main_duration j suitable_videos ->
    overlay_video_paths a !! j = Some overlay_path ->
    get_video_duration (cv2_VideoCapture env) overlay_path = Raise e ->
    driver_step env a b a (at_driver b (AtNext (S i)))
| ds_no_overlay a b i main_video_path main_duration j :
    batch_driver b = AtSelect i main_video_path main_duration j [] ->
    length (overlay_video_paths a) <= j ->
    driver_step env a b a (at_driver b (AtNext (S i)))
| ds_start a b i main_video_path main_duration j suitable_videos overlay_video_path :
    batch_driver b = AtSelect i main_video_path main_duration j suitable_videos ->
    length (overlay_video_paths a) <= j ->
    overlay_video_path ∈ suitable_videos ->      (* [random.choice] *)
    driver_step env a b a
      {| batch_driver := AtJoin i;
         batch_threads := batch_threads b ++ [new_job env i main_video_path overlay_video_path] |}
| ds_join a b i t :
    batch_driver b = AtJoin i -> last (batch_threads b) = Some t -> pc t = JDone ->
    driver_step env a b a (at_driver b (AtNext (S i)))
| ds_raise a b :
    in_try (batch_driver b) = true ->
    driver_step env a b a (at_driver b AtFinally)
| ds_lower a b :
    batch_driver b = AtFinally ->
    driver_step env a b (set_processing false a) (at_driver b AtClear)
| ds_clear a b :
    batch_driver b = AtClear ->
    driver_step env a b (set_current_processes ∅ a) (at_driver b AtEnd).

Record machine : Type := {
  machine_app : App;
  batches : list batch
}.

(** What edits of the collections and of the settings leave alone. *)
Definition same_control (a a' : App) : Prop :=
  processing a' = processing a /\ paused a' = paused a /\
  current_processes a' = current_processes a /\
  max_concurrent_processes a' = max_concurrent_processes a /\
  processing_semaphore a' = processing_semaphore a /\
  ffmpeg_path a' = ffmpeg_path a.

(** Who moves: the driver of batch [k], the job [tid] of batch [k], or
    the control thread with one of its callbacks. *)
Inductive event : Type :=
| EvDriver (k : nat)
| EvJob (k tid : nat)
| EvStart
| EvStop
| EvPause
| EvEdit.

Inductive move (env : Env) : machine -> event -> machine -> Prop :=
| m_driver s k b a' b' :
    batches s !! k = Some b ->
    driver_step env (machine_app s) b a' b' ->
    move env s (EvDriver k) {| machine_app := a'; batches := <[k := b']> (batches s) |}
| m_job s k b tid t a' pc' :
    batches s !! k = Some b -> batch_threads b !! tid = Some t ->
    job_step (thread_key t) (machine_app s) (pc t) a' pc' ->
    move env s (EvJob k tid)
      {| machine_app := a';
         batches := <[k := {| batch_driver := batch_driver b;
                              batch_threads := <[tid := at_pc t pc']> (batch_threads b) |}]>
                      (batches s) |}
| m_start s Thread_start :
    move env s EvStart
      {| machine_app := fst (start_processing Thread_start (machine_app s));
         batches := batches s ++
                    if snd (start_processing Thread_start (machine_app s))
                    then [{| batch_driver := AtNext 0; batch_threads := [] |}] else [] |}
| m_stop s :
    move env s EvStop
      {| machine_app := stop_processing (machine_app s); batches := batches s |}
| m_pause s :
    move env s EvPause
      {| machine_app := toggle_pause (machine_app s); batches := batches s |}
| m_edit s a' :
    same_control (machine_app s) a' ->
    move env s EvEdit {| machine_app := a'; batches := batches s |}.

(** The application before the first start: no driver, the flag down,
    no process registered, every slot of the gate free. *)
Definition idle (s : machine) : Prop :=
  batches s = [] /\ processing (machine_app s) = false /\
  current_processes (machine_app s) = ∅ /\
  processing_semaphore (machine_app s) = max_concurrent_processes (machine_app s).

(** The states a session can get to, on a host whose answers may change
    from move to move. *)
Inductive reached : machine -> Prop :=
| reached_idle s : idle s -> reached s
| reached_move env s e s' : reached s -> move env s e s' -> reached s'.

(** The states a session can get to on the host [env]. *)
Inductive reached_on (env : Env) : machine -> Prop :=
| reached_on_idle s : idle s -> reached_on env s
| reached_on_move s e s' : reached_on env s -> move env s e s' -> reached_on env s'.

(** A move of any thread but a new start. *)
Definition move_without_start (s s' : machine) : Prop :=
  exists env e, e <> EvStart /\ move env s e s'.

(** Every job of the session, batch after batch. *)
Definition all_threads (s : machine) : list thread :=
  concat (batch_threads <$> batches s).

(** The job [t] works on a main asset and an overlay whose probed
    durations [m] and [d] satisfy [0 < m] and [m <= d <= m * 3.0]. *)
Definition paired (env : Env) (t : thread) : Prop :=
  exists main_video_path overlay_video_path,
    thread_key t = job_key env main_video_path overlay_video_path /\
    (0 <? probed_duration (cv2_VideoCapture env) main_video_path)%float = true /\
    in_window (probed_duration (cv2_VideoCapture env) main_video_path)
              (probed_duration (cv2_VideoCapture env) overlay_video_path) = true.

(** The invariant of a driver: the rows of its jobs increase strictly;
    all its jobs but the last have ended; while it fetches, checks and
    selects for row [i], all its jobs have ended and belong to earlier
    rows. *)
Definition batch_invariant (b : batch) : Prop :=
  StronglySorted lt (job_index <$> batch_threads b) /\
  (forall j t, batch_threads b !! j = Some t -> S j < length (batch_threads b) -> done t) /\
  match batch_driver b with
  | AtNext i | AtCheck i _ | AtBody i _ | AtSelect i _ _ _ _ =>
      Forall (fun t => done t /\ job_index t < i) (batch_threads b)
  | AtJoin i => Forall (fun t => job_index t <= i) (batch_threads b)
  | AtFinally | AtClear | AtEnd => True
  end.

(** The invariant of the selection: the main asset was probed at a
    duration above zero, and every overlay accepted so far lies in its
    window. *)
Definition selection_invariant (env : Env) (b : batch) : Prop :=
  match batch_driver b with
  | AtSelect _ main_video_path main_duration _ suitable_videos =>
      probed_duration (cv2_VideoCapture env) main_video_path = main_duration /\
      (0 <? main_duration)%float = true /\
      Forall (fun o => in_window main_duration (probed_duration (cv2_VideoCapture env) o) = true)
             suitable_videos
  | _ => True
  end.

(** The invariant of the gate for the whole session. *)
Definition session_gate_invariant (s : machine) : Prop :=
  processing_semaphore (machine_app s) + holders (all_threads s)
    = max_concurrent_processes (machine_app s) /\
  forall x, x ∈ dom (current_processes (machine_app s)) -> x ∈ registered_keys (all_threads s).

(** ** More examples *)

(** A desktop and a host for the examples: the folder [clips] holds two
    clips and a text file, every path opens as a clip of 10 seconds, and
    a row shows the base name only. *)
Definition demo_desk : Desktop :=
  {| Path_name := fun p => p;
     os_walk := fun _ => [("clips"%string, ["a.mp4"; "notes.txt"; "b.MKV"]%string)];
     isdir := fun p => String.eqb p "clips";
     decode_gbk := fun _ => None;
     decode_utf8 := fun _ => None;
     row_label := fun name _ => name;
     shutil_move_allowed := fun _ _ => true |}.

Definition open_env : Env :=
  {| subprocess_run := subprocess_run demo_env;
     subprocess_Popen := subprocess_Popen demo_env;
     os_makedirs := os_makedirs demo_env;
     os_path_isdir := os_path_isdir demo_env;
     os_remove_allowed := os_remove_allowed demo_env;
     os_path_basename := os_path_basename demo_env;
     os_path_dirname := os_path_dirname demo_env;
     os_path_join := os_path_join demo_env;
     os_path_normpath := os_path_normpath demo_env;
     utf8_encodable := utf8_encodable demo_env;
     cv2_VideoCapture := fun _ => clip 25 250;
     parse_dimensions := parse_dimensions demo_env;
     format_filter := format_filter demo_env |}.

(** The window after the folder [clips] was imported into group B. *)
Definition demo_window : Window :=
  import_folder open_env demo_desk "clips" overlay_group (init_Window "ffmpeg").

(** An encoder for the examples that ends with code 0 and leaves an
    output file of 4096 bytes. *)
Definition good_writer : Popen :=
  {| pid := 3; ticks := [{| ui := UiNone; stderr_line := "frame=  250" |}];
     exit_code := 0; on_terminate := Terminated 1; stderr_rest := "";
     writes := fun fs => <[demo_output_path := 4096%N]> fs |}.

(** A host for the examples on which no path is a directory, and two
    files for the clips of the imported folder. *)
Definition plain_env : Env :=
  {| subprocess_run := subprocess_run demo_env;
     subprocess_Popen := subprocess_Popen demo_env;
     os_makedirs := os_makedirs demo_env;
     os_path_isdir := fun _ => false;
     os_remove_allowed := os_remove_allowed demo_env;
     os_path_basename := os_path_basename demo_env;
     os_path_dirname := os_path_dirname demo_env;
     os_path_join := os_path_join demo_env;
     os_path_normpath := os_path_normpath demo_env;
     utf8_encodable := utf8_encodable demo_env;
     cv2_VideoCapture := fun _ => clip 25 250;
     parse_dimensions := parse_dimensions demo_env;
     format_filter := format_filter demo_env |}.

Definition demo_files : gmap string N :=
  <["clips/a.mp4"%string := 10%N]> (<["clips/b.MKV"%string := 20%N]> ∅).

(** The same files when the first name of the renaming is taken. *)
Definition taken_files : gmap string N :=
  <["dir/video_overlay_001.mp4"%string := 7%N]> demo_files.

(** A host for the examples that starts an encoder for one command
    only: the command of the pair [main10.mp4], [o10.mp4] with the AMF
    encoder, which is the family the negotiation finds on the demo
    host.  Every other command is refused. *)
Definition amf_command : list string :=
  ffmpeg_command "ffmpeg" "main10.mp4" "o10.mp4" "filter" (Some AMD) demo_output_path.

Definition strict_host (expected : list string) (process : Popen) : Env :=
  {| subprocess_run := subprocess_run demo_env;
     subprocess_Popen := fun command =>
       if bool_decide (command = expected) then Ret process else Raise OSError;
     os_makedirs := os_makedirs demo_env;
     os_path_isdir := os_path_isdir demo_env;
     os_remove_allowed := os_remove_allowed demo_env;
     os_path_basename := os_path_basename demo_env;
     os_path_dirname := os_path_dirname demo_env;
     os_path_join := os_path_join demo_env;
     os_path_normpath := os_path_normpath demo_env;
     utf8_encodable := utf8_encodable demo_env;
     cv2_VideoCapture := cv2_VideoCapture demo_env;
     parse_dimensions := parse_dimensions demo_env;
     format_filter := format_filter demo_env |}.

(** A world with a file that no job names, for the examples. *)
Definition kept_world : World :=
  {| self := set_processing true (init_App "ffmpeg");
     files := {["dir/keep.mp4"%string := 9%N]}; spawned := [];
     output_path := None; process_key := None |}.

(** ** Examples: a batch of two main assets *)

(** A batch of two main assets and one overlay for the examples; every
    path opens as a clip of 10 seconds. *)
Definition two_App : App :=
  add_video (cv2_VideoCapture open_env) "o.mp4" overlay_group
    (add_video (cv2_VideoCapture open_env) "b.mp4" main_group
       (add_video (cv2_VideoCapture open_env) "a.mp4" main_group (init_App "ffmpeg"))).

Definition two_batch : sys :=
  {| app := set_paused false (set_processing true two_App); driver := DLoop 0; threads := [] |}.

Definition first_job (pc0 : job_pc) : thread :=
  {| job_index := 0; thread_key := job_key open_env "a.mp4" "o.mp4"; pc := pc0 |}.

Definition second_job (pc0 : job_pc) : thread :=
  {| job_index := 1; thread_key := job_key open_env "b.mp4" "o.mp4"; pc := pc0 |}.

(** The first job has ended and the driver is about to start the job of
    the second row; then the second job watches its encoder. *)
Definition two_second_due : sys :=
  {| app := app two_batch; driver := DBody 1; threads := [first_job JDone] |}.

Definition two_second_running : sys :=
  {| app := set_map (insert (job_key open_env "b.mp4" "o.mp4") demo_process)
              (set_processing_semaphore 2 (app two_batch));
     driver := DJoin 1;
     threads := [first_job JDone; second_job (JWatching demo_process)] |}.

(** The states of that batch while the driver waits for its first and
    for its second job. *)
Definition first_state (a : App) (pc0 : job_pc) : sys :=
  {| app := a; driver := DJoin 0; threads := [first_job pc0] |}.

Definition second_state (a : App) (pc0 : job_pc) : sys :=
  {| app := a; driver := DJoin 1; threads := [first_job JDone; second_job pc0] |}.

(** A session on the two main assets and the overlay of [two_App], for
    the examples.  The first start launches a driver whose job for
    [a.mp4] gets as far as watching its encoder; then the session is
    stopped, [a.mp4] is removed from the list, and the session is
    started again: the second driver finds [b.mp4] in row 0 and its job
    also gets as far as watching its encoder, while the first job is
    still alive. *)
Definition restart_idle : machine := {| machine_app := two_App; batches := [] |}.

Definition job_a (pc0 : job_pc) : thread :=
  {| job_index := 0; thread_key := job_key open_env "a.mp4" "o.mp4"; pc := pc0 |}.

Definition job_b (pc0 : job_pc) : thread :=
  {| job_index := 0; thread_key := job_key open_env "b.mp4" "o.mp4"; pc := pc0 |}.

Definition restart_running : machine :=
  {| machine_app :=
       set_map (insert (job_key open_env "b.mp4" "o.mp4") demo_process)
         (set_processing_semaphore 1
            (set_paused false (set_processing true (set_main_video_paths ["b.mp4"] two_App))));
     batches := [ {| batch_driver := AtJoin 0;
                     batch_threads := [job_a (JWatching demo_process)] |};
                  {| batch_driver := AtJoin 0;
                     batch_threads := [job_b (JWatching demo_process)] |} ] |}.

(** The same session stopped while the first job waited at the gate,
    and later, when a row has been removed and that job has taken its
    slot and found the session stopped. *)
Definition restart_stopped : machine :=
  {| machine_app := stop_processing (set_paused false (set_processing true two_App));
     batches := [ {| batch_driver := AtJoin 0; batch_threads := [job_a JWaiting] |} ] |}.

Definition restart_cancelled : machine :=
  {| machine_app :=
       set_processing_semaphore 2
         (set_main_video_paths ["b.mp4"]
            (stop_processing (set_paused false (set_processing true two_App))));
     batches := [ {| batch_driver := AtJoin 0;
                     batch_threads := [job_a (JLeaving true false)] |} ] |}.

(* ===================================================================== *)
(** * Part II.  Properties                                                *)
(* ===================================================================== *)

Example py_int_trunc : py_int 31.75%float = Ret 31%Z /\ py_int (-2.5)%float = Ret (-2)%Z.
Proof. split; vm_compute; reflexivity. Qed.

(** ** Binary64 comparisons against zero *)

Lemma Prim2SF_zero : Prim2SF 0%float = S754_zero false.
Proof. reflexivity. Qed.

(** A float strictly above zero is not below or equal to it. *)
Lemma float_pos_not_le0 (x : float) : (0 <? x)%float = true -> (x <=? 0)%float = false.
Proof.
  rewrite FloatAxioms.ltb_spec, FloatAxioms.leb_spec, Prim2SF_zero.
  unfold SFltb, SFleb.
  destruct (Prim2SF x) as [s | s | | s m e]; simpl; try destruct s; congruence.
Qed.

Lemma float_zero_le0 : (0 <=? 0)%float = true.
Proof. reflexivity. Qed.

(** Nothing strictly positive is below or equal to zero, so a main
    duration above zero has no zero in its window. *)
Lemma in_window_zero (m : float) : (0 <? m)%float = true -> in_window m 0 = false.
Proof.
  intros H. unfold in_window. simpl. rewrite (float_pos_not_le0 m H). reflexivity.
Qed.

(** ** MediaProbe *)

Lemma get_video_duration_cases (cv : cv2) (video_path : string) :
  get_video_duration cv video_path = Ret 0%float \/
  exists d, get_video_duration cv video_path = Ret d /\ (0 <? d)%float = true.
Proof.
  unfold get_video_duration, get_video_duration_try, try_except.
  destruct (cv video_path) as [cap | e]; simpl; [| now left].
  destruct (isOpened cap) as [[|] | e]; simpl; try now left.
  destruct (get_CAP_PROP_FPS cap) as [fps | e]; simpl; [| now left].
  destruct (get_CAP_PROP_FRAME_COUNT cap) as [raw | e]; simpl; [| now left].
  destruct (py_int raw) as [n | e]; simpl; [| now left].
  destruct ((fps <=? 0)%float || (n <=? 0)%Z); [now left |].
  destruct (py_truediv n fps) as [q | e]; simpl; [| now left].
  destruct (release cap) as [[] | e]; simpl; [| now left].
  destruct (0 <? q)%float eqn:Hq; [right; eauto | now left].
Qed.

(** C7, as the code has it: the probe never raises; it returns 0 when the
    container cannot be opened, when the frame rate or the frame count is
    not above zero, and when anything inside raises; otherwise it returns
    the quotient frame_count / fps when that quotient is above zero, and 0
    when it is not (the guard of line 67: an infinite or NaN frame rate).
    Whatever it returns is 0 or strictly positive. *)
Theorem get_video_duration_spec (cv : cv2) (video_path : string) :
  exists d, get_video_duration cv video_path = Ret d /\
    (d = 0%float \/ (0 <? d)%float = true) /\
    (forall e, get_video_duration_try cv video_path = Raise e -> d = 0%float) /\
    (forall cap, cv video_path = Ret cap -> isOpened cap = Ret false -> d = 0%float) /\
    (forall cap fps raw n,
        cv video_path = Ret cap -> isOpened cap = Ret true ->
        get_CAP_PROP_FPS cap = Ret fps -> get_CAP_PROP_FRAME_COUNT cap = Ret raw ->
        py_int raw = Ret n ->
        (fps <=? 0)%float = true \/ (n <= 0)%Z -> d = 0%float) /\
    (forall cap fps raw n x,
        cv video_path = Ret cap -> isOpened cap = Ret true ->
        get_CAP_PROP_FPS cap = Ret fps -> get_CAP_PROP_FRAME_COUNT cap = Ret raw ->
        py_int raw = Ret n -> release cap = Ret tt ->
        (fps <=? 0)%float = false -> (0 < n)%Z -> py_float n = Ret x ->
        d = if (0 <? x / fps)%float then (x / fps)%float else 0%float).
Proof.
  assert (Hd : exists d, get_video_duration cv video_path = Ret d /\
                         (d = 0%float \/ (0 <? d)%float = true)).
  { destruct (get_video_duration_cases cv video_path) as [H | [d [H Hp]]]; eauto. }
  destruct Hd as [d [Hd Hsign]]. exists d. split; [exact Hd |]. split; [exact Hsign |].
  unfold get_video_duration, try_except in Hd.
  repeat split.
  - intros e He. rewrite He in Hd. congruence.
  - intros cap Hc Ho. unfold get_video_duration_try in Hd.
    rewrite Hc in Hd; simpl in Hd. rewrite Ho in Hd; simpl in Hd. congruence.
  - intros cap fps raw n Hc Ho Hf Hr Hn Hle. unfold get_video_duration_try in Hd.
    rewrite Hc in Hd; simpl in Hd. rewrite Ho in Hd; simpl in Hd.
    rewrite Hf in Hd; simpl in Hd. rewrite Hr in Hd; simpl in Hd.
    rewrite Hn in Hd; simpl in Hd.
    assert (Hb : (fps <=? 0)%float || (n <=? 0)%Z = true).
    { destruct Hle as [-> | Hle]; [reflexivity |].
      apply orb_true_iff. right. now apply Z.leb_le. }
    rewrite Hb in Hd. congruence.
  - intros cap fps raw n x Hc Ho Hf Hr Hn Hrel Hfps Hpos Hx.
    unfold get_video_duration_try in Hd.
    rewrite Hc in Hd; simpl in Hd. rewrite Ho in Hd; simpl in Hd.
    rewrite Hf in Hd; simpl in Hd. rewrite Hr in Hd; simpl in Hd.
    rewrite Hn in Hd; simpl in Hd.
    assert (Hb : (fps <=? 0)%float || (n <=? 0)%Z = false).
    { rewrite Hfps. simpl. apply Z.leb_gt. exact Hpos. }
    rewrite Hb in Hd. unfold py_truediv in Hd. rewrite Hx in Hd; simpl in Hd.
    assert (Hz : (fps =? 0)%float = false).
    { rewrite FloatAxioms.eqb_spec, Prim2SF_zero. rewrite FloatAxioms.leb_spec, Prim2SF_zero in Hfps.
      unfold SFeqb, SFleb in *.
      destruct (SFcompare (Prim2SF fps) (S754_zero false)) as [[ | | ] |]; congruence. }
    rewrite Hz in Hd. rewrite Hrel in Hd; simpl in Hd.
    destruct (0 <? x / fps)%float; congruence.
Qed.

(** C7 as it is worded does not hold: with an infinite frame rate none
    of the listed conditions holds and nothing raises, yet the quotient
    is 0 and the probe returns 0, not a strictly positive value. *)
Lemma get_video_duration_not_always_positive :
  ~ (forall (cv : cv2) (video_path : string) cap fps raw n x,
        cv video_path = Ret cap -> isOpened cap = Ret true ->
        get_CAP_PROP_FPS cap = Ret fps -> get_CAP_PROP_FRAME_COUNT cap = Ret raw ->
        py_int raw = Ret n -> release cap = Ret tt ->
        (fps <=? 0)%float = false -> (0 < n)%Z -> py_float n = Ret x ->
        (forall e, get_video_duration_try cv video_path <> Raise e) ->
        exists d, get_video_duration cv video_path = Ret d /\
                  d = (x / fps)%float /\ (0 <? d)%float = true).
Proof.
  intros H.
  destruct (H (fun _ => clip infinity 100) "v.mp4"%string
              (capture_of true infinity 100)
              infinity 100%float 100%Z 100%float)
    as [d [Hd [Hq Hpos]]]; try reflexivity.
  - intros e. vm_compute. discriminate.
  - vm_compute in Hd. injection Hd as <-. vm_compute in Hpos. discriminate.
Qed.

(** C7 on a clip of 250 frames at 25 frames per second: 10 seconds. *)
Lemma get_video_duration_spec_witness :
  get_video_duration demo_cv2 "o10.mp4" = Ret 10%float.
Proof.
  destruct (get_video_duration_spec demo_cv2 "o10.mp4")
    as [d [Hd [_ [_ [_ [_ Hq]]]]]].
  rewrite Hd. f_equal.
  apply (Hq (capture_of true 25 250)
            25%float 250%float 250%Z 250%float); try reflexivity.
Defined.

(** ** PairSelector *)

Lemma probed_duration_cases (cv : cv2) (p : string) :
  get_video_duration cv p = Ret (probed_duration cv p) /\
  (probed_duration cv p = 0%float \/ (0 <? probed_duration cv p)%float = true).
Proof.
  unfold probed_duration.
  destruct (get_video_duration_cases cv p) as [H | [d [H Hd]]]; rewrite H; auto.
Qed.

(** The loop appends, in collection order, the overlays whose probed
    duration lies in the window. *)
Lemma suitable_loop_filter (cv : cv2) (m : float) (paths acc : list string) :
  (0 <? m)%float = true ->
  suitable_loop cv m paths acc =
    Ret (acc ++ List.filter (fun p => in_window m (probed_duration cv p)) paths).
Proof.
  intros Hm. revert acc.
  induction paths as [| p rest IH]; intros acc; simpl.
  - now rewrite app_nil_r.
  - destruct (probed_duration_cases cv p) as [Hp [Hz | Hpos]]; rewrite Hp; simpl.
    + rewrite Hz, float_zero_le0, (in_window_zero m Hm). apply IH.
    + rewrite (float_pos_not_le0 _ Hpos).
      destruct (in_window m (probed_duration cv p)).
      * rewrite IH, <- app_assoc. reflexivity.
      * apply IH.
Qed.

Lemma get_suitable_overlay_videos_total (cv : cv2) (overlays : list string) (main : string) :
  exists suitable, get_suitable_overlay_videos cv overlays main = Ret suitable.
Proof.
  unfold get_suitable_overlay_videos, try_except.
  match goal with |- exists _, match ?b with _ => _ end = _ => destruct b end; eauto.
Qed.

(** C1: for a main asset probed at [m > 0], the suitable list holds
    exactly the overlays of the collection whose probed duration [d]
    satisfies [m <= d <= m * 3.0] (both ends included, binary64 arithmetic
    as in the code), in collection order; with a 10 s main asset and
    overlays of 5, 10, 30 and 31 s the result is the 10 s and the 30 s
    overlay. *)
Theorem get_suitable_overlay_videos_window :
  (forall (cv : cv2) (overlays : list string) (main : string) (m : float),
      get_video_duration cv main = Ret m -> (0 <? m)%float = true ->
      exists suitable,
        get_suitable_overlay_videos cv overlays main = Ret suitable /\
        suitable = List.filter (fun p => in_window m (probed_duration cv p)) overlays /\
        forall p, In p suitable <->
                  In p overlays /\
                  exists d, get_video_duration cv p = Ret d /\
                            (m <=? d)%float = true /\ (d <=? m * 3)%float = true) /\
  (get_video_duration demo_cv2 "main10.mp4" = Ret 10%float /\
   List.map (get_video_duration demo_cv2) ["o5.mp4"; "o10.mp4"; "o30.mp4"; "o31.mp4"]
     = [Ret 5%float; Ret 10%float; Ret 30%float; Ret 31%float] /\
   get_suitable_overlay_videos demo_cv2 ["o5.mp4"; "o10.mp4"; "o30.mp4"; "o31.mp4"] "main10.mp4"
     = Ret ["o10.mp4"; "o30.mp4"]).
Proof.
  split; [| repeat split; vm_compute; reflexivity].
  intros cv overlays main m Hmain Hm.
  exists (List.filter (fun p => in_window m (probed_duration cv p)) overlays).
  split; [| split; [reflexivity |]].
  - unfold get_suitable_overlay_videos. rewrite Hmain. simpl.
    rewrite (float_pos_not_le0 m Hm), (suitable_loop_filter cv m overlays [] Hm).
    reflexivity.
  - intros p. rewrite filter_In. unfold in_window.
    destruct (probed_duration_cases cv p) as [Hp _].
    split.
    + intros [Hin Hw]. apply andb_true_iff in Hw. split; [exact Hin |].
      exists (probed_duration cv p). tauto.
    + intros [Hin [d [Hd [H1 H2]]]]. split; [exact Hin |].
      rewrite Hp in Hd. injection Hd as <-. now rewrite H1, H2.
Qed.

(** C1 on the demo library: 9.999 s is below the window of a 10 s main
    asset, 30 s is its upper end. *)
Lemma get_suitable_overlay_videos_window_witness :
  exists suitable,
    get_suitable_overlay_videos demo_cv2 ["o9999.mp4"; "o30.mp4"] "main10.mp4" = Ret suitable /\
    (In "o30.mp4"%string suitable /\ ~ In "o9999.mp4"%string suitable).
Proof.
  destruct (proj1 get_suitable_overlay_videos_window demo_cv2
              ["o9999.mp4"; "o30.mp4"]%string "main10.mp4"%string 10%float)
    as [suitable [Hs [Hf _]]]; [reflexivity | reflexivity |].
  exists suitable. split; [exact Hs |].
  rewrite Hf. vm_compute. split; [tauto | intros [H | []]; discriminate H].
Defined.

Lemma random_choice_lookup {A} (randbelow : nat -> nat) (seq : list A) :
  randbelow (length seq) < length seq ->
  exists x, seq !! randbelow (length seq) = Some x /\ random_choice randbelow seq = Ret x.
Proof.
  intros Hlt. destruct (lookup_lt_is_Some_2 seq _ Hlt) as [x Hx].
  exists x. split; [exact Hx |].
  unfold random_choice. destruct seq; [simpl in Hlt; lia |]. now rewrite Hx.
Qed.

(** C8: with a random source that answers within range, the selection
    never raises; it is [None] exactly when the suitable list is empty;
    otherwise it is the member of the suitable list at the drawn index.
    As the draw runs over its [length suitable] equally likely values the
    results enumerate the suitable list, each position once: the choice
    is uniform over the suitable overlays. *)
Theorem select_random_overlay_video_spec (cv : cv2) (randbelow : nat -> nat)
    (overlays : list string) (main : string) :
  (forall n, 0 < n -> randbelow n < n) ->
  exists suitable r,
    get_suitable_overlay_videos cv overlays main = Ret suitable /\
    select_random_overlay_video cv randbelow overlays main = Ret r /\
    (r = None <-> suitable = []) /\
    (forall p, r = Some p -> In p suitable) /\
    (suitable <> [] -> r = suitable !! randbelow (length suitable)) /\
    (fun k => select_random_overlay_video cv (fun _ => k) overlays main)
      <$> seq 0 (length suitable)
      = (fun p => Ret (Some p)) <$> suitable.
Proof.
  intros Hrng.
  destruct (get_suitable_overlay_videos_total cv overlays main) as [suitable Hs].
  exists suitable.
  assert (Huni : (fun k => select_random_overlay_video cv (fun _ => k) overlays main)
                   <$> seq 0 (length suitable)
                 = (fun p => Ret (Some p)) <$> suitable).
  { apply list_eq. intros i. rewrite !list_lookup_fmap.
    destruct (Nat.lt_ge_cases i (length suitable)) as [Hi | Hi].
    - rewrite (lookup_seq_lt _ _ _ Hi). simpl.
      destruct (random_choice_lookup (fun _ => i) suitable Hi) as [x [Hx Hc]].
      rewrite Hx. simpl. f_equal.
      unfold select_random_overlay_video. rewrite Hs. simpl.
      destruct suitable; [simpl in Hi; lia |]. rewrite Hc. reflexivity.
    - rewrite (lookup_seq_ge _ _ _ Hi), (lookup_ge_None_2 _ _ Hi). reflexivity. }
  destruct suitable as [| p0 rest] eqn:Hl.
  - exists None. split; [exact Hs |]. split.
    { unfold select_random_overlay_video. now rewrite Hs. }
    split; [split; congruence |]. split; [congruence |]. split; [congruence | exact Huni].
  - destruct (random_choice_lookup randbelow (p0 :: rest)) as [x [Hx Hc]].
    { apply Hrng. simpl. lia. }
    exists (Some x). split; [exact Hs |]. split.
    { unfold select_random_overlay_video. rewrite Hs.
      unfold mbind, res_bind. now rewrite Hc. }
    split; [split; congruence |]. split; [| split].
    + intros p Hp. injection Hp as <-.
      apply (proj1 (list_elem_of_In (p0 :: rest) x)), list_elem_of_lookup. eauto.
    + intros _. symmetry. exact Hx.
    + exact Huni.
Qed.

(** C8 with a source that always draws the last index: the last
    suitable overlay is selected. *)
Lemma select_random_overlay_video_spec_witness :
  select_random_overlay_video demo_cv2 (fun n => Nat.pred n)
    ["o5.mp4"; "o10.mp4"; "o30.mp4"; "o31.mp4"] "main10.mp4" = Ret (Some "o30.mp4"%string).
Proof.
  destruct (select_random_overlay_video_spec demo_cv2 (fun n => Nat.pred n)
              ["o5.mp4"; "o10.mp4"; "o30.mp4"; "o31.mp4"]%string "main10.mp4"%string)
    as [suitable [r [Hs [Hr [_ [_ [Hidx _]]]]]]].
  - intros n Hn. lia.
  - rewrite Hr. f_equal.
    vm_compute in Hs. injection Hs as <-. apply Hidx. discriminate.
Defined.

(** ** File-name sanitation *)

Lemma clean_char_idem (c : ascii) : clean_char (clean_char c) = clean_char c.
Proof.
  unfold clean_char. destruct (illegal_char c) eqn:Hc; [reflexivity | now rewrite Hc].
Qed.

Lemma map_fixed {A} (g : A -> A) (l : list A) :
  Forall (fun c => g c = c) l -> List.map g l = l.
Proof. induction 1 as [| c l Hc _ IH]; simpl; congruence. Qed.

Lemma re_sub_illegal_fixed (l : chars) : Forall (fun c => clean_char c = c) (re_sub_illegal l).
Proof.
  unfold re_sub_illegal. induction l as [| c l IH]; simpl; constructor; auto.
  apply clean_char_idem.
Qed.

Lemma slice_app {A} (p : list A) (i : Z) : slice_to p i ++ slice_from p i = p.
Proof. unfold slice_to, slice_from. destruct (i <? 0)%Z; apply take_drop. Qed.

(** The two parts [splitext] returns always concatenate to the name. *)
Lemma _splitext_app (p : chars) sep altsep extsep :
  fst (_splitext p sep altsep extsep) ++ snd (_splitext p sep altsep extsep) = p.
Proof.
  unfold _splitext.
  repeat match goal with |- context [if ?b then _ else _] => destruct b end;
    simpl; auto using slice_app, app_nil_r.
Qed.

(** Sanitation is stable on every name whose extension, as [splitext]
    reads it after the substitution, has at most 255 characters. *)
Lemma sanitize_filename_chars_idem_short_ext (filename : chars) :
  length (snd (splitext (re_sub_illegal filename))) <= 255 ->
  sanitize_filename_chars (sanitize_filename_chars filename) = sanitize_filename_chars filename.
Proof.
  intros Hext.
  assert (Hstable : forall r, Forall (fun c => clean_char c = c) r -> length r <= 255 ->
                              sanitize_filename_chars r = r).
  { intros r Hr Hlen. unfold sanitize_filename_chars.
    unfold re_sub_illegal. rewrite (map_fixed _ _ Hr).
    destruct (splitext r) as [b e].
    destruct (Z.ltb_spec 255 (Z.of_nat (length r))); [lia | reflexivity]. }
  pose proof (re_sub_illegal_fixed filename) as Hfix.
  unfold sanitize_filename_chars at 2 3.
  pose proof (_splitext_app (re_sub_illegal filename) "092"%char (Some "/"%char) "."%char) as Happ.
  fold (splitext (re_sub_illegal filename)) in Happ.
  destruct (splitext (re_sub_illegal filename)) as [base ext]; simpl in *.
  destruct (Z.ltb_spec 255 (Z.of_nat (length (re_sub_illegal filename)))) as [Hlong | Hshort].
  - rewrite <- Happ in Hfix, Hlong. apply Forall_app in Hfix as [Hb He].
    rewrite length_app in Hlong.
    apply Hstable.
    + apply Forall_app. split; [| exact He].
      unfold slice_to. destruct (_ <? 0)%Z; now apply Forall_take.
    + rewrite length_app. unfold slice_to.
      destruct (Z.ltb_spec (255 - Z.of_nat (length ext)) 0); [lia |].
      rewrite length_take. lia.
  - apply Hstable; [exact Hfix | lia].
Qed.

(** C9, at the input where the code departs from it: the sanitized form
    of [a.xxx...x] (300 times [x]) has 301 characters, and sanitizing it
    again cuts it to 255, so the second pass does not return the
    identical string. *)
Theorem sanitize_filename_long_extension :
  String.length (sanitize_filename long_extension_name) = 301 /\
  String.length (sanitize_filename (sanitize_filename long_extension_name)) = 255 /\
  sanitize_filename (sanitize_filename long_extension_name)
    <> sanitize_filename long_extension_name.
Proof.
  split; [vm_compute; reflexivity |]. split; [vm_compute; reflexivity |].
  intros H. apply (f_equal String.length) in H. vm_compute in H. discriminate.
Qed.

(** On every other kind of name the property holds: sanitation is
    idempotent whenever the extension has at most 255 characters. *)
Lemma sanitize_filename_idem_short_ext (filename : string) :
  length (snd (splitext (re_sub_illegal (list_ascii_of_string filename)))) <= 255 ->
  sanitize_filename (sanitize_filename filename) = sanitize_filename filename.
Proof.
  intros H. unfold sanitize_filename.
  rewrite list_ascii_of_string_of_list_ascii.
  now rewrite sanitize_filename_chars_idem_short_ext.
Qed.

(** The names the job builds are of the other kind: they end in [.mp4]
    and start with a letter, so [splitext] reads [.mp4] as their
    extension and sanitation is idempotent on them. *)
Lemma list_ascii_of_string_app (a b : string) :
  list_ascii_of_string (a +:+ b) = list_ascii_of_string a ++ list_ascii_of_string b.
Proof. induction a as [| c a IH]; simpl; [reflexivity | now rewrite IH]. Qed.

Lemma rfind_absent (c : ascii) (p : chars) :
  Forall (fun x => x <> c) p -> rfind c p = (-1)%Z.
Proof.
  induction 1 as [| x p Hx _ IH]; simpl; [reflexivity |].
  rewrite IH. simpl. destruct (Ascii.eqb_spec x c); [contradiction | reflexivity].
Qed.

Lemma rfind_app_last (c : ascii) (l t : chars) :
  Forall (fun x => x <> c) t -> rfind c (l ++ c :: t) = Z.of_nat (length l).
Proof.
  intros Ht. induction l as [| x l IH]; simpl.
  - rewrite (rfind_absent c t Ht). simpl. now rewrite Ascii.eqb_refl.
  - rewrite IH. destruct (Z.leb_spec 0 (Z.of_nat (length l))); lia.
Qed.

Lemma clean_char_not_separator (c : ascii) :
  clean_char c <> "/"%char /\ clean_char c <> "092"%char.
Proof.
  unfold clean_char. destruct (illegal_char c) eqn:Hc.
  - split; discriminate.
  - split; intros ->; vm_compute in Hc; discriminate.
Qed.

Lemma splitext_mp4 (first : ascii) (rest : chars) :
  clean_char first <> "."%char ->
  splitext (re_sub_illegal ((first :: rest) ++ list_ascii_of_string ".mp4"))
    = (re_sub_illegal (first :: rest), list_ascii_of_string ".mp4").
Proof.
  intros Hfirst. unfold re_sub_illegal. rewrite map_app.
  set (l' := List.map clean_char (first :: rest)).
  change (List.map clean_char (list_ascii_of_string ".mp4"))
    with ("."%char :: list_ascii_of_string "mp4").
  assert (Hsep : forall c, (c = "/"%char \/ c = "092"%char) ->
                           rfind c (l' ++ "."%char :: list_ascii_of_string "mp4") = (-1)%Z).
  { intros c Hc. apply rfind_absent. apply Forall_app. split.
    - unfold l'. apply Forall_forall. intros x Hx.
      apply list_elem_of_In, in_map_iff in Hx as (y & <- & _).
      destruct (clean_char_not_separator y). destruct Hc as [-> | ->]; assumption.
    - destruct Hc as [-> | ->]; repeat constructor; discriminate. }
  assert (Hdot : rfind "."%char (l' ++ "."%char :: list_ascii_of_string "mp4")
                 = Z.of_nat (length l')).
  { apply rfind_app_last. repeat constructor; discriminate. }
  unfold splitext, _splitext. rewrite !Hsep, Hdot by auto. simpl Z.max.
  destruct (Z.ltb_spec (-1) (Z.of_nat (length l'))); [| lia].
  unfold slice_to, slice_from.
  destruct (Z.ltb_spec (Z.of_nat (length l')) 0); [lia |].
  rewrite Nat2Z.id, take_app_length, drop_app_length. simpl.
  destruct (Ascii.eqb_spec (clean_char first) "."%char); [contradiction | reflexivity].
Qed.

Lemma sanitize_filename_idem_output_name (main_video_name overlay_name : string) :
  let output_name := "output_" +:+ main_video_name +:+ "_C_" +:+ overlay_name +:+ ".mp4" in
  sanitize_filename (sanitize_filename output_name) = sanitize_filename output_name.
Proof.
  intros output_name. apply sanitize_filename_idem_short_ext.
  unfold output_name.
  replace (list_ascii_of_string
             ("output_" +:+ main_video_name +:+ "_C_" +:+ overlay_name +:+ ".mp4"))
    with (("o"%char :: list_ascii_of_string
                         ("utput_" +:+ main_video_name +:+ "_C_" +:+ overlay_name))
            ++ list_ascii_of_string ".mp4").
  - rewrite splitext_mp4 by discriminate. simpl. lia.
  - rewrite !list_ascii_of_string_app. simpl. rewrite <- !app_assoc. reflexivity.
Qed.

(** ** Collections: removal of the selected rows *)

Lemma keep_unselected_below {A} (sel : list nat) (b : nat) (l : list A) :
  Forall (fun i => i < b) sel -> keep_unselected sel b l = l.
Proof.
  revert b. induction l as [| x l IH]; intros b Hsel; simpl; [reflexivity |].
  rewrite bool_decide_eq_false_2.
  - f_equal. apply IH. eapply Forall_impl; [exact Hsel | simpl; lia].
  - intros Hin. rewrite Forall_forall in Hsel. specialize (Hsel b Hin). lia.
Qed.

(** Deleting row [b + k] and then dropping smaller selected rows is the
    same as dropping all of them at once. *)
Lemma keep_unselected_delete {A} (sel : list nat) (b k : nat) (l : list A) :
  Forall (fun j => j < b + k) sel ->
  keep_unselected sel b (delete k l) = keep_unselected ((b + k) :: sel) b l.
Proof.
  revert b k. induction l as [| x l IH]; intros b k Hsel; [reflexivity |].
  destruct k as [| k]; simpl.
  - rewrite Nat.add_0_r in *. rewrite bool_decide_eq_true_2 by set_solver.
    rewrite keep_unselected_below by exact Hsel.
    symmetry. apply keep_unselected_below.
    constructor; [lia |]. eapply Forall_impl; [exact Hsel | simpl; lia].
  - assert (Hiff : bool_decide (b ∈ sel) = bool_decide (b ∈ (b + S k) :: sel)).
    { apply bool_decide_ext. rewrite elem_of_cons. split; [tauto | intros [? | ?]; [lia | done]]. }
    rewrite <- Hiff. replace (b + S k) with (S b + k) by lia.
    rewrite (IH (S b) k) by (eapply Forall_impl; [exact Hsel | simpl; lia]).
    reflexivity.
Qed.

Lemma keep_unselected_ext {A} (s1 s2 : list nat) (b : nat) (l : list A) :
  (forall i, i ∈ s1 <-> i ∈ s2) -> keep_unselected s1 b l = keep_unselected s2 b l.
Proof.
  intros H. revert b. induction l as [| x l IH]; intros b; simpl; [reflexivity |].
  rewrite (bool_decide_ext _ _ (H b)), !IH. reflexivity.
Qed.

Lemma keep_unselected_elem {A} (sel : list nat) (b : nat) (l : list A) (x : A) :
  x ∈ keep_unselected sel b l -> exists k, l !! k = Some x /\ (b + k) ∉ sel.
Proof.
  revert b. induction l as [| y l IH]; intros b; simpl; [intros H; inversion H |].
  destruct (bool_decide (b ∈ sel)) eqn:Hb.
  - intros H. destruct (IH _ H) as [k [Hk Hn]]. exists (S k).
    split; [exact Hk |]. now replace (b + S k) with (S b + k) by lia.
  - rewrite elem_of_cons. intros [-> | H].
    + exists 0. split; [reflexivity |]. rewrite Nat.add_0_r.
      now apply bool_decide_eq_false in Hb.
    + destruct (IH _ H) as [k [Hk Hn]]. exists (S k).
      split; [exact Hk |]. now replace (b + S k) with (S b + k) by lia.
Qed.

Lemma elem_of_rev {A} (x : A) (l : list A) : x ∈ rev l <-> x ∈ l.
Proof. rewrite !list_elem_of_In. symmetry. apply in_rev. Qed.

Lemma StronglySorted_rev_lt (sel : list nat) :
  StronglySorted lt sel -> StronglySorted (flip lt) (rev sel).
Proof.
  induction 1 as [| i sel Hs IH Hall]; simpl; [constructor |].
  apply StronglySorted_app. split; [| split; [exact IH | repeat constructor]].
  intros x1 x2 Hx1 Hx2. apply list_elem_of_singleton in Hx2 as ->.
  apply (proj1 (elem_of_rev _ _)) in Hx1. rewrite Forall_forall in Hall.
  apply Hall. exact Hx1.
Qed.

(** The main-group loop, run over decreasing row numbers within range. *)
Lemma remove_selected_video_loop_spec (ds : list nat) (l : list string) :
  StronglySorted (flip lt) ds -> Forall (fun i => i < length l) ds ->
  remove_selected_video_loop ds l = (keep_unselected ds 0 l, Ret tt).
Proof.
  intros Hs. revert l. induction Hs as [| i ds Hs IH Hall]; intros l Hb; simpl.
  - now rewrite keep_unselected_below.
  - apply Forall_cons in Hb as [Hi Hb].
    rewrite decide_True by exact Hi.
    rewrite IH.
    + now rewrite (keep_unselected_delete ds 0 i l).
    + rewrite length_delete by now apply lookup_lt_is_Some_2.
      eapply Forall_impl; [exact Hall | unfold flip; simpl; lia].
Qed.

(** The overlay-group loop: the same list, and a duration index that
    has lost the keys of the removed rows and nothing else. *)
Lemma remove_selected_overlay_loop_spec (ds : list nat) (l : list string)
    (d : gmap string float) :
  StronglySorted (flip lt) ds -> Forall (fun i => i < length l) ds ->
  exists d',
    remove_selected_overlay_loop ds l d = (keep_unselected ds 0 l, d', Ret tt) /\
    (forall k, d !! k = None -> d' !! k = None) /\
    (forall i path, i ∈ ds -> l !! i = Some path -> d' !! path = None) /\
    (forall path, (forall i, i ∈ ds -> l !! i <> Some path) -> d' !! path = d !! path).
Proof.
  intros Hs. revert l d. induction Hs as [| i ds Hs IH Hall]; intros l d Hb; simpl.
  - exists d. rewrite keep_unselected_below by constructor.
    split; [reflexivity |]. split; [auto |]. split; [| auto].
    intros i path Hi. inversion Hi.
  - apply Forall_cons in Hb as [Hi Hb].
    destruct (lookup_lt_is_Some_2 l i Hi) as [p Hp]. rewrite Hp.
    set (d1 := if bool_decide (p ∈ dom d) then delete p d else d).
    assert (Hd1p : d1 !! p = None).
    { unfold d1. destruct (bool_decide (p ∈ dom d)) eqn:Hdom.
      - apply lookup_delete_eq.
      - apply bool_decide_eq_false in Hdom. now apply not_elem_of_dom in Hdom. }
    assert (Hd1o : forall k, k <> p -> d1 !! k = d !! k).
    { intros k Hk. unfold d1. destruct (bool_decide (p ∈ dom d)); [| reflexivity].
      now apply lookup_delete_ne. }
    assert (Hlt : Forall (fun j => j < i) ds).
    { eapply Forall_impl; [exact Hall | unfold flip; simpl; lia]. }
    destruct (IH (delete i l) d1) as [d' [Hrun [Hmono [Hgone Hkept]]]].
    { rewrite length_delete by eauto.
      eapply Forall_impl; [exact Hlt | simpl; lia]. }
    exists d'. rewrite Hrun, (keep_unselected_delete ds 0 i l) by exact Hlt.
    split; [reflexivity |]. rewrite Forall_forall in Hlt. repeat split.
    + intros k Hk. apply Hmono. destruct (decide (k = p)) as [-> | Hne]; [exact Hd1p |].
      now rewrite Hd1o.
    + intros j path Hj Hpath. apply elem_of_cons in Hj as [-> | Hj].
      * rewrite Hp in Hpath. injection Hpath as <-. now apply Hmono.
      * apply (Hgone j); [exact Hj |].
        now rewrite list_lookup_delete_lt by (apply Hlt; exact Hj).
    + intros path Hpath.
      assert (Hne : path <> p).
      { intros ->. apply (Hpath i); [left | exact Hp]. }
      rewrite Hkept; [now apply Hd1o |].
      intros j Hj. rewrite list_lookup_delete_lt by (apply Hlt; exact Hj).
      apply Hpath. now right.
Qed.

Lemma keep_unselected_removed {A} (sel : list nat) (l : list A) (i : nat) (x : A) :
  NoDup l -> i ∈ sel -> l !! i = Some x -> x ∉ keep_unselected sel 0 l.
Proof.
  intros Hnd Hi Hx Hin.
  destruct (keep_unselected_elem sel 0 l x Hin) as [k [Hk Hn]].
  rewrite (NoDup_lookup l i k x Hnd Hx Hk) in Hi. now apply Hn.
Qed.

(** C10: removing selected overlay rows drops each removed path from the
    overlay list and from the overlay duration index; removing selected
    main rows drops each removed path from the main list only and leaves
    the main duration index as it was, so that index can hold keys of
    paths that are no longer in the collection.  The selection is the
    list-box selection: increasing row numbers within the list. *)
Theorem remove_selected_frame :
  (forall (selected : list nat) (a : App),
      StronglySorted lt selected ->
      Forall (fun i => i < length (overlay_video_paths a)) selected ->
      exists a',
        remove_selected_overlay selected a = (a', Ret tt) /\
        overlay_video_paths a' = keep_unselected selected 0 (overlay_video_paths a) /\
        (forall i path, i ∈ selected -> overlay_video_paths a !! i = Some path ->
                        overlay_video_durations a' !! path = None) /\
        (forall path, (forall i, i ∈ selected -> overlay_video_paths a !! i <> Some path) ->
                      overlay_video_durations a' !! path = overlay_video_durations a !! path) /\
        (NoDup (overlay_video_paths a) ->
         forall i path, i ∈ selected -> overlay_video_paths a !! i = Some path ->
                        path ∉ overlay_video_paths a') /\
        main_video_paths a' = main_video_paths a /\
        main_video_durations a' = main_video_durations a) /\
  (forall (selected : list nat) (a : App),
      StronglySorted lt selected ->
      Forall (fun i => i < length (main_video_paths a)) selected ->
      exists a',
        remove_selected_video selected a = (a', Ret tt) /\
        main_video_paths a' = keep_unselected selected 0 (main_video_paths a) /\
        (NoDup (main_video_paths a) ->
         forall i path, i ∈ selected -> main_video_paths a !! i = Some path ->
                        path ∉ main_video_paths a') /\
        main_video_durations a' = main_video_durations a /\
        overlay_video_paths a' = overlay_video_paths a /\
        overlay_video_durations a' = overlay_video_durations a) /\
  (main_video_paths one_main_App = ["main10.mp4"] /\
   main_video_paths (fst (remove_selected_video [0] one_main_App)) = [] /\
   main_video_durations (fst (remove_selected_video [0] one_main_App)) !! "main10.mp4"
     = Some 10%float).
Proof.
  split; [| split].
  - intros selected a Hs Hb.
    assert (Hrev : forall i, i ∈ rev selected <-> i ∈ selected) by (intros; apply elem_of_rev).
    destruct (remove_selected_overlay_loop_spec (rev selected) (overlay_video_paths a)
                (overlay_video_durations a)) as [d' [Hrun [_ [Hgone Hkept]]]].
    { now apply StronglySorted_rev_lt. }
    { rewrite Forall_forall in *. intros i Hi. apply Hb, Hrev, Hi. }
    rewrite (keep_unselected_ext _ _ 0 _ Hrev) in Hrun.
    destruct selected as [| i0 rest] eqn:Hsel.
    + exists a. split; [reflexivity |]. simpl.
      split; [now rewrite keep_unselected_below |].
      split; [intros i path Hi; inversion Hi |].
      split; [reflexivity |]. split; [| split; reflexivity].
      intros _ i path Hi. inversion Hi.
    + rewrite <- Hsel in *.
      exists (set_overlay_videos (keep_unselected selected 0 (overlay_video_paths a)) d' a).
      split.
      { unfold remove_selected_overlay. rewrite Hsel, <- Hsel, Hrun. reflexivity. }
      simpl. split; [reflexivity |].
      split; [intros i path Hi; apply Hgone, Hrev, Hi |].
      split; [intros path Hpath; apply Hkept; intros i Hi; apply Hpath, Hrev, Hi |].
      split; [| split; reflexivity].
      intros Hnd i path Hi Hp. now apply (keep_unselected_removed selected _ i).
  - intros selected a Hs Hb.
    assert (Hrev : forall i, i ∈ rev selected <-> i ∈ selected) by (intros; apply elem_of_rev).
    exists (set_main_video_paths (keep_unselected selected 0 (main_video_paths a)) a).
    split.
    { unfold remove_selected_video.
      rewrite remove_selected_video_loop_spec.
      - now rewrite (keep_unselected_ext _ _ 0 _ Hrev).
      - now apply StronglySorted_rev_lt.
      - rewrite Forall_forall in *. intros i Hi. apply Hb, Hrev, Hi. }
    simpl. split; [reflexivity |]. split; [| repeat split].
    intros Hnd i path Hi Hp. now apply (keep_unselected_removed selected _ i).
  - repeat split; vm_compute; reflexivity.
Qed.

(** C10 on the application with one main asset: removing row 0 empties
    the list and leaves the duration index alone. *)
Lemma remove_selected_frame_witness :
  exists a', remove_selected_video [0] one_main_App = (a', Ret tt) /\
             main_video_paths a' = [] /\
             main_video_durations a' = main_video_durations one_main_App.
Proof.
  destruct (proj1 (proj2 remove_selected_frame) [0] one_main_App)
    as [a' [Hrun [Hpaths [_ [Hd _]]]]].
  - repeat constructor.
  - repeat constructor.
  - exists a'. split; [exact Hrun |]. split; [| exact Hd].
    rewrite Hpaths. reflexivity.
Defined.

(** ** Encoder negotiation *)

(** Closes one case of the negotiation: every clause is decided by the
    equations of the case. *)
Ltac negotiation_case :=
  repeat split; simpl; intros;
  repeat match goal with H : exists _, _ |- _ => destruct H end;
  rewrite <- ?app_assoc; simpl;
  try reflexivity; try congruence; try discriminate.

(** C4: the negotiation always returns and never raises.  It runs the
    listing, then the NVENC test encode if NVENC is listed, then, unless
    NVENC was chosen or its test raised, the AMF test encode if AMF is
    listed.  NVIDIA is the result exactly when NVENC is listed and its
    one-second test encode exits with code 0; AMD only when AMF is listed
    and its test exits with code 0 (and NVIDIA was not chosen).  When no
    family passes both checks, and when any of the calls raises, the
    result is [None], for which the job uses the software encoder. *)
Theorem check_gpu_support_spec (env : Env) (w : World) :
  let ffmpeg := ffmpeg_path (self w) in
  let nvenc := "h264_nvenc"%string in
  let amf := "h264_amf"%string in
  let amf_tested :=
    listed env ffmpeg amf &&
    negb (listed env ffmpeg nvenc && (passes env ffmpeg nvenc || test_raises env ffmpeg nvenc)) in
  exists r w',
    check_gpu_support env w = Some (Ret r, w') /\
    self w' = self w /\ files w' = files w /\
    (* the checks that were run, in order *)
    spawned w' = spawned w ++
                 encoders_cmd ffmpeg ::
                 (if listed env ffmpeg nvenc then [test_cmd ffmpeg nvenc] else []) ++
                 (if amf_tested then [test_cmd ffmpeg amf] else []) /\
    (* the family chosen *)
    (r = Some NVIDIA <-> listed env ffmpeg nvenc && passes env ffmpeg nvenc = true) /\
    (r = Some AMD <-> amf_tested && passes env ffmpeg amf = true) /\
    (r = Some AMD -> listed env ffmpeg amf = true /\ passes env ffmpeg amf = true /\
                     r <> Some NVIDIA) /\
    (* fallback *)
    (listed env ffmpeg nvenc && passes env ffmpeg nvenc = false ->
     listed env ffmpeg amf && passes env ffmpeg amf = false -> r = None) /\
    ((exists e, subprocess_run env (encoders_cmd ffmpeg) = Raise e) -> r = None) /\
    (listed env ffmpeg nvenc = true -> test_raises env ffmpeg nvenc = true -> r = None) /\
    (amf_tested = true -> test_raises env ffmpeg amf = true -> r = None) /\
    (r = None -> (encoder_profile r).1.1 = "libx264"%string).
Proof.
  intros ffmpeg nvenc amf amf_tested. subst amf_tested.
  unfold check_gpu_support, try_exceptM, run, listed, passes, test_raises.
  unfold mbind, M_bind, mret, M_ret, get, modify, lift. simpl.
  fold ffmpeg. fold nvenc. fold amf.
  destruct (subprocess_run env (encoders_cmd ffmpeg)) as [out | e0] eqn:E0; simpl;
    [| exists (@None gpu); eexists; negotiation_case].
  destruct (contains nvenc (stdout out)) eqn:C1; simpl.
  - destruct (subprocess_run env (test_cmd ffmpeg nvenc)) as [t1 | e1] eqn:E1; simpl;
      [| exists (@None gpu); eexists; rewrite ?andb_false_r; negotiation_case].
    destruct (returncode t1 =? 0)%Z eqn:R1; simpl;
      [exists (Some NVIDIA); eexists; rewrite ?andb_false_r; negotiation_case |].
    destruct (contains amf (stdout out)) eqn:C2; simpl;
      [| exists (@None gpu); eexists; negotiation_case].
    destruct (subprocess_run env (test_cmd ffmpeg amf)) as [t2 | e2] eqn:E2; simpl;
      [| exists (@None gpu); eexists; negotiation_case].
    destruct (returncode t2 =? 0)%Z eqn:R2; simpl;
      [exists (Some AMD) | exists (@None gpu)]; eexists; negotiation_case.
  - destruct (contains amf (stdout out)) eqn:C2; simpl;
      [| exists (@None gpu); eexists; negotiation_case].
    destruct (subprocess_run env (test_cmd ffmpeg amf)) as [t2 | e2] eqn:E2; simpl;
      [| exists (@None gpu); eexists; negotiation_case].
    destruct (returncode t2 =? 0)%Z eqn:R2; simpl;
      [exists (Some AMD) | exists (@None gpu)]; eexists; negotiation_case.
Qed.

(** C4 on the demo host: NVENC is tested first and fails, AMF is
    tested next and is chosen. *)
Lemma check_gpu_support_spec_witness :
  exists w', check_gpu_support demo_env demo_world = Some (Ret (Some AMD), w') /\
             spawned w' = [encoders_cmd "ffmpeg"; test_cmd "ffmpeg" "h264_nvenc";
                           test_cmd "ffmpeg" "h264_amf"].
Proof.
  destruct (check_gpu_support_spec demo_env demo_world)
    as [r [w' [Hrun [_ [_ [Htrace [_ [[_ Hamd] _]]]]]]]].
  exists w'. rewrite Hrun, (Hamd eq_refl). split; [reflexivity | exact Htrace].
Defined.

(** ** The transcode job *)

(** Unfolds the plumbing of the state monad. *)
Ltac run_step :=
  unfold mbind, M_bind, mret, M_ret, get, modify, lift, raise; simpl.

Lemma check_gpu_support_frame (env : Env) (w : World) :
  exists r w', check_gpu_support env w = Some (Ret r, w') /\ same_frame w w'.
Proof.
  unfold check_gpu_support, try_exceptM, run, same_frame. run_step.
  repeat match goal with
         | |- context [match subprocess_run env ?c with _ => _ end] =>
             destruct (subprocess_run env c); simpl
         | |- context [if ?b then _ else _] => destruct b; simpl
         end; eauto 10.
Qed.

Lemma get_video_dimensions_frame (env : Env) (video_path : string) (w : World) :
  exists r w', get_video_dimensions env video_path w = Some (Ret r, w') /\ same_frame w w'.
Proof.
  unfold get_video_dimensions, try_exceptM, run, same_frame. run_step.
  destruct (subprocess_run env _) as [out | e]; simpl.
  - destruct (is_blank (stdout out)); simpl.
    + match goal with |- context [match ?x with Ret _ => _ | Raise _ => _ end] =>
        destruct x as [[d |] | e] end; simpl; eauto 10.
    + destruct (parse_dimensions env (stdout out)) as [d | e]; simpl; [eauto 10 |].
      match goal with |- context [match ?x with Ret _ => _ | Raise _ => _ end] =>
        destruct x as [[d |] | e'] end; simpl; eauto 10.
  - match goal with |- context [match ?x with Ret _ => _ | Raise _ => _ end] =>
      destruct x as [[d |] | e'] end; simpl; eauto 10.
Qed.

Ltac prepare_case :=
  try (eexists _, _); repeat split; eauto; try congruence; intros;
  repeat match goal with H : Ret _ = Ret _ |- _ => injection H as <- <- <- end;
  try reflexivity; try congruence.

(** The preparation changes neither the application object nor the
    files nor [process_key]; when it succeeds the job has its key, and
    its local [output_path] is the normalized output path. *)
Lemma prepare_and_spawn_spec (env : Env) (main overlay : string) (w : World) :
  exists r w',
    prepare_and_spawn env main overlay w = Some (r, w') /\
    self w' = self w /\ files w' = files w /\ process_key w' = process_key w /\
    (output_path w' = output_path w \/
     output_path w' = Some (joined_output_path env (self w) main overlay) \/
     output_path w' = Some (normalize_path env (joined_output_path env (self w) main overlay))) /\
    (forall p k o, r = Ret (p, k, o) ->
                   k = job_key env main overlay /\
                   o = normalize_path env (joined_output_path env (self w) main overlay) /\
                   output_path w' = Some o).
Proof.
  unfold prepare_and_spawn. run_step.
  destruct (os_makedirs env _) as [[] | e]; simpl; [| prepare_case].
  destruct (negb _); simpl; [prepare_case |].
  destruct (negb _); simpl; [prepare_case |].
  match goal with |- context [get_video_dimensions env ?p ?w0] =>
    destruct (get_video_dimensions_frame env p w0) as (dims & wd & Hd & Hsd & Hfd & Hod & Hkd) end.
  rewrite Hd. simpl in Hsd, Hfd, Hod, Hkd.
  destruct dims as [[width height] |]; simpl;
    [| eexists _, _; (split; [reflexivity |]); rewrite Hsd, Hfd, Hod, Hkd; prepare_case].
  destruct (_ || _); simpl;
    [eexists _, _; (split; [reflexivity |]); rewrite Hsd, Hfd, Hod, Hkd; prepare_case |].
  destruct (use_gpu (self w)); simpl.
  - destruct (check_gpu_support_frame env wd) as [g [w1 [Hg [Hs [Hf [Ho Hk]]]]]].
    rewrite Hg. simpl in *.
    destruct (subprocess_Popen env _) as [p | e]; simpl;
      eexists _, _; (split; [reflexivity |]);
      rewrite Hs, Hf, Ho, Hk, Hsd, Hfd, Hod, Hkd; prepare_case.
  - destruct (subprocess_Popen env _) as [p | e]; simpl;
      eexists _, _; (split; [reflexivity |]); rewrite Hsd, Hfd, Hod, Hkd; prepare_case.
Qed.

Lemma ui_evolved_refl (w : World) : ui_evolved w w.
Proof. unfold ui_evolved. repeat split; set_solver. Qed.

Lemma ui_evolved_trans (w1 w2 w3 : World) :
  ui_evolved w1 w2 -> ui_evolved w2 w3 -> ui_evolved w1 w3.
Proof.
  unfold ui_evolved. intros (? & ? & ? & ? & ?) (? & ? & ? & ? & ?).
  repeat split; try congruence. set_solver.
Qed.

Lemma apply_ui_evolved (e : ui_event) (w : World) : ui_evolved w (set_self (apply_ui e) w).
Proof.
  unfold ui_evolved. destruct e; simpl; repeat split; try set_solver.
  - unfold stop_processing. destruct (negb _); reflexivity.
  - unfold stop_processing. destruct (negb _); simpl; set_solver.
  - unfold toggle_pause. destruct (negb _); reflexivity.
  - unfold toggle_pause. destruct (negb _); simpl; set_solver.
Qed.

(** The monitor loop always ends (the process has finitely many rounds)
    and never raises. *)
Lemma monitor_spec (process : Popen) (rounds : list tick) (errs : list string) (w : World) :
  exists rc errs' w',
    monitor process rounds errs w = Some (Ret (rc, errs'), w') /\ ui_evolved w w'.
Proof.
  revert errs w. induction rounds as [| t rest IH]; intros errs w; simpl.
  - eexists _, _, _. split; [reflexivity | apply ui_evolved_refl].
  - run_step. pose proof (apply_ui_evolved (ui t) w) as Hui.
    destruct (negb (processing (apply_ui (ui t) (self w)))).
    + destruct (on_terminate process); eexists _, _, _; split; eauto.
    + destruct (paused (apply_ui (ui t) (self w))).
      * destruct (IH errs (set_self (apply_ui (ui t)) w)) as (rc & errs' & w' & Hrun & Hev).
        eexists _, _, _. split; [exact Hrun |]. eapply ui_evolved_trans; eauto.
      * match goal with |- context [monitor process rest ?e ?w0] =>
          destruct (IH e w0) as (rc & errs' & w' & Hrun & Hev) end.
        eexists _, _, _. split; [exact Hrun |]. eapply ui_evolved_trans; eauto.
Qed.

Lemma watch_spec (process : Popen) (w : World) :
  exists r w', watch process w = Some (r, w') /\ ui_evolved w w' /\
    (forall errs, r = Ret errs ->
       exists errs0, monitor process (ticks process) [] w = Some (Ret (Some 0%Z, errs0), w')) /\
    (forall rc errs0 w0, monitor process (ticks process) [] w = Some (Ret (rc, errs0), w0) ->
       w' = w0 /\ (rc = Some 0%Z -> r = Ret errs0)).
Proof.
  unfold watch.
  destruct (monitor_spec process (ticks process) [] w) as (rc & errs & w' & Hrun & Hev).
  unfold mbind, M_bind. rewrite Hrun.
  destruct (bool_decide (rc = Some 0%Z)) eqn:Hrc.
  - apply bool_decide_eq_true in Hrc. subst rc. run_step.
    eexists _, _. split; [reflexivity |]. split; [exact Hev |]. split; [eauto |].
    intros rc errs0 w0 [= <- <- <-]. auto.
  - apply bool_decide_eq_false in Hrc. run_step.
    eexists _, _. split; [reflexivity |]. split; [exact Hev |]. split; [congruence |].
    intros rc' errs0 w0 [= <- <- <-]. split; [reflexivity | congruence].
Qed.

Lemma release_process_spec (process : Popen) (key : string) (w : World) :
  exists w',
    release_process process key w = Some (Ret tt, w') /\
    files w' = writes process (files w) /\
    output_path w' = output_path w /\ process_key w' = process_key w /\
    processing_semaphore (self w') = processing_semaphore (self w) /\
    current_processes (self w') = delete key (current_processes (self w)).
Proof.
  unfold release_process. run_step.
  destruct (bool_decide (key ∈ dom (current_processes (self w)))) eqn:Hk; simpl.
  - eexists. repeat split; reflexivity.
  - eexists. repeat split; try reflexivity. simpl.
    apply bool_decide_eq_false in Hk. apply not_elem_of_dom in Hk.
    symmetry. now apply delete_id.
Qed.

Lemma verify_output_spec (env : Env) (out : string) (w : World) :
  exists r w',
    verify_output env out w = Some (r, w') /\
    self w' = self w /\ output_path w' = output_path w /\ process_key w' = process_key w /\
    match files w !! out with
    | None => r = Raise (Exception "the output file was not generated") /\ files w' = files w
    | Some size =>
        if (size =? 0)%N then
          r = Raise (Exception "the output file has size 0") /\
          files w' = if os_remove_allowed env out then delete out (files w) else files w
        else r = Ret tt /\ files w' = files w
    end.
Proof.
  unfold verify_output, try_exceptM, os_remove, os_path_exists. run_step.
  destruct (files w !! out) as [size |] eqn:Hf; simpl.
  - destruct (size =? 0)%N; simpl.
    + rewrite bool_decide_eq_true_2 by eauto. simpl.
      destruct (os_remove_allowed env out); simpl; eexists _, _;
        (split; [reflexivity |]); repeat split; try reflexivity.
    + eexists _, _; (split; [reflexivity |]); repeat split; try reflexivity.
  - eexists _, _; (split; [reflexivity |]); repeat split; try reflexivity.
Qed.

Lemma discard_output_spec (env : Env) (w : World) :
  exists w',
    discard_output env w = Some (Ret tt, w') /\
    self w' = self w /\ output_path w' = output_path w /\ process_key w' = process_key w /\
    files w' = match output_path w with
               | Some path => if os_remove_allowed env path then delete path (files w)
                              else files w
               | None => files w
               end.
Proof.
  unfold discard_output, try_exceptM, os_remove, os_path_exists. run_step.
  destruct (output_path w) as [path |] eqn:Ho; simpl.
  - destruct (bool_decide (is_Some (files w !! path))) eqn:Hp; simpl.
    + rewrite Hp. simpl.
      destruct (os_remove_allowed env path); simpl; eexists;
        (split; [reflexivity |]); repeat split; try reflexivity; eauto.
    + apply bool_decide_eq_false in Hp. rewrite <- eq_None_not_Some in Hp.
      rewrite (delete_id _ _ Hp).
      eexists; (split; [reflexivity |]); repeat split; eauto.
      now destruct (os_remove_allowed env path).
  - eexists; (split; [reflexivity |]); repeat split; eauto.
Qed.

Lemma forget_process_spec (w : World) :
  match process_key w with
  | None => forget_process w = Some (Raise (UnboundLocalError "process_key"), w)
  | Some key =>
      exists w', forget_process w = Some (Ret tt, w') /\
                 files w' = files w /\ output_path w' = output_path w /\
                 process_key w' = process_key w /\
                 processing_semaphore (self w') = processing_semaphore (self w) /\
                 processing (self w') = processing (self w) /\
                 current_processes (self w') = delete key (current_processes (self w))
  end.
Proof.
  unfold forget_process. run_step.
  destruct (process_key w) as [key |] eqn:Hk; [| reflexivity].
  destruct (bool_decide (key ∈ dom (current_processes (self w)))) eqn:Hd; simpl.
  - eexists. (split; [reflexivity |]); repeat split; eauto.
  - eexists. (split; [reflexivity |]); repeat split; eauto.
    apply bool_decide_eq_false in Hd. apply not_elem_of_dom in Hd.
    symmetry. now apply delete_id.
Qed.

(** From the registration to the check of the output.  The job's key is
    bound and gone from the map at the end, the map has gained nothing,
    and the files are those the encoder left, less the output file when
    an empty one was deleted. *)
Lemma encode_and_verify_spec (env : Env) (process : Popen) (key out : string) (w : World) :
  exists r w',
    encode_and_verify env process key out w = Some (r, w') /\
    process_key w' = Some key /\ output_path w' = output_path w /\
    processing_semaphore (self w') = processing_semaphore (self w) /\
    dom (current_processes (self w')) ⊆ dom (current_processes (self w)) ∖ {[key]} /\
    (r = Ret tt -> exists size, files w' !! out = Some size /\ size <> 0%N) /\
    ((exists errs w3, monitor process (ticks process) [] (register_process key process w)
                      = Some (Ret (Some 0%Z, errs), w3)) ->
     match writes process (files w) !! out with
     | None => r = Raise (Exception "the output file was not generated") /\
               files w' = writes process (files w)
     | Some size =>
         if (size =? 0)%N then
           r = Raise (Exception "the output file has size 0") /\
           files w' = if os_remove_allowed env out then delete out (writes process (files w))
                      else writes process (files w)
         else r = Ret tt /\ files w' = writes process (files w)
     end).
Proof.
  unfold encode_and_verify, try_finally. run_step.
  destruct (watch_spec process (register_process key process w))
    as (rw & w3 & Hwatch & (Hf3 & Ho3 & Hk3 & Hp3 & Hd3) & Hok & Hmon).
  rewrite Hwatch.
  destruct (release_process_spec process key w3) as (w4 & Hrel & Hf4 & Ho4 & Hk4 & Hp4 & Hd4).
  rewrite Hrel. simpl in *.
  assert (Hdom : dom (current_processes (self w4)) ⊆ dom (current_processes (self w)) ∖ {[key]}).
  { rewrite Hd4, dom_delete_L. rewrite dom_insert_L in Hd3.
    intros x. rewrite !elem_of_difference. intros [Hx Hn]. split; [| exact Hn].
    apply Hd3, elem_of_union in Hx as [Hx | Hx]; [contradiction | exact Hx]. }
  destruct rw as [errs | e].
  - destruct (verify_output_spec env out w4) as (rv & w5 & Hver & Hs5 & Ho5 & Hk5 & Hcase).
    rewrite Hver. exists rv, w5. split; [reflexivity |].
    rewrite Hk5, Hk4, Hk3, Ho5, Ho4, Ho3, Hs5, Hp4, Hp3.
    repeat split; try reflexivity; try assumption.
    + intros ->. destruct (files w4 !! out) as [size |] eqn:Hsz.
      * destruct (N.eqb_spec size 0); destruct Hcase as [Hr Hfs]; [discriminate |].
        exists size. rewrite Hfs. auto.
      * destruct Hcase; discriminate.
    + intros _. rewrite Hf4, Hf3 in Hcase. exact Hcase.
  - exists (Raise e), w4. split; [reflexivity |].
    rewrite Hk4, Hk3, Ho4, Ho3, Hp4, Hp3.
    repeat split; try reflexivity; try assumption; try discriminate.
    intros (errs & w3' & Hrun). destruct (Hmon _ _ _ Hrun) as [_ Habs].
    discriminate (Habs eq_refl).
Qed.

(** The body of the outer [try], case by case. *)
Lemma process_video_try_cancelled (env : Env) (main overlay : string) (w : World) :
  0 < processing_semaphore (self w) -> processing (self w) = false ->
  process_video_try env main overlay (fresh_frame w) = Some (Ret tt, give_slot (job_entry w)).
Proof.
  intros Hp Hc. unfold process_video_try, with_semaphore, job_entry. simpl.
  destruct (processing_semaphore (self w)) as [| n]; [lia |].
  run_step. rewrite Hc. reflexivity.
Qed.

Lemma process_video_try_running (env : Env) (main overlay : string) (w : World) r w1 :
  0 < processing_semaphore (self w) -> processing (self w) = true ->
  prepare_and_spawn env main overlay (job_entry w) = Some (r, w1) ->
  process_video_try env main overlay (fresh_frame w) =
    match r with
    | Raise e => Some (Raise e, give_slot w1)
    | Ret (process, key, out) =>
        match encode_and_verify env process key out w1 with
        | Some (r', w') => Some (r', give_slot w')
        | None => None
        end
    end.
Proof.
  intros Hp Hc Hprep. unfold process_video_try, with_semaphore. simpl.
  unfold job_entry in Hprep.
  destruct (processing_semaphore (self w)) as [| n]; [lia |]. simpl in Hprep.
  unfold mbind at 1. unfold M_bind at 1. unfold get at 1. simpl. rewrite Hc. simpl.
  unfold mbind, M_bind. rewrite Hprep.
  destruct r as [[[process key] out] | e]; reflexivity.
Qed.

(** The handler and the outer [finally] around the body: what the
    caller gets from what the body did. *)
Lemma process_video_wrap (env : Env) (main overlay : string) (total processed : nat)
    (w : World) r1 w1 :
  process_video_try env main overlay (fresh_frame w) = Some (r1, w1) ->
  exists r w',
    process_video env main overlay total processed w = Some (r, w') /\
    r = match process_key w1 with
        | None => Raise (UnboundLocalError "process_key")
        | Some _ => r1
        end /\
    process_key w' = process_key w1 /\ output_path w' = output_path w1 /\
    processing_semaphore (self w') = processing_semaphore (self w1) /\
    current_processes (self w') =
      match process_key w1 with
      | None => current_processes (self w1)
      | Some key => delete key (current_processes (self w1))
      end /\
    files w' = match r1, output_path w1 with
               | Raise _, Some path =>
                   if os_remove_allowed env path then delete path (files w1) else files w1
               | _, _ => files w1
               end.
Proof.
  intros Hbody. unfold process_video, try_finally, try_exceptM.
  unfold mbind at 1. unfold M_bind at 1. unfold modify at 1. rewrite Hbody.
  destruct r1 as [[] | e].
  - pose proof (forget_process_spec w1) as Hfin.
    destruct (process_key w1) as [key |] eqn:Hk.
    + destruct Hfin as (w' & Hrun & Hf & Ho & Hk' & Hp & _ & Hd). rewrite Hrun.
      exists (Ret tt), w'. rewrite Hk'. repeat split; auto;
        try (rewrite Hf; now destruct (output_path w1)).
    + rewrite Hfin. exists (Raise (UnboundLocalError "process_key")), w1.
      rewrite Hk. repeat split; auto; try now destruct (output_path w1).
  - destruct (discard_output_spec env w1) as (w2 & Hdis & Hs2 & Ho2 & Hk2 & Hf2).
    unfold mbind, M_bind. rewrite Hdis. unfold raise.
    pose proof (forget_process_spec w2) as Hfin. rewrite Hk2 in Hfin.
    destruct (process_key w1) as [key |] eqn:Hk.
    + destruct Hfin as (w' & Hrun & Hf & Ho & Hk' & Hp & _ & Hd). rewrite Hrun.
      exists (Raise e), w'. rewrite Hs2 in Hp, Hd.
      repeat split; congruence.
    + rewrite Hfin. exists (Raise (UnboundLocalError "process_key")), w2.
      repeat split; try congruence.
Qed.

(** C5, as the code has it: when the encoder ends with code 0 and the
    output file is then absent or empty, the job raises; afterwards no
    file is at the output path if the file was absent or if the system
    lets it be deleted; an empty file that cannot be deleted stays (the
    deletion is tried twice, its errors are swallowed). *)
Theorem process_video_output_integrity (env : Env) (main overlay : string)
    (total processed : nat) (w : World)
    (process : Popen) (key out : string) (w1 : World) (errs : list string) (w3 : World) :
  0 < processing_semaphore (self w) ->
  processing (self w) = true ->
  prepare_and_spawn env main overlay (job_entry w) = Some (Ret (process, key, out), w1) ->
  monitor process (ticks process) [] (register_process key process w1)
    = Some (Ret (Some 0%Z, errs), w3) ->
  writes process (files w) !! out = None \/ writes process (files w) !! out = Some 0%N ->
  exists msg w',
    process_video env main overlay total processed w = Some (Raise (Exception msg), w') /\
    (writes process (files w) !! out = None -> files w' !! out = None) /\
    (os_remove_allowed env out = true -> files w' !! out = None) /\
    (writes process (files w) !! out = Some 0%N -> os_remove_allowed env out = false ->
     files w' !! out = Some 0%N).
Proof.
  intros Hslot Hproc Hprep Hmon Hout.
  destruct (prepare_and_spawn_spec env main overlay (job_entry w))
    as (r & w1' & Hrun & _ & Hf1 & _ & _ & Hret).
  rewrite Hprep in Hrun. injection Hrun as <- <-.
  destruct (Hret _ _ _ eq_refl) as (_ & _ & Ho1). simpl in Hf1.
  pose proof (process_video_try_running env main overlay w _ _ Hslot Hproc Hprep) as Hbody.
  destruct (encode_and_verify_spec env process key out w1)
    as (r' & w5 & Henc & Hk5 & Ho5 & _ & _ & _ & Hcase).
  cbv beta iota in Hbody. rewrite Henc in Hbody.
  specialize (Hcase (ex_intro _ errs (ex_intro _ w3 Hmon))).
  rewrite Hf1 in Hcase.
  destruct (process_video_wrap env main overlay total processed w _ _ Hbody)
    as (rf & w' & Hfinal & Hrf & _ & _ & _ & _ & Hfiles).
  simpl in Hrf, Hfiles. rewrite Hk5 in Hrf. rewrite Ho5, Ho1 in Hfiles. subst rf.
  destruct Hout as [Hnone | Hzero].
  - rewrite Hnone in Hcase. destruct Hcase as [-> Hf5]. rewrite Hf5 in Hfiles.
    eexists _, w'. split; [exact Hfinal |]. rewrite Hfiles.
    assert (Hgone : (if os_remove_allowed env out
                     then delete out (writes process (files w))
                     else writes process (files w)) !! out = None).
    { destruct (os_remove_allowed env out); [apply lookup_delete_eq | exact Hnone]. }
    repeat split; auto. congruence.
  - rewrite Hzero in Hcase. simpl in Hcase. destruct Hcase as [-> Hf5].
    rewrite Hf5 in Hfiles.
    eexists _, w'. split; [exact Hfinal |]. rewrite Hfiles.
    repeat split.
    + congruence.
    + intros ->. apply lookup_delete_eq.
    + intros _ ->. exact Hzero.
Qed.

(** C5 as it is worded does not hold: the encoder ends with code 0 and
    leaves an empty file, the system refuses the deletion, the job
    raises and the empty file is still there. *)
Lemma process_video_empty_output_stays :
  exit_code empty_writer = 0%Z /\
  writes empty_writer (files demo_world) !! demo_output_path = Some 0%N /\
  exists w',
    process_video (host empty_writer false) "main10.mp4" "o10.mp4" 1 0 demo_world
      = Some (Raise (Exception "the output file has size 0"), w') /\
    output_path w' = Some demo_output_path /\
    files w' !! demo_output_path = Some 0%N.
Proof.
  split; [reflexivity |]. split; [vm_compute; reflexivity |].
  eexists. split; [vm_compute; reflexivity |]. split; vm_compute; reflexivity.
Qed.

(** C5 on the demo host, where the encoder ends with code 0 and writes
    nothing: the job raises and no file is at the output path. *)
Lemma process_video_output_integrity_witness :
  exists msg w',
    process_video demo_env "main10.mp4" "o10.mp4" 1 0 demo_world
      = Some (Raise (Exception msg), w') /\
    files w' !! demo_output_path = None.
Proof.
  destruct (prepare_and_spawn demo_env "main10.mp4" "o10.mp4" (job_entry demo_world))
    as [[[[[p k] o] | e] w1] |] eqn:Hprep; try (vm_compute in Hprep; discriminate).
  assert (Hp : p = demo_process /\ o = demo_output_path).
  { vm_compute in Hprep. injection Hprep as <- _ <- _. split; reflexivity. }
  destruct Hp as [-> ->].
  destruct (process_video_output_integrity demo_env "main10.mp4" "o10.mp4" 1 0 demo_world
              demo_process k demo_output_path w1 [] (register_process k demo_process w1))
    as (msg & w' & Hrun & Hnone & _).
  - simpl. lia.
  - reflexivity.
  - exact Hprep.
  - reflexivity.
  - left. vm_compute. reflexivity.
  - exists msg, w'. split; [exact Hrun |]. apply Hnone. vm_compute. reflexivity.
Defined.

Lemma slot_returned (w w5 : World) :
  0 < processing_semaphore (self w) ->
  processing_semaphore (self w5) = processing_semaphore (self (job_entry w)) ->
  processing_semaphore (self (give_slot w5)) = processing_semaphore (self w).
Proof. simpl. intros Hpos ->. lia. Qed.





(** ** The batch: the gate and the active-process map *)

Lemma registered_holds (pc0 : job_pc) : registered pc0 = true -> holds_slot pc0 = true.
Proof. destruct pc0; simpl; congruence. Qed.

(** What one step of a job does to the gate and to the map: the slots
    are accounted for, and a key that is in the map afterwards is either
    the job's own key, put there while the job stands registered, or was
    there before. *)
Lemma job_step_effect (key : string) (a : App) (pc0 : job_pc) (a' : App) (pc' : job_pc) :
  job_step key a pc0 a' pc' ->
  processing_semaphore a' + b2n (holds_slot pc') = processing_semaphore a + b2n (holds_slot pc0) /\
  max_concurrent_processes a' = max_concurrent_processes a /\
  (forall x, x ∈ dom (current_processes a') ->
     (x = key /\ registered pc' = true) \/
     (x ∈ dom (current_processes a) /\
      (x = key -> registered pc0 = true -> registered pc' = true))) /\
  pc0 <> JDone.
Proof.
  intros Hstep.
  destruct Hstep; simpl;
    (split; [try lia | split; [reflexivity | split; [| discriminate]]]);
    intros x Hx; simpl in Hx;
    try (right; split; [exact Hx | congruence]).
  - rewrite dom_insert_L in Hx. apply elem_of_union in Hx as [Hx | Hx].
    + apply elem_of_singleton in Hx. now left.
    + right. auto.
  - rewrite dom_delete_L in Hx. apply elem_of_difference in Hx as [Hx Hn].
    right. split; [exact Hx |]. intros ->. exfalso. apply Hn. now apply elem_of_singleton.
  - rewrite dom_delete_L in Hx. apply elem_of_difference in Hx as [Hx Hn].
    right. split; [exact Hx |]. intros ->. exfalso. apply Hn. now apply elem_of_singleton.
  - rewrite dom_delete_L in Hx. apply elem_of_difference in Hx as [Hx Hn].
    right. split; [exact Hx |]. intros ->. exfalso. apply Hn. now apply elem_of_singleton.
Qed.

Lemma holders_app (l1 l2 : list thread) : holders (l1 ++ l2) = holders l1 + holders l2.
Proof. induction l1 as [| t l1 IH]; simpl; [reflexivity | rewrite IH; lia]. Qed.

Lemma holders_insert (l : list thread) (i : nat) (t t' : thread) :
  l !! i = Some t ->
  holders (<[i := t']> l) + b2n (holds_slot (pc t)) = holders l + b2n (holds_slot (pc t')).
Proof.
  revert i. induction l as [| u l IH]; intros [| i] Hi; simpl in *; try discriminate.
  - injection Hi as ->. unfold b2n. lia.
  - specialize (IH i Hi). lia.
Qed.

Lemma registered_keys_le_holders (l : list thread) : length (registered_keys l) <= holders l.
Proof.
  induction l as [| t l IH]; simpl; [lia |].
  destruct (registered (pc t)) eqn:Hr; simpl.
  - rewrite (registered_holds _ Hr). lia.
  - lia.
Qed.

Lemma elem_of_registered_keys (l : list thread) (x : string) :
  x ∈ registered_keys l <->
  exists i t, l !! i = Some t /\ registered (pc t) = true /\ thread_key t = x.
Proof.
  induction l as [| u l IH]; simpl.
  - split; [intros H; inversion H | intros (i & t & H & _); discriminate].
  - split.
    + intros Hx. destruct (registered (pc u)) eqn:Hu.
      * apply elem_of_cons in Hx as [-> | Hx]; [exists 0, u; auto |].
        apply IH in Hx as (i & t & Hi & Hr & Hk). exists (S i), t. auto.
      * apply IH in Hx as (i & t & Hi & Hr & Hk). exists (S i), t. auto.
    + intros ([| i] & t & Hi & Hr & Hk); simpl in Hi.
      * injection Hi as ->. rewrite Hr. subst x. left.
      * assert (Hx : x ∈ registered_keys l) by (apply IH; eauto).
        destruct (registered (pc u)); [now right | exact Hx].
Qed.

Lemma size_list_to_set_le (l : list string) : size (list_to_set l : gset string) <= length l.
Proof.
  induction l as [| x l IH].
  - rewrite list_to_set_nil, size_empty. reflexivity.
  - rewrite list_to_set_cons, size_union_alt, size_singleton. simpl.
    pose proof (subseteq_size (list_to_set l ∖ {[x]}) (list_to_set l : gset string)) as Hsub.
    assert (list_to_set l ∖ {[x]} ⊆ (list_to_set l : gset string)) as Hd.
    { intros y Hy. apply elem_of_difference in Hy. tauto. }
    specialize (Hsub Hd). lia.
Qed.

Lemma gate_invariant_initial (env : Env) (s : sys) :
  initial s -> gate_invariant s.
Proof.
  intros (a & _ & _ & Hmap & Hsem & ->). split; simpl.
  - lia.
  - rewrite Hmap, dom_empty_L. intros x Hx. apply elem_of_empty in Hx. contradiction.
Qed.

Lemma gate_invariant_step (env : Env) (s s' : sys) :
  gate_invariant s -> step env s s' -> gate_invariant s'.
Proof.
  intros [Hsem Hmap] Hstep.
  destruct Hstep; unfold gate_invariant; simpl; try (split; assumption).
  - (* a job is started: it holds nothing yet *)
    split.
    + rewrite holders_app. simpl. lia.
    + intros x Hx. apply elem_of_registered_keys.
      apply Hmap, elem_of_registered_keys in Hx as (j & u & Hj & Hr & Hk).
      exists j, u. split; [| auto]. now apply lookup_app_l_Some.
  - (* the driver's [finally] clears the map *)
    split; [exact Hsem |].
    rewrite dom_empty_L. intros x Hx. apply elem_of_empty in Hx. contradiction.
  - (* a job thread *)
    destruct (job_step_effect _ _ _ _ _ H0) as (Hacc & Hmax & Hkeys & _).
    split.
    + pose proof (holders_insert (threads s) tid t (at_pc t pc') H) as Hh. simpl in Hh.
      rewrite Hmax. lia.
    + intros x Hx. apply elem_of_registered_keys.
      assert (Htid : <[tid := at_pc t pc']> (threads s) !! tid = Some (at_pc t pc')).
      { apply list_lookup_insert_eq. now apply lookup_lt_Some in H. }
      destruct (Hkeys x Hx) as [[-> Hr] | [Hold Hkeep]].
      * exists tid, (at_pc t pc'). auto.
      * apply Hmap, elem_of_registered_keys in Hold as (j & u & Hj & Hr & Hk).
        destruct (decide (j = tid)) as [-> | Hne].
        -- rewrite H in Hj. injection Hj as <-.
           exists tid, (at_pc t pc'). split; [exact Htid |]. split; [| exact Hk].
           simpl. apply Hkeep; [now symmetry | exact Hr].
        -- exists j, u. split; [| auto]. now rewrite list_lookup_insert_ne.
  - (* stop *)
    unfold stop_processing. destruct (negb (processing (app s))); simpl; [split; assumption |].
    split; [exact Hsem |].
    rewrite dom_empty_L. intros x Hx. apply elem_of_empty in Hx. contradiction.
  - (* pause *)
    unfold toggle_pause. destruct (negb (processing (app s))); simpl; split; assumption.
Qed.

Lemma gate_invariant_reachable (env : Env) (s : sys) :
  reachable env s -> gate_invariant s.
Proof.
  induction 1 as [s Hinit | s s' _ IH Hstep].
  - eapply gate_invariant_initial; eauto.
  - eapply gate_invariant_step; eauto.
Qed.

(** A key can only enter the map through the registration of line 806,
    made by a job that holds a slot before and after. *)
Lemma job_step_new_key (key : string) (a : App) (pc0 : job_pc) (a' : App) (pc' : job_pc)
    (x : string) :
  job_step key a pc0 a' pc' ->
  x ∈ dom (current_processes a') -> x ∉ dom (current_processes a) ->
  x = key /\ holds_slot pc0 = true /\ holds_slot pc' = true.
Proof.
  intros Hstep Hin Hout.
  destruct Hstep; simpl in Hin; try contradiction;
    try (rewrite dom_delete_L in Hin; apply elem_of_difference in Hin as [Hin _];
         contradiction).
  rewrite dom_insert_L in Hin. apply elem_of_union in Hin as [Hin | Hin]; [| contradiction].
  apply elem_of_singleton in Hin. auto.
Qed.

(** C3: in every reachable state of a batch the active-process map has
    at most as many entries as the gate has slots (the limit
    [max_concurrent_processes], three in the code), and a key enters the
    map only by a step of a job that holds a slot of the gate. *)
Theorem active_processes_bounded (env : Env) (s : sys) :
  reachable env s ->
  size (current_processes (app s)) <= max_concurrent_processes (app s) /\
  holders (threads s) <= max_concurrent_processes (app s) /\
  (forall s' x,
      step env s s' ->
      x ∈ dom (current_processes (app s')) -> x ∉ dom (current_processes (app s)) ->
      exists tid t,
        threads s !! tid = Some t /\ thread_key t = x /\ holds_slot (pc t) = true /\
        exists t', threads s' !! tid = Some t' /\ holds_slot (pc t') = true).
Proof.
  intros Hreach. destruct (gate_invariant_reachable env s Hreach) as [Hsem Hmap].
  split; [| split].
  - rewrite <- size_dom.
    transitivity (size (list_to_set (registered_keys (threads s)) : gset string)).
    + apply subseteq_size. intros x Hx. apply elem_of_list_to_set. now apply Hmap.
    + etransitivity; [apply size_list_to_set_le |].
      pose proof (registered_keys_le_holders (threads s)). lia.
  - lia.
  - intros s' x Hstep Hin Hout.
    destruct Hstep; simpl in Hin; try contradiction.
    + rewrite dom_empty_L in Hin. apply elem_of_empty in Hin. contradiction.
    + destruct (job_step_new_key _ _ _ _ _ x H0 Hin Hout) as (-> & Hh & Hh').
      exists tid, t. repeat split; auto.
      exists (at_pc t pc'). split; [| exact Hh'].
      simpl. apply list_lookup_insert_eq. now apply lookup_lt_Some in H.
    + unfold stop_processing in Hin. destruct (negb (processing (app s))); [contradiction |].
      simpl in Hin. rewrite dom_empty_L in Hin. apply elem_of_empty in Hin. contradiction.
    + unfold toggle_pause in Hin. destruct (negb (processing (app s))); contradiction.
Qed.

Lemma demo_batch_initial : initial demo_batch.
Proof.
  exists (add_video demo_cv2 "o10.mp4" overlay_group one_main_App).
  repeat split; try discriminate; vm_compute; reflexivity.
Qed.


(** ** The batch: one job at a time, in collection order *)

Lemma dispatch_invariant_initial (env : Env) (s : sys) :
  initial s -> dispatch_invariant s.
Proof.
  intros (a & _ & _ & _ & _ & ->). repeat split; simpl.
  - constructor.
  - intros j t Hj. discriminate.
  - constructor.
Qed.

Lemma all_done_from_last (l : list thread) (t : thread) :
  (forall j u, l !! j = Some u -> S j < length l -> done u) ->
  last l = Some t -> done t -> Forall done l.
Proof.
  intros Hbut Hlast Ht. apply Forall_lookup. intros j u Hj.
  destruct (decide (S j < length l)) as [Hlt | Hge]; [eauto |].
  rewrite last_lookup in Hlast. apply lookup_lt_Some in Hj as Hjl.
  replace (Nat.pred (length l)) with j in Hlast by lia.
  rewrite Hj in Hlast. now injection Hlast as ->.
Qed.

Lemma dispatch_invariant_step (env : Env) (s s' : sys) :
  dispatch_invariant s -> step env s s' -> dispatch_invariant s'.
Proof.
  intros (Hsorted & Hbut & Hdrv) Hstep.
  destruct Hstep; unfold dispatch_invariant; simpl;
    try (split; [exact Hsorted | split; [exact Hbut | exact I]]).
  - (* d_enter *) rewrite H in Hdrv. auto.
  - (* d_missing *) rewrite H in Hdrv. split; [exact Hsorted | split; [exact Hbut |]].
    eapply Forall_impl; [exact Hdrv |]. simpl. intros t [? ?]. split; [assumption | lia].
  - (* d_no_overlay *) rewrite H in Hdrv. split; [exact Hsorted | split; [exact Hbut |]].
    eapply Forall_impl; [exact Hdrv |]. simpl. intros t [? ?]. split; [assumption | lia].
  - (* d_start *) rewrite H in Hdrv. rewrite Forall_forall in Hdrv. split; [| split].
    + rewrite fmap_app. apply StronglySorted_app. split; [| split; [exact Hsorted |]].
      * intros x1 x2 Hx1 Hx2. apply list_elem_of_singleton in Hx2 as ->.
        apply list_elem_of_fmap in Hx1 as (t & -> & Ht). now apply Hdrv.
      * repeat constructor.
    + intros j t Hj Hlen. rewrite length_app in Hlen. simpl in Hlen.
      rewrite lookup_app_l in Hj by lia.
      apply Hdrv. eapply list_elem_of_lookup_2; eauto.
    + apply Forall_app. split.
      * apply Forall_forall. intros t Ht. destruct (Hdrv t Ht). lia.
      * repeat constructor.
  - (* d_join *) rewrite H in Hdrv. split; [exact Hsorted | split; [exact Hbut |]].
    pose proof (all_done_from_last _ _ Hbut H0 H1) as Hall.
    rewrite Forall_forall in *. intros u Hu. split; [auto |].
    specialize (Hdrv u Hu). lia.
  - (* a job thread *)
    destruct (job_step_effect _ _ _ _ _ H0) as (_ & _ & _ & Hlive).
    assert (Hidx : job_index <$> <[tid := at_pc t pc']> (threads s) = job_index <$> threads s).
    { rewrite list_fmap_insert. simpl. apply list_insert_id.
      rewrite list_lookup_fmap, H. reflexivity. }
    assert (Hlast : ~ S tid < length (threads s)).
    { intros Hlt. apply Hlive. exact (Hbut tid t H Hlt). }
    rewrite Hidx, length_insert. split; [exact Hsorted | split].
    + intros j u Hj Hlt. destruct (decide (j = tid)) as [-> | Hne]; [contradiction |].
      rewrite list_lookup_insert_ne in Hj by auto. eauto.
    + destruct (driver s) as [i | i | i | |]; try exact I.
      * exfalso. apply Hlive. rewrite Forall_forall in Hdrv.
        apply (Hdrv t). eapply list_elem_of_lookup_2; eauto.
      * exfalso. apply Hlive. rewrite Forall_forall in Hdrv.
        apply (Hdrv t). eapply list_elem_of_lookup_2; eauto.
      * apply Forall_insert; [exact Hdrv |]. simpl.
        rewrite Forall_forall in Hdrv. apply Hdrv. eapply list_elem_of_lookup_2; eauto.
  - (* stop *) split; [exact Hsorted | split; [exact Hbut | exact Hdrv]].
  - (* pause *) split; [exact Hsorted | split; [exact Hbut | exact Hdrv]].
Qed.

Lemma dispatch_invariant_reachable (env : Env) (s : sys) :
  reachable env s -> dispatch_invariant s.
Proof.
  induction 1 as [s Hinit | s s' _ IH Hstep].
  - eapply dispatch_invariant_initial; eauto.
  - eapply dispatch_invariant_step; eauto.
Qed.

(** C2: in every reachable state of a batch the started jobs belong to
    strictly increasing rows of the main collection, at most one job is
    live (its thread started and not ended), and the driver starts a job
    only when every job it started before has ended (completed, failed
    or cancelled); that new job is the one of the driver's current row,
    which is beyond the rows of all earlier jobs. *)
Theorem batch_is_sequential (env : Env) (s : sys) :
  reachable env s ->
  StronglySorted lt (job_index <$> threads s) /\
  (forall j1 j2 t1 t2,
      threads s !! j1 = Some t1 -> threads s !! j2 = Some t2 ->
      live t1 -> live t2 -> j1 = j2) /\
  (forall s',
      step env s s' -> length (threads s) < length (threads s') ->
      Forall done (threads s) /\
      exists i t,
        driver s = DBody i /\ threads s' = threads s ++ [t] /\
        job_index t = i /\ pc t = JWaiting /\
        Forall (fun u => job_index u < i) (threads s)).
Proof.
  intros Hreach.
  destruct (dispatch_invariant_reachable env s Hreach) as (Hsorted & Hbut & Hdrv).
  split; [exact Hsorted |]. split.
  - intros j1 j2 t1 t2 H1 H2 Hl1 Hl2.
    destruct (decide (S j1 < length (threads s))) as [Hlt1 | Hge1];
      [exfalso; apply Hl1; eapply Hbut; eauto |].
    destruct (decide (S j2 < length (threads s))) as [Hlt2 | Hge2];
      [exfalso; apply Hl2; eapply Hbut; eauto |].
    apply lookup_lt_Some in H1, H2. lia.
  - intros s' Hstep Hlen.
    destruct Hstep; simpl in Hlen; try lia.
    + rewrite H in Hdrv. split.
      * eapply Forall_impl; [exact Hdrv |]. simpl. tauto.
      * eexists i, _. repeat split; try reflexivity; try assumption.
        eapply Forall_impl; [exact Hdrv |]. simpl. tauto.
    + rewrite length_insert in Hlen. lia.
Qed.

(** A run of the demo batch up to the point where its job watches the
    encoder. *)
Lemma demo_state_step (a : App) (pc0 : job_pc) (a' : App) (pc' : job_pc) :
  job_step (thread_key demo_job) a pc0 a' pc' ->
  step demo_env (demo_state a pc0) (demo_state a' pc').
Proof.
  intros H.
  exact (t_step demo_env (demo_state a pc0) 0 (at_pc demo_job pc0) a' pc' eq_refl H).
Qed.

Lemma demo_running_reachable : reachable demo_env demo_running.
Proof.
  assert (H0 : reachable demo_env demo_batch).
  { apply reachable_initial. apply demo_batch_initial. }
  assert (H1 : reachable demo_env
                 {| app := app demo_batch; driver := DBody 0; threads := [] |}).
  { eapply reachable_step; [exact H0 |].
    apply (d_enter demo_env demo_batch 0); vm_compute; auto. }
  assert (H2 : reachable demo_env (demo_state (app demo_batch) JWaiting)).
  { eapply reachable_step; [exact H1 |].
    refine (d_start demo_env
              {| app := app demo_batch; driver := DBody 0; threads := [] |}
              0 "main10.mp4" ["o10.mp4"] "o10.mp4" _ _ _ _);
      try (vm_compute; reflexivity). left. }
  eapply reachable_step; [| apply demo_state_step, js_register].
  eapply reachable_step; [| apply demo_state_step, (js_spawn _ _ demo_process)].
  eapply reachable_step; [| apply demo_state_step, js_proceed; vm_compute; reflexivity].
  eapply reachable_step; [exact H2 |].
  apply demo_state_step, (js_acquire _ _ 2). vm_compute. reflexivity.
Qed.

(** A run of the batch of two main assets: the first job runs to its
    end, then the driver starts the second. *)
Lemma two_batch_initial : initial two_batch.
Proof. exists two_App. repeat split; try discriminate; vm_compute; reflexivity. Qed.

Lemma first_state_step (a : App) (pc0 : job_pc) (a' : App) (pc' : job_pc) :
  job_step (thread_key (first_job pc0)) a pc0 a' pc' ->
  step open_env (first_state a pc0) (first_state a' pc').
Proof.
  intros H. exact (t_step open_env (first_state a pc0) 0 (first_job pc0) a' pc' eq_refl H).
Qed.

Lemma second_state_step (a : App) (pc0 : job_pc) (a' : App) (pc' : job_pc) :
  job_step (thread_key (second_job pc0)) a pc0 a' pc' ->
  step open_env (second_state a pc0) (second_state a' pc').
Proof.
  intros H. exact (t_step open_env (second_state a pc0) 1 (second_job pc0) a' pc' eq_refl H).
Qed.

Ltac then_step H c :=
  let H' := fresh "Hreach" in
  pose proof (reachable_step open_env _ _ H c) as H'; clear H; rename H' into H.

Ltac first_moves H tac :=
  match type of H with
  | reachable _ (first_state ?a ?pc0) =>
      let Hs := fresh "Hs" in
      eassert (Hs : step open_env (first_state a pc0) (first_state _ _));
      [ apply first_state_step; tac | then_step H Hs; clear Hs ]
  end.

Ltac second_moves H tac :=
  match type of H with
  | reachable _ (second_state ?a ?pc0) =>
      let Hs := fresh "Hs" in
      eassert (Hs : step open_env (second_state a pc0) (second_state _ _));
      [ apply second_state_step; tac | then_step H Hs; clear Hs ]
  end.

Lemma two_second_due_reachable : reachable open_env two_second_due.
Proof.
  pose proof (reachable_initial open_env _ two_batch_initial) as H.
  then_step H (d_enter open_env two_batch 0 eq_refl ltac:(vm_compute; lia) eq_refl).
  assert (Hstart : step open_env
            {| app := app two_batch; driver := DBody 0; threads := threads two_batch |}
            (first_state (app two_batch) JWaiting)).
  { refine (d_start open_env
              {| app := app two_batch; driver := DBody 0; threads := threads two_batch |}
              0 "a.mp4" ["o.mp4"] "o.mp4" eq_refl _ _ _);
      [vm_compute; reflexivity | vm_compute; reflexivity | left]. }
  then_step H Hstart. clear Hstart.
  first_moves H ltac:(apply (js_acquire _ _ 2); reflexivity).
  first_moves H ltac:(apply js_proceed; reflexivity).
  first_moves H ltac:(apply (js_spawn _ _ demo_process)).
  first_moves H ltac:(apply js_register).
  first_moves H ltac:(apply (js_watched _ _ _ true)).
  first_moves H ltac:(apply js_release_ok).
  first_moves H ltac:(apply (js_verified _ _ true)).
  first_moves H ltac:(apply js_leave_ok).
  first_moves H ltac:(apply js_forget).
  match type of H with reachable _ ?s =>
    then_step H (d_join open_env s 0 (first_job JDone) eq_refl eq_refl eq_refl) end.
  cbn [app driver threads first_state] in H.
  match type of H with reachable _ ?s =>
    then_step H (d_enter open_env s 1 eq_refl ltac:(vm_compute; lia) eq_refl) end.
  cbn [app driver threads] in H.
  match type of H with reachable _ ?s =>
    assert (Heq : s = two_second_due) by (vm_compute; reflexivity) end.
  rewrite <- Heq. exact H.
Qed.

Lemma two_second_started : step open_env two_second_due (second_state (app two_batch) JWaiting).
Proof.
  refine (d_start open_env two_second_due 1 "b.mp4" ["o.mp4"] "o.mp4" eq_refl _ _ _);
    [vm_compute; reflexivity | vm_compute; reflexivity | left].
Qed.

Lemma two_second_running_reachable : reachable open_env two_second_running.
Proof.
  pose proof (reachable_step open_env _ _ two_second_due_reachable two_second_started) as H.
  second_moves H ltac:(apply (js_acquire _ _ 2); reflexivity).
  second_moves H ltac:(apply js_proceed; reflexivity).
  second_moves H ltac:(apply (js_spawn _ _ demo_process)).
  second_moves H ltac:(apply js_register).
  exact H.
Qed.

(** C2 on a batch of two main assets.  While the second job watches its
    encoder the started jobs are those of rows 0 and 1, in that order,
    and the second one is the only live job; and when the driver started
    the second job, the first had ended and the new job was the one of
    row 1. *)
Lemma batch_is_sequential_witness :
  job_index <$> threads two_second_running = [0; 1] /\
  StronglySorted lt (job_index <$> threads two_second_running) /\
  (forall j t, threads two_second_running !! j = Some t -> live t -> j = 1) /\
  Forall done (threads two_second_due) /\
  exists t, threads (second_state (app two_batch) JWaiting) = threads two_second_due ++ [t] /\
            job_index t = 1 /\ pc t = JWaiting.
Proof.
  destruct (batch_is_sequential open_env two_second_running two_second_running_reachable)
    as (Hsorted & Hlive & _).
  destruct (batch_is_sequential open_env two_second_due two_second_due_reachable)
    as (_ & _ & Hnext).
  destruct (Hnext _ two_second_started ltac:(simpl; lia))
    as (Hdone & i & t & Hdrv & Hthreads & Hi & Hpc & _).
  split; [reflexivity |]. split; [exact Hsorted |]. split; [| split; [exact Hdone |]].
  - intros j t0 Hj Hl.
    apply (Hlive j 1 t0 (second_job (JWatching demo_process)) Hj eq_refl Hl). discriminate.
  - exists t. split; [exact Hthreads |]. split; [| exact Hpc].
    rewrite Hi. simpl in Hdrv. now injection Hdrv as <-.
Defined.

(** C3 in the state where the demo job watches its encoder. *)
Lemma active_processes_bounded_witness :
  size (current_processes (app demo_running)) <= max_concurrent_processes (app demo_running).
Proof.
  exact (proj1 (active_processes_bounded demo_env demo_running
                  demo_running_reachable)).
Defined.

(** In that state the map holds exactly the job's process, and two of
    the three slots are free. *)
Example demo_running_counts :
  size (current_processes (app demo_running)) = 1 /\
  processing_semaphore (app demo_running) = 2 /\
  holders (threads demo_running) = 1.
Proof. repeat split; vm_compute; reflexivity. Qed.

(** ** File names: what sanitation guarantees *)

Lemma illegal_clean_char (c : ascii) : illegal_char (clean_char c) = false.
Proof. unfold clean_char. destruct (illegal_char c) eqn:H; [reflexivity | exact H]. Qed.

Lemma re_sub_illegal_legal (l : chars) :
  Forall (fun c => illegal_char c = false) (re_sub_illegal l).
Proof.
  unfold re_sub_illegal. induction l as [| c l IH]; simpl; constructor; auto.
  apply illegal_clean_char.
Qed.

Lemma length_string_of_list_ascii (l : chars) :
  String.length (string_of_list_ascii l) = length l.
Proof. induction l as [| c l IH]; simpl; [reflexivity | now rewrite IH]. Qed.

Lemma length_list_ascii_of_string (s : string) :
  length (list_ascii_of_string s) = String.length s.
Proof. induction s as [| c s IH]; simpl; [reflexivity | now rewrite IH]. Qed.

Lemma string_of_list_ascii_app (a b : chars) :
  string_of_list_ascii (a ++ b) = string_of_list_ascii a +:+ string_of_list_ascii b.
Proof. induction a as [| c a IH]; simpl; [reflexivity | now rewrite IH]. Qed.

Lemma length_slice_to {A} (p : list A) (i : Z) : length (slice_to p i) <= length p.
Proof. unfold slice_to. destruct (i <? 0)%Z; rewrite length_take; lia. Qed.

(** X1: whatever the input, the sanitized name holds none of the
    characters of the pattern of line 43 and is never longer than the
    input; on an input of at most 255 characters sanitation only replaces
    characters, one for one. *)
Theorem sanitize_filename_legal (filename : string) :
  Forall (fun c => illegal_char c = false) (list_ascii_of_string (sanitize_filename filename)) /\
  String.length (sanitize_filename filename) <= String.length filename /\
  (String.length filename <= 255 ->
   sanitize_filename filename
     = string_of_list_ascii (List.map clean_char (list_ascii_of_string filename))).
Proof.
  unfold sanitize_filename. rewrite list_ascii_of_string_of_list_ascii.
  rewrite length_string_of_list_ascii, <- (length_list_ascii_of_string filename).
  set (l := list_ascii_of_string filename).
  pose proof (re_sub_illegal_legal l) as Hlegal.
  assert (Hlen : length (re_sub_illegal l) = length l) by apply length_map.
  unfold sanitize_filename_chars.
  pose proof (_splitext_app (re_sub_illegal l) "092"%char (Some "/"%char) "."%char) as Happ.
  fold (splitext (re_sub_illegal l)) in Happ.
  destruct (splitext (re_sub_illegal l)) as [base ext]; simpl in Happ.
  destruct (Z.ltb_spec 255 (Z.of_nat (length (re_sub_illegal l)))) as [Hlong | Hshort].
  - rewrite <- Happ in Hlegal. apply Forall_app in Hlegal as [Hb He].
    split; [| split].
    + apply Forall_app. split; [| exact He].
      unfold slice_to. destruct (_ <? 0)%Z; now apply Forall_take.
    + rewrite <- Hlen, <- Happ, !length_app.
      pose proof (length_slice_to base (255 - Z.of_nat (length ext))). lia.
    + lia.
  - split; [exact Hlegal |]. split; [lia | reflexivity].
Qed.

(** X2: the file name of every output, [output_<main>_C_<overlay>.mp4]
    once sanitized, has at most 255 characters and still ends in [.mp4],
    whatever the two base names are; sanitizing it again returns it
    unchanged. *)
Theorem output_name_bounded (main_video_name overlay_name : string) :
  let output_name := "output_" +:+ main_video_name +:+ "_C_" +:+ overlay_name +:+ ".mp4" in
  String.length (sanitize_filename output_name) <= 255 /\
  (exists stem, sanitize_filename output_name = stem +:+ ".mp4") /\
  sanitize_filename (sanitize_filename output_name) = sanitize_filename output_name.
Proof.
  intros output_name.
  cut (String.length (sanitize_filename output_name) <= 255 /\
       exists stem, sanitize_filename output_name = stem +:+ ".mp4").
  { intros [Hlen Hext]. split; [exact Hlen |]. split; [exact Hext |].
    apply sanitize_filename_idem_output_name. }
  unfold sanitize_filename, output_name.
  replace (list_ascii_of_string
             ("output_" +:+ main_video_name +:+ "_C_" +:+ overlay_name +:+ ".mp4"))
    with (("o"%char :: list_ascii_of_string
                         ("utput_" +:+ main_video_name +:+ "_C_" +:+ overlay_name))
            ++ list_ascii_of_string ".mp4")
    by (rewrite !list_ascii_of_string_app; simpl; rewrite <- !app_assoc; reflexivity).
  set (stem := ("o"%char :: list_ascii_of_string
                         ("utput_" +:+ main_video_name +:+ "_C_" +:+ overlay_name))).
  unfold sanitize_filename_chars.
  assert (Hsplit : splitext (re_sub_illegal (stem ++ list_ascii_of_string ".mp4"))
                   = (re_sub_illegal stem, list_ascii_of_string ".mp4"))
    by (apply splitext_mp4; discriminate).
  rewrite Hsplit.
  assert (Hcat : re_sub_illegal (stem ++ list_ascii_of_string ".mp4")
                 = re_sub_illegal stem ++ list_ascii_of_string ".mp4").
  { unfold re_sub_illegal. rewrite map_app. reflexivity. }
  rewrite Hcat.
  destruct (Z.ltb_spec 255 (Z.of_nat (length (re_sub_illegal stem
                                                ++ list_ascii_of_string ".mp4")))) as [Hl | Hs].
  - split.
    + rewrite length_string_of_list_ascii, length_app. unfold slice_to. simpl.
      rewrite length_take. lia.
    + eexists. rewrite string_of_list_ascii_app. reflexivity.
  - split.
    + rewrite length_string_of_list_ascii. lia.
    + eexists. rewrite string_of_list_ascii_app. reflexivity.
Qed.

Lemma splitext_base_not_empty (p : chars) :
  p <> [] -> fst (splitext p) <> [].
Proof.
  intros Hp. unfold splitext, _splitext.
  destruct (_ <? _)%Z; [| exact Hp].
  match goal with |- context [existsb ?f ?l] => destruct (existsb f l) eqn:Hex end;
    [| exact Hp].
  simpl. intros Hnil. rewrite Hnil in Hex.
  unfold slice_from in Hex. destruct (_ <? 0)%Z; rewrite drop_nil in Hex; discriminate.
Qed.

Lemma sanitize_filename_chars_clean_short (r : chars) :
  Forall (fun c => clean_char c = c) r -> length r <= 255 -> sanitize_filename_chars r = r.
Proof.
  intros Hr Hlen. unfold sanitize_filename_chars.
  unfold re_sub_illegal. rewrite (map_fixed _ _ Hr).
  destruct (splitext r) as [b e].
  destruct (Z.ltb_spec 255 (Z.of_nat (length r))); [lia | reflexivity].
Qed.

Lemma sanitize_filename_chars_clean_long (r : chars) :
  Forall (fun c => clean_char c = c) r -> 255 < length r ->
  length (sanitize_filename_chars r) < length r.
Proof.
  intros Hr Hlen. unfold sanitize_filename_chars.
  unfold re_sub_illegal. rewrite (map_fixed _ _ Hr).
  pose proof (_splitext_app r "092"%char (Some "/"%char) "."%char) as Happ.
  fold (splitext r) in Happ.
  assert (Hbase : fst (splitext r) <> []).
  { apply splitext_base_not_empty. intros ->. simpl in Hlen. lia. }
  destruct (splitext r) as [b e]; simpl in Happ, Hbase.
  destruct (Z.ltb_spec 255 (Z.of_nat (length r))); [| lia].
  assert (0 < length b) by (destruct b; [contradiction | simpl; lia]).
  assert (Hsum : length r = length b + length e) by (now rewrite <- Happ, length_app).
  rewrite length_app. unfold slice_to.
  destruct (Z.ltb_spec (255 - Z.of_nat (length e)) 0); rewrite length_take; lia.
Qed.

Lemma sanitize_filename_chars_clean (filename : chars) :
  Forall (fun c => clean_char c = c) (sanitize_filename_chars filename).
Proof.
  pose proof (re_sub_illegal_fixed filename) as Hfix.
  unfold sanitize_filename_chars.
  pose proof (_splitext_app (re_sub_illegal filename) "092"%char (Some "/"%char) "."%char)
    as Happ.
  fold (splitext (re_sub_illegal filename)) in Happ.
  destruct (splitext (re_sub_illegal filename)) as [base ext]; simpl in Happ.
  destruct (_ <? _)%Z; [| exact Hfix].
  rewrite <- Happ in Hfix. apply Forall_app in Hfix as [Hb He].
  apply Forall_app. split; [| exact He].
  unfold slice_to. destruct (_ <? 0)%Z; now apply Forall_take.
Qed.

(** X3: sanitation is idempotent on a name exactly when the sanitized
    name has at most 255 characters, and that is the case exactly when
    the name has at most 255 characters or its extension, read after the
    substitution, has at most 255. *)
Theorem sanitize_filename_idempotent_iff (filename : string) :
  (sanitize_filename (sanitize_filename filename) = sanitize_filename filename <->
   String.length (sanitize_filename filename) <= 255) /\
  (String.length (sanitize_filename filename) <= 255 <->
   String.length filename <= 255 \/
   length (snd (splitext (re_sub_illegal (list_ascii_of_string filename)))) <= 255).
Proof.
  unfold sanitize_filename. rewrite list_ascii_of_string_of_list_ascii.
  rewrite !length_string_of_list_ascii, <- (length_list_ascii_of_string filename).
  set (l := list_ascii_of_string filename).
  pose proof (sanitize_filename_chars_clean l) as Hclean.
  split.
  - split.
    + intros Hidem. apply (f_equal list_ascii_of_string) in Hidem.
      rewrite !list_ascii_of_string_of_list_ascii in Hidem.
      destruct (le_lt_dec (length (sanitize_filename_chars l)) 255) as [Hle | Hgt];
        [exact Hle |].
      pose proof (sanitize_filename_chars_clean_long _ Hclean Hgt) as Hlt.
      rewrite Hidem in Hlt. lia.
    + intros Hle. now rewrite sanitize_filename_chars_clean_short.
  - assert (Hlen : length (re_sub_illegal l) = length l) by apply length_map.
    unfold sanitize_filename_chars.
    pose proof (_splitext_app (re_sub_illegal l) "092"%char (Some "/"%char) "."%char) as Happ.
    fold (splitext (re_sub_illegal l)) in Happ.
    destruct (splitext (re_sub_illegal l)) as [base ext]; simpl in Happ |- *.
    assert (Hsum : length l = length base + length ext)
      by (now rewrite <- Hlen, <- Happ, length_app).
    rewrite Hlen.
    destruct (Z.ltb_spec 255 (Z.of_nat (length l))) as [Hlong | Hshort];
      [| rewrite Hlen; split; [left; lia | lia]].
    rewrite length_app. unfold slice_to.
    destruct (Z.ltb_spec (255 - Z.of_nat (length ext)) 0); rewrite length_take; lia.
Qed.

(** ** Import: which names count as video files *)

Lemma lower_char_dot (c : ascii) : lower_char c = "."%char <-> c = "."%char.
Proof.
  destruct c as [[] [] [] [] [] [] [] []]; vm_compute; split; congruence.
Qed.

Lemma lower_dotless (e : chars) :
  Forall (fun c => c <> "."%char) (lower e) -> Forall (fun c => c <> "."%char) e.
Proof.
  unfold lower. induction e as [| c e IH]; simpl; intros H; [constructor |].
  apply Forall_cons in H as [Hc He]. constructor; [| now apply IH].
  intros ->. now apply Hc.
Qed.

(** The extensions of the table, and every spelling of them in another
    letter case, are a dot followed by at least one character that is
    not a dot. *)
Lemma video_extension_shape (ext : chars) :
  string_of_list_ascii (lower ext) ∈ VIDEO_EXTENSIONS ->
  exists e, ext = "."%char :: e /\ e <> [] /\ Forall (fun c => c <> "."%char) e.
Proof.
  intros Hin.
  assert (Hl : exists e', lower ext = "."%char :: e' /\ e' <> [] /\
                          Forall (fun c => c <> "."%char) e').
  { unfold VIDEO_EXTENSIONS in Hin.
    repeat (apply elem_of_cons in Hin as [Hin | Hin];
            [apply (f_equal list_ascii_of_string) in Hin;
             rewrite list_ascii_of_string_of_list_ascii in Hin; rewrite Hin; simpl;
             eexists; split; [reflexivity |]; split; [discriminate |];
             repeat constructor; discriminate |]).
    inversion Hin. }
  destruct Hl as (e' & Hl & Hne & Hdots).
  destruct ext as [| c e]; [discriminate |].
  unfold lower in Hl. cbn [List.map] in Hl. injection Hl as Hc He.
  apply (proj1 (lower_char_dot c)) in Hc. subst c.
  exists e. split; [reflexivity |]. split.
  - intros ->. simpl in He. congruence.
  - apply lower_dotless. unfold lower. now rewrite He.
Qed.

Lemma suffix_of_stem_ext (stem e : chars) :
  stem <> [] -> e <> [] -> Forall (fun c => c <> "."%char) e ->
  suffix (stem ++ "."%char :: e) = "."%char :: e.
Proof.
  intros Hs He Hdots. unfold suffix.
  rewrite (rfind_app_last "."%char stem e Hdots).
  rewrite length_app. simpl.
  assert (0 < length stem) by (destruct stem; [contradiction | simpl; lia]).
  assert (0 < length e) by (destruct e; [contradiction | simpl; lia]).
  destruct (Z.ltb_spec 0 (Z.of_nat (length stem))); [| lia].
  destruct (Z.ltb_spec (Z.of_nat (length stem)) (Z.of_nat (length stem + S (length e)) - 1));
    [| lia].
  simpl. unfold slice_from.
  destruct (Z.ltb_spec (Z.of_nat (length stem)) 0); [lia |].
  now rewrite Nat2Z.id, drop_app_length.
Qed.

Lemma suffix_split (name : chars) :
  suffix name <> [] -> exists stem, name = stem ++ suffix name /\ stem <> [].
Proof.
  unfold suffix. set (i := rfind "."%char name).
  destruct (Z.ltb_spec 0 i); simpl; [| congruence].
  destruct (Z.ltb_spec i (Z.of_nat (length name) - 1)); simpl; [| congruence].
  intros _. exists (slice_to name i). split; [symmetry; apply slice_app |].
  unfold slice_to. destruct (Z.ltb_spec i 0); [lia |].
  intros Hnil. apply (f_equal (@length ascii)) in Hnil.
  rewrite length_take in Hnil. simpl in Hnil. lia.
Qed.

(** X4: [is_video_file] accepts exactly the paths whose final component
    is a stem that is not empty followed by one of the six extensions of
    the table, in any letter case.  So a file named [.mp4] alone is not a
    video file, and [CLIP.MP4] is one. *)
Theorem is_video_file_iff (desk : Desktop) (file_path : string) :
  is_video_file desk file_path = true <->
  exists stem ext,
    list_ascii_of_string (Path_name desk file_path) = stem ++ ext /\ stem <> [] /\
    string_of_list_ascii (lower ext) ∈ VIDEO_EXTENSIONS.
Proof.
  unfold is_video_file. rewrite bool_decide_eq_true.
  set (name := list_ascii_of_string (Path_name desk file_path)).
  split.
  - intros Hin.
    destruct (suffix_split name) as (stem & Hname & Hstem).
    { intros Hnil. rewrite Hnil in Hin. vm_compute in Hin.
      repeat (apply elem_of_cons in Hin as [Hin | Hin]; [discriminate |]). inversion Hin. }
    exists stem, (suffix name). auto.
  - intros (stem & ext & Hname & Hstem & Hin).
    destruct (video_extension_shape ext Hin) as (e & -> & He & Hdots).
    rewrite Hname, suffix_of_stem_ext by assumption. exact Hin.
Qed.

(** ** Collections: what [add_video] does *)

Lemma float_pos_not_eq0 (x : float) : (0 <? x)%float = true -> (x =? 0)%float = false.
Proof.
  rewrite FloatAxioms.ltb_spec, FloatAxioms.eqb_spec, Prim2SF_zero.
  unfold SFltb, SFeqb.
  destruct (Prim2SF x) as [s | s | | s m e]; simpl; try destruct s; congruence.
Qed.

(** The two outcomes of [add_video]: nothing changes (the probe answers
    0, or the path is already listed), or the path is appended to the
    target collection and indexed under its probed duration, which is
    above zero.  The other group is never touched. *)
Lemma add_video_cases (cv : cv2) (p : string) (t : group) (a : App) :
  let d := probed_duration cv p in
  let a' := add_video cv p t a in
  paths_of (other t) a' = paths_of (other t) a /\
  durations_of (other t) a' = durations_of (other t) a /\
  ((a' = a /\ ((d = 0%float) \/ p ∈ paths_of t a)) \/
   ((0 <? d)%float = true /\ (p ∉ paths_of t a) /\
    paths_of t a' = paths_of t a ++ [p] /\
    durations_of t a' = <[p := d]> (durations_of t a))).
Proof.
  intros d a'. subst d a'. unfold add_video.
  destruct (probed_duration_cases cv p) as [_ [Hz | Hpos]].
  - rewrite Hz. change (0 =? 0)%float with true. cbv iota.
    split; [reflexivity |]. split; [reflexivity |]. left. auto.
  - rewrite (float_pos_not_eq0 _ Hpos).
    destruct t; simpl;
      match goal with |- context [bool_decide ?P] => destruct (bool_decide_reflect P) end;
      simpl; auto 10.
Qed.

Lemma core_add_video (env : Env) (desk : Desktop) (p : string) (t : group) (g : Window) :
  core (Gui.add_video env desk p t g) = add_video (cv2_VideoCapture env) p t (core g).
Proof.
  unfold Gui.add_video, add_video.
  destruct (probed_duration (cv2_VideoCapture env) p =? 0)%float; [reflexivity |].
  destruct t; match goal with |- context [bool_decide ?P] => destruct (bool_decide P) end;
    reflexivity.
Qed.

(** X5: adding a file twice is the same as adding it once: the second
    call finds the path listed, or the file unreadable again, and
    changes nothing. *)
Theorem add_video_twice (cv : cv2) (video_path : string) (target : group) (a : App) :
  add_video cv video_path target (add_video cv video_path target a)
    = add_video cv video_path target a.
Proof.
  destruct (add_video_cases cv video_path target a)
    as (_ & _ & [[Hsame _] | (Hpos & Hnew & Hpaths & _)]).
  - now rewrite !Hsame.
  - destruct (add_video_cases cv video_path target (add_video cv video_path target a))
      as (_ & _ & [[Hsame _] | (_ & Habs & _)]); [exact Hsame |].
    exfalso. apply Habs. rewrite Hpaths. apply elem_of_app. right. now left.
Qed.

(** ** PairSelector: the edges *)

Lemma filter_sublist {A} (f : A -> bool) (l : list A) : List.filter f l `sublist_of` l.
Proof.
  induction l as [| x l IH]; simpl; [constructor |].
  destruct (f x); [now apply sublist_skip | now apply sublist_cons].
Qed.

(** X6: the selector never raises.  Its result is a part of the overlay
    collection, in collection order; every overlay in it has a probed
    duration above zero; and when the duration of the main asset cannot
    be probed (the probe answers 0) the result is empty. *)
Theorem get_suitable_overlay_videos_edges (cv : cv2) (overlay_video_paths : list string)
    (main_video_path : string) :
  exists suitable,
    get_suitable_overlay_videos cv overlay_video_paths main_video_path = Ret suitable /\
    suitable `sublist_of` overlay_video_paths /\
    Forall (fun p => (0 <? probed_duration cv p)%float = true) suitable /\
    (probed_duration cv main_video_path = 0%float -> suitable = []).
Proof.
  unfold get_suitable_overlay_videos.
  destruct (probed_duration_cases cv main_video_path) as [Hrun [Hz | Hpos]]; rewrite Hrun.
  - rewrite Hz. simpl. exists []. repeat split; auto. apply sublist_nil_l.
  - simpl. rewrite (float_pos_not_le0 _ Hpos), (suitable_loop_filter cv _ _ [] Hpos).
    simpl. eexists. split; [reflexivity |]. split; [apply filter_sublist |]. split.
    + apply Forall_forall. intros p Hp. apply list_elem_of_In, filter_In in Hp as [_ Hw].
      destruct (probed_duration_cases cv p) as [_ [Hp0 | Hp1]]; [| exact Hp1].
      rewrite Hp0, (in_window_zero _ Hpos) in Hw. discriminate.
    + intros Habs. rewrite Habs in Hpos. vm_compute in Hpos. discriminate.
Qed.

(** ** Editing sessions: what every edit keeps *)

Lemma collections_consistent_groups (a : App) :
  collections_consistent a <-> forall t, consistent (paths_of t a) (durations_of t a).
Proof.
  unfold collections_consistent. split.
  - intros [Hm Ho] []; assumption.
  - intros H. split; [apply (H main_group) | apply (H overlay_group)].
Qed.

Lemma consistent_snoc (paths : list string) (durations : gmap string float)
    (p : string) (d : float) :
  consistent paths durations -> p ∉ paths -> (0 <? d)%float = true ->
  consistent (paths ++ [p]) (<[p := d]> durations).
Proof.
  intros [Hnd Hall] Hnew Hd. split.
  - apply NoDup_app. split; [exact Hnd |]. split; [| apply NoDup_singleton].
    intros x Hx Hin. apply list_elem_of_singleton in Hin. now subst.
  - apply Forall_app. split.
    + rewrite Forall_forall in *. intros q Hq. destruct (Hall q Hq) as (dq & Hdq & Hpos).
      exists dq. split; [| exact Hpos]. rewrite lookup_insert_ne; [exact Hdq |].
      intros ->. contradiction.
    + constructor; [| constructor]. exists d. split; [apply lookup_insert_eq | exact Hd].
Qed.

Lemma add_video_consistent (cv : cv2) (p : string) (t : group) (a : App) :
  collections_consistent a -> collections_consistent (add_video cv p t a).
Proof.
  rewrite !collections_consistent_groups. intros H.
  destruct (add_video_cases cv p t a) as (Hop & Hod & [[Hsame _] | (Hpos & Hnew & Hp & Hd)]).
  - now rewrite Hsame.
  - assert (Ht : consistent (paths_of t (add_video cv p t a))
                            (durations_of t (add_video cv p t a))).
    { rewrite Hp, Hd. now apply consistent_snoc. }
    assert (Ho : consistent (paths_of (other t) (add_video cv p t a))
                            (durations_of (other t) (add_video cv p t a))).
    { rewrite Hop, Hod. apply H. }
    intros u. destruct t, u; assumption.
Qed.

Lemma add_video_mirrored (env : Env) (desk : Desktop) (p : string) (t : group) (g : Window) :
  mirrored env desk g -> mirrored env desk (Gui.add_video env desk p t g).
Proof.
  intros [Hm Ho]. unfold Gui.add_video.
  destruct (probed_duration (cv2_VideoCapture env) p =? 0)%float eqn:Hz; [now split |].
  destruct (add_video_cases (cv2_VideoCapture env) p t (core g)) as (Hop & Hod & _).
  destruct t; simpl in Hop, Hod;
    match goal with |- context [bool_decide ?P] => destruct (bool_decide P) end;
    try (now split); split; simpl; try reflexivity.
  - rewrite Ho. unfold update_overlay_video_list. now rewrite Hop, Hod.
  - rewrite Hm. unfold update_main_video_list. now rewrite Hop, Hod.
Qed.

(** Whatever relation between windows is reflexive, transitive and holds
    across the addition of a video file holds across a folder import and
    across a drop. *)
Section Closure.
Variable env : Env.
Variable desk : Desktop.
Variable target : group.
Variable R : Window -> Window -> Prop.
Hypothesis R_refl : forall g, R g g.
Hypothesis R_trans : forall g1 g2 g3, R g1 g2 -> R g2 g3 -> R g1 g3.
Hypothesis R_add :
  forall p g, is_video_file desk p = true -> R g (Gui.add_video env desk p target g).

Lemma import_files_closure (root : string) (files : list string) (g : Window) :
  R g (foldl (fun g file =>
                let file_path := os_path_join env root file in
                if is_video_file desk file_path
                then Gui.add_video env desk file_path target g
                else g) g files).
Proof.
  revert g. induction files as [| file files IH]; intros g; simpl; [apply R_refl |].
  eapply R_trans; [| apply IH].
  destruct (is_video_file desk (os_path_join env root file)) eqn:Hv;
    [now apply R_add | apply R_refl].
Qed.

Lemma import_folder_closure (folder_path : string) (g : Window) :
  R g (import_folder env desk folder_path target g).
Proof.
  unfold import_folder. generalize (os_walk desk folder_path). intros walk.
  revert g. induction walk as [| [root files] walk IH]; intros g; simpl; [apply R_refl |].
  eapply R_trans; [apply (import_files_closure root files g) | apply IH].
Qed.

Lemma handle_files_closure (files : list dropped) (g : Window) :
  R g (handle_files env desk files target g).
Proof.
  revert g. induction files as [| item files IH]; intros g; simpl; [apply R_refl |].
  destruct (decode_dropped desk item) as [file_path |]; [| apply IH].
  eapply R_trans; [| apply IH].
  destruct (isdir desk file_path); [apply import_folder_closure |].
  destruct (is_video_file desk file_path) eqn:Hv; [now apply R_add | apply R_refl].
Qed.
End Closure.

(** ** Removal through the list boxes *)

Lemma keep_unselected_fmap {A B} (f : A -> B) (sel : list nat) (b : nat) (l : list A) :
  keep_unselected sel b (f <$> l) = f <$> keep_unselected sel b l.
Proof.
  revert b. induction l as [| x l IH]; intros b; simpl; [reflexivity |].
  destruct (bool_decide (b ∈ sel)); simpl; now rewrite IH.
Qed.

Lemma keep_unselected_sublist {A} (sel : list nat) (b : nat) (l : list A) :
  keep_unselected sel b l `sublist_of` l.
Proof.
  revert b. induction l as [| x l IH]; intros b; simpl; [constructor |].
  destruct (bool_decide (b ∈ sel)); [apply sublist_cons | apply sublist_skip]; apply IH.
Qed.

(** The loop of the main group on rows and paths of the same length: the
    selected rows leave both. *)
Lemma Gui_remove_selected_video_loop_spec (ds : list nat) (rows paths : list string) :
  length rows = length paths ->
  StronglySorted (flip lt) ds -> Forall (fun i => i < length paths) ds ->
  Gui.remove_selected_video_loop ds rows paths
    = (keep_unselected ds 0 rows, keep_unselected ds 0 paths, Ret tt).
Proof.
  intros Hlen Hs. revert rows paths Hlen.
  induction Hs as [| i ds Hs IH Hall]; intros rows paths Hlen Hb; simpl.
  - now rewrite !keep_unselected_below.
  - apply Forall_cons in Hb as [Hi Hb].
    rewrite decide_True by exact Hi.
    assert (Hlt : Forall (fun j => j < i) ds).
    { eapply Forall_impl; [exact Hall | unfold flip; simpl; lia]. }
    rewrite IH.
    + now rewrite (keep_unselected_delete ds 0 i rows), (keep_unselected_delete ds 0 i paths).
    + rewrite !length_delete by (apply lookup_lt_is_Some_2; lia). lia.
    + rewrite length_delete by now apply lookup_lt_is_Some_2.
      eapply Forall_impl; [exact Hlt | simpl; lia].
Qed.

Lemma Forall_rev_selected (P : nat -> Prop) (sel : list nat) :
  Forall P sel -> Forall P (rev sel).
Proof.
  rewrite !Forall_forall. intros H i Hi. apply H. now apply elem_of_rev.
Qed.

Lemma Gui_remove_selected_video_spec (selected : list nat) (g : Window) :
  length (video_listbox g) = length (main_video_paths (core g)) ->
  StronglySorted lt selected -> Forall (fun i => i < length (video_listbox g)) selected ->
  Gui.remove_selected_video selected g =
    ({| core := set_main_video_paths (keep_unselected selected 0 (main_video_paths (core g)))
                  (core g);
        video_listbox := keep_unselected selected 0 (video_listbox g);
        overlay_listbox := overlay_listbox g |}, Ret tt).
Proof.
  intros Hlen Hs Hb. unfold Gui.remove_selected_video.
  rewrite Gui_remove_selected_video_loop_spec.
  - assert (Hrev : forall i, i ∈ rev selected <-> i ∈ selected) by (intros; apply elem_of_rev).
    now rewrite !(keep_unselected_ext _ _ 0 _ Hrev).
  - exact Hlen.
  - now apply StronglySorted_rev_lt.
  - apply Forall_rev_selected. now rewrite <- Hlen.
Qed.

Lemma Gui_remove_selected_overlay_spec (env : Env) (desk : Desktop) (selected : list nat)
    (g : Window) :
  StronglySorted lt selected ->
  Forall (fun i => i < length (overlay_video_paths (core g))) selected ->
  exists g',
    Gui.remove_selected_overlay env desk selected g = (g', Ret tt) /\
    main_video_paths (core g') = main_video_paths (core g) /\
    main_video_durations (core g') = main_video_durations (core g) /\
    video_listbox g' = video_listbox g /\
    overlay_video_paths (core g')
      = keep_unselected selected 0 (overlay_video_paths (core g)) /\
    (forall path, (forall i, i ∈ selected -> overlay_video_paths (core g) !! i <> Some path) ->
                  overlay_video_durations (core g') !! path
                    = overlay_video_durations (core g) !! path) /\
    (forall i path, i ∈ selected -> overlay_video_paths (core g) !! i = Some path ->
                    overlay_video_durations (core g') !! path = None) /\
    (forall path, overlay_video_durations (core g) !! path = None ->
                  overlay_video_durations (core g') !! path = None) /\
    (selected = [] \/ overlay_listbox g' = update_overlay_video_list env desk (core g')) /\
    (selected = [] -> g' = g).
Proof.
  intros Hs Hb.
  assert (Hrev : forall i, i ∈ rev selected <-> i ∈ selected) by (intros; apply elem_of_rev).
  destruct (remove_selected_overlay_loop_spec (rev selected) (overlay_video_paths (core g))
              (overlay_video_durations (core g))) as [d' [Hrun [Hmono [Hgone Hkept]]]].
  { now apply StronglySorted_rev_lt. }
  { now apply Forall_rev_selected. }
  rewrite (keep_unselected_ext _ _ 0 _ Hrev) in Hrun.
  destruct selected as [| i0 rest] eqn:Hsel.
  - exists g. simpl. rewrite keep_unselected_below by constructor.
    repeat split; auto. intros i path Hi. inversion Hi.
  - rewrite <- Hsel in *. unfold Gui.remove_selected_overlay, remove_selected_overlay.
    rewrite Hsel, <- Hsel, Hrun. eexists. split; [reflexivity |]. simpl.
    repeat split; auto.
    + intros path Hpath. apply Hkept. intros i Hi. apply Hpath, Hrev, Hi.
    + intros i path Hi. apply Hgone, Hrev, Hi.
    + intros ->. discriminate.
Qed.

Lemma keep_unselected_kept {A} (sel : list nat) (b : nat) (l : list A) (k : nat) (x : A) :
  l !! k = Some x -> (b + k) ∉ sel -> x ∈ keep_unselected sel b l.
Proof.
  revert b k. induction l as [| y l IH]; intros b k Hk Hn; [discriminate |].
  simpl. destruct k as [| k]; simpl in Hk.
  - injection Hk as ->. rewrite Nat.add_0_r in Hn.
    rewrite bool_decide_eq_false_2 by exact Hn. now left.
  - assert (Hin : x ∈ keep_unselected sel (S b) l).
    { apply (IH (S b) k Hk). now replace (S b + k) with (b + S k) by lia. }
    destruct (bool_decide (b ∈ sel)); [exact Hin | now right].
Qed.

Lemma add_video_overlay_index (cv : cv2) (p : string) (t : group) (a : App) :
  overlay_index_exact a -> overlay_index_exact (add_video cv p t a).
Proof.
  unfold overlay_index_exact. intros H.
  destruct (add_video_cases cv p t a) as (Hop & Hod & [[Hsame _] | (_ & _ & Hp & Hd)]).
  - now rewrite Hsame.
  - destruct t; simpl in *.
    + now rewrite Hop, Hod.
    + rewrite Hp, Hd, dom_insert_L, list_to_set_app_L, H. simpl.
      rewrite union_empty_r_L. apply union_comm_L.
Qed.

Lemma consistent_keep_unselected (sel : list nat) (paths : list string)
    (durations durations' : gmap string float) :
  consistent paths durations ->
  (forall path, (forall i, i ∈ sel -> paths !! i <> Some path) ->
                durations' !! path = durations !! path) ->
  consistent (keep_unselected sel 0 paths) durations'.
Proof.
  intros [Hnd Hall] Hkept. split.
  - eapply sublist_NoDup; [exact Hnd | apply keep_unselected_sublist].
  - rewrite Forall_forall in *. intros x Hx.
    destruct (keep_unselected_elem sel 0 paths x Hx) as (k & Hk & Hn).
    destruct (Hall x) as (d & Hd & Hpos); [eapply list_elem_of_lookup_2; eauto |].
    exists d. split; [| exact Hpos]. rewrite Hkept; [exact Hd |].
    intros i Hi Hlook. rewrite (NoDup_lookup paths i k x Hnd Hlook Hk) in Hi. now apply Hn.
Qed.

(** Every state of a session is consistent and mirrored, and its overlay
    index is exact. *)
Lemma session_invariant (env : Env) (desk : Desktop) (g : Window) :
  session env desk g -> session_ok env desk g.
Proof.
  assert (Hadd : forall t p g0,
             session_ok env desk g0 -> session_ok env desk (Gui.add_video env desk p t g0)).
  { intros t p g0 (Hc & Hm & Hx). split; [| split].
    - rewrite core_add_video. now apply add_video_consistent.
    - now apply add_video_mirrored.
    - rewrite core_add_video. now apply add_video_overlay_index. }
  induction 1 as [ffmpeg | g p t _ IH | g folder t _ IH | g files t _ IH
                  | g sel _ IH Hs Hb | g sel _ IH Hs Hb].
  - split; [split; split; constructor | split; [split; reflexivity |]].
    unfold overlay_index_exact. simpl. apply dom_empty_L.
  - now apply Hadd.
  - revert IH.
    apply (import_folder_closure env desk t
             (fun g1 g2 => session_ok env desk g1 -> session_ok env desk g2)); auto.
  - revert IH.
    apply (handle_files_closure env desk t
             (fun g1 g2 => session_ok env desk g1 -> session_ok env desk g2)); auto.
  - destruct IH as ([Hcm Hco] & [Hmm Hmo] & Hx).
    assert (Hlen : length (video_listbox g) = length (main_video_paths (core g))).
    { rewrite Hmm. unfold update_main_video_list. apply length_fmap. }
    rewrite Gui_remove_selected_video_spec by assumption. simpl.
    split; [split | split; [split |]]; simpl.
    + now apply (consistent_keep_unselected sel _ (main_video_durations (core g))).
    + exact Hco.
    + rewrite Hmm. unfold update_main_video_list. simpl. apply keep_unselected_fmap.
    + exact Hmo.
    + exact Hx.
  - destruct IH as ([Hcm Hco] & [Hmm Hmo] & Hx).
    assert (Hlen : length (overlay_listbox g) = length (overlay_video_paths (core g))).
    { rewrite Hmo. unfold update_overlay_video_list. apply length_fmap. }
    rewrite Hlen in Hb.
    destruct (Gui_remove_selected_overlay_spec env desk sel g Hs Hb)
      as (g' & Hrun & Hp & Hd & Hv & Hop & Hod & Hgone & Hmono & Hrows & Hnil).
    rewrite Hrun. simpl.
    destruct sel as [| i0 rest] eqn:Hsel;
      [rewrite (Hnil eq_refl); split; [split | split; [split |]]; assumption |].
    rewrite <- Hsel in *.
    destruct Hrows as [Habs | Hrows]; [congruence |].
    split; [split | split; [split |]].
    + now rewrite Hp, Hd.
    + rewrite Hop. now apply (consistent_keep_unselected _ _ (overlay_video_durations (core g))).
    + rewrite Hv, Hmm. unfold update_main_video_list. now rewrite Hp, Hd.
    + exact Hrows.
    + unfold overlay_index_exact in *. rewrite Hop.
      destruct Hco as [Hnd _]. apply set_eq. intros x.
      rewrite elem_of_dom, elem_of_list_to_set. split.
      * intros Hsome.
        assert (Hx0 : x ∈ overlay_video_paths (core g)).
        { assert (Hd0 : x ∈ dom (overlay_video_durations (core g))).
          { apply elem_of_dom.
            destruct (overlay_video_durations (core g) !! x) eqn:Hlook; [eauto |].
            rewrite (Hmono x Hlook) in Hsome. destruct Hsome; discriminate. }
          rewrite Hx in Hd0. now apply elem_of_list_to_set in Hd0. }
        apply list_elem_of_lookup in Hx0 as [k Hk].
        apply (keep_unselected_kept sel 0 _ k x Hk). simpl. intros Hin.
        rewrite (Hgone k x Hin Hk) in Hsome. destruct Hsome; discriminate.
      * intros Hin.
        destruct (keep_unselected_elem sel 0 _ x Hin) as (k & Hk & Hn).
        rewrite Hod.
        -- apply elem_of_dom. rewrite Hx, elem_of_list_to_set.
           eapply list_elem_of_lookup_2; eauto.
        -- intros i Hi Hlook. rewrite (NoDup_lookup _ i k x Hnd Hlook Hk) in Hi.
           now apply Hn.
Qed.

(** X7: in every state of an editing session (files added, folders
    imported, items dropped, selected rows removed, in any order)
    neither collection lists a path twice, and every listed path has a
    duration above zero in the index of its group. *)
Theorem session_collections_consistent (env : Env) (desk : Desktop) (g : Window) :
  session env desk g -> collections_consistent (core g).
Proof. intros H. exact (proj1 (session_invariant env desk g H)). Qed.

(** X8: in every state of an editing session each list box shows its
    collection row for row, so a selection of the list box is a set of
    positions of the collection: removing it never raises and takes out
    exactly the selected rows and the paths at the same positions. *)
Theorem session_listboxes_mirror (env : Env) (desk : Desktop) (g : Window) :
  session env desk g ->
  mirrored env desk g /\
  (forall selected,
      StronglySorted lt selected -> Forall (fun i => i < length (video_listbox g)) selected ->
      exists g', Gui.remove_selected_video selected g = (g', Ret tt) /\
                 main_video_paths (core g')
                   = keep_unselected selected 0 (main_video_paths (core g)) /\
                 video_listbox g' = keep_unselected selected 0 (video_listbox g)) /\
  (forall selected,
      StronglySorted lt selected -> Forall (fun i => i < length (overlay_listbox g)) selected ->
      exists g', Gui.remove_selected_overlay env desk selected g = (g', Ret tt) /\
                 overlay_video_paths (core g')
                   = keep_unselected selected 0 (overlay_video_paths (core g)) /\
                 overlay_listbox g' = keep_unselected selected 0 (overlay_listbox g)).
Proof.
  intros H. destruct (session_invariant env desk g H) as (_ & [Hmm Hmo] & _).
  split; [now split |]. split.
  - intros sel Hs Hb. eexists. split; [| split].
    + apply Gui_remove_selected_video_spec; [| assumption | assumption].
      rewrite Hmm. unfold update_main_video_list. apply length_fmap.
    + reflexivity.
    + reflexivity.
  - intros sel Hs Hb.
    assert (Hnext : session env desk (fst (Gui.remove_selected_overlay env desk sel g)))
      by now apply session_remove_overlay.
    destruct (session_invariant env desk _ Hnext) as (_ & [_ Hmo'] & _).
    assert (Hlen : length (overlay_listbox g) = length (overlay_video_paths (core g))).
    { rewrite Hmo. unfold update_overlay_video_list. apply length_fmap. }
    rewrite Hlen in Hb.
    destruct (Gui_remove_selected_overlay_spec env desk sel g Hs Hb)
      as (g' & Hrun & _ & _ & _ & Hop & Hod & _).
    rewrite Hrun in Hmo'. simpl in Hmo'.
    exists g'. split; [exact Hrun |]. split; [exact Hop |].
    rewrite Hmo', Hmo. unfold update_overlay_video_list. rewrite Hop.
    rewrite keep_unselected_fmap.
    apply list_fmap_ext. intros k x Hk.
    unfold row. rewrite Hod; [reflexivity |].
    intros i Hi Hlook.
    assert (Hx : x ∈ keep_unselected sel 0 (overlay_video_paths (core g)))
      by (eapply list_elem_of_lookup_2; eauto).
    destruct (session_invariant env desk g H) as ([_ [Hnd _]] & _).
    exact (keep_unselected_removed sel _ i x Hnd Hi Hlook Hx).
Qed.

(** X9: in every state of an editing session the keys of the overlay
    duration index are exactly the listed overlay paths: removal leaves
    no stale entry there.  For the main group the index holds at least
    the listed paths (it keeps the entries of removed paths). *)
Theorem session_duration_indexes (env : Env) (desk : Desktop) (g : Window) :
  session env desk g ->
  dom (overlay_video_durations (core g)) = list_to_set (overlay_video_paths (core g)) /\
  forall p, p ∈ main_video_paths (core g) -> p ∈ dom (main_video_durations (core g)).
Proof.
  intros H. destruct (session_invariant env desk g H) as ([[_ Hmain] _] & _ & Hexact).
  split; [exact Hexact |].
  intros p Hp. rewrite Forall_forall in Hmain.
  destruct (Hmain p Hp) as (d & Hd & _). apply elem_of_dom. eauto.
Qed.

Lemma StronglySorted_seq (b n : nat) : StronglySorted lt (seq b n).
Proof.
  revert b. induction n as [| n IH]; intros b; simpl; constructor; [apply IH |].
  apply Forall_seq. intros j Hj. lia.
Qed.

Lemma keep_unselected_all {A} (sel : list nat) (b : nat) (l : list A) :
  (forall i, b <= i < b + length l -> i ∈ sel) -> keep_unselected sel b l = [].
Proof.
  revert b. induction l as [| x l IH]; intros b Hall; simpl; [reflexivity |].
  rewrite bool_decide_eq_true_2 by (apply Hall; simpl; lia).
  apply IH. intros i Hi. apply Hall. simpl. lia.
Qed.

(** X10: selecting every row of a list box and removing the selection
    empties the collection and the list box; for group B it also empties
    the duration index. *)
Theorem select_all_then_remove (env : Env) (desk : Desktop) (g : Window) :
  session env desk g ->
  (exists g', Gui.remove_selected_video (select_all_files (video_listbox g)) g
                = (g', Ret tt) /\
              main_video_paths (core g') = [] /\ video_listbox g' = []) /\
  (exists g', Gui.remove_selected_overlay env desk (select_all_files (overlay_listbox g)) g
                = (g', Ret tt) /\
              overlay_video_paths (core g') = [] /\ overlay_listbox g' = [] /\
              overlay_video_durations (core g') = ∅).
Proof.
  intros H. destruct (session_invariant env desk g H) as (_ & [Hmm Hmo] & _).
  assert (Hlm : length (video_listbox g) = length (main_video_paths (core g))).
  { rewrite Hmm. unfold update_main_video_list. apply length_fmap. }
  assert (Hlo : length (overlay_listbox g) = length (overlay_video_paths (core g))).
  { rewrite Hmo. unfold update_overlay_video_list. apply length_fmap. }
  unfold select_all_files. split.
  - eexists. split; [| split].
    + apply Gui_remove_selected_video_spec; [exact Hlm | apply StronglySorted_seq |].
      apply Forall_seq. intros j Hj. lia.
    + simpl. apply keep_unselected_all. intros i Hi. apply elem_of_seq. lia.
    + simpl. apply keep_unselected_all. intros i Hi. apply elem_of_seq. lia.
  - assert (Hs : StronglySorted lt (seq 0 (length (overlay_listbox g))))
      by apply StronglySorted_seq.
    assert (Hb : Forall (fun i => i < length (overlay_listbox g))
                        (seq 0 (length (overlay_listbox g))))
      by (apply Forall_seq; intros j Hj; lia).
    pose proof (session_remove_overlay env desk g _ H Hs Hb) as Hnext.
    destruct (session_invariant env desk _ Hnext) as (_ & [_ Hmo'] & Hexact').
    assert (Hb' : Forall (fun i => i < length (overlay_video_paths (core g)))
                         (seq 0 (length (overlay_listbox g))))
      by (apply Forall_seq; intros j Hj; lia).
    destruct (Gui_remove_selected_overlay_spec env desk _ g Hs Hb')
      as (g' & Hrun & _ & _ & _ & Hop & _).
    rewrite Hrun in Hmo', Hexact'. simpl in Hmo', Hexact'.
    assert (Hempty : overlay_video_paths (core g') = []).
    { rewrite Hop. apply keep_unselected_all. intros i Hi. apply elem_of_seq. lia. }
    exists g'. split; [exact Hrun |]. split; [exact Hempty |]. split.
    + rewrite Hmo'. unfold update_overlay_video_list. now rewrite Hempty.
    + unfold overlay_index_exact in Hexact'. rewrite Hempty in Hexact'.
      now apply dom_empty_inv_L in Hexact'.
Qed.

(** ** Import: what a folder import and a drop add *)

Lemma Gui_add_video_absorbed (env : Env) (desk : Desktop) (p : string) (t : group)
    (g : Window) :
  probed_duration (cv2_VideoCapture env) p = 0%float \/ p ∈ paths_of t (core g) ->
  Gui.add_video env desk p t g = g.
Proof.
  intros H. unfold Gui.add_video.
  destruct (probed_duration (cv2_VideoCapture env) p =? 0)%float eqn:Hz; [reflexivity |].
  destruct H as [H | H]; [rewrite H in Hz; discriminate Hz |].
  destruct t; simpl in H; now rewrite bool_decide_eq_true_2.
Qed.

(** The import is a single loop over the files of the walk. *)
Lemma import_folder_flat (env : Env) (desk : Desktop) (folder_path : string) (t : group)
    (g : Window) :
  import_folder env desk folder_path t g
    = foldl (import_file env desk t) g (walked_files env desk folder_path).
Proof.
  unfold import_folder, walked_files. generalize (os_walk desk folder_path). intros walk.
  revert g. induction walk as [| [root files] walk IH]; intros g; [reflexivity |].
  rewrite bind_cons, foldl_app, foldl_fmap. simpl. apply IH.
Qed.

(** What the loop appends: files of the list that are video files by
    their name and have a duration above zero. *)
Lemma import_files_appended (env : Env) (desk : Desktop) (t : group) (l : list string)
    (g : Window) :
  let g' := foldl (import_file env desk t) g l in
  paths_of (other t) (core g') = paths_of (other t) (core g) /\
  durations_of (other t) (core g') = durations_of (other t) (core g) /\
  exists added,
    paths_of t (core g') = paths_of t (core g) ++ added /\
    Forall (fun p => p ∈ l /\ is_video_file desk p = true /\
                     (0 <? probed_duration (cv2_VideoCapture env) p)%float = true) added.
Proof.
  revert g. induction l as [| p l IH]; intros g; simpl.
  - split; [reflexivity |]. split; [reflexivity |]. exists []. now rewrite app_nil_r.
  - destruct (IH (import_file env desk t g p)) as (Hop & Hod & added & Hp & Hall).
    assert (Hlater : Forall (fun q => q ∈ p :: l /\ is_video_file desk q = true /\
                         (0 <? probed_duration (cv2_VideoCapture env) q)%float = true) added).
    { eapply Forall_impl; [exact Hall |]. simpl. intros q (? & ? & ?).
      split; [now right | auto]. }
    unfold import_file in *. destruct (is_video_file desk p) eqn:Hv.
    + rewrite core_add_video in Hop, Hod, Hp.
      destruct (add_video_cases (cv2_VideoCapture env) p t (core g))
        as (Hop1 & Hod1 & [[Hsame _] | (Hpos & _ & Hp1 & _)]).
      * rewrite Hsame in *. eauto 10.
      * rewrite Hop1 in Hop. rewrite Hod1 in Hod. rewrite Hp1, <- app_assoc in Hp.
        split; [exact Hop |]. split; [exact Hod |].
        exists ([p] ++ added). split; [exact Hp |].
        apply Forall_app. split; [| exact Hlater].
        constructor; [| constructor]. split; [now left | auto].
    + eauto 10.
Qed.

(** Every video file of the list that has a duration above zero is
    listed after the loop. *)
Lemma import_files_complete (env : Env) (desk : Desktop) (t : group) (l : list string)
    (g : Window) (p : string) :
  p ∈ paths_of t (core g) \/
  (p ∈ l /\ is_video_file desk p = true /\
   (0 <? probed_duration (cv2_VideoCapture env) p)%float = true) ->
  p ∈ paths_of t (core (foldl (import_file env desk t) g l)).
Proof.
  revert g. induction l as [| q l IH]; intros g; simpl.
  - intros [H | [H _]]; [exact H | inversion H].
  - intros H. apply IH.
    assert (Hmono : p ∈ paths_of t (core g) ->
                    p ∈ paths_of t (core (import_file env desk t g q))).
    { intros Hin. unfold import_file. destruct (is_video_file desk q); [| exact Hin].
      rewrite core_add_video.
      destruct (add_video_cases (cv2_VideoCapture env) q t (core g))
        as (_ & _ & [[Hsame _] | (_ & _ & Hp1 & _)]).
      - now rewrite Hsame.
      - rewrite Hp1. apply elem_of_app. now left. }
    destruct H as [H | (Hin & Hv & Hpos)]; [left; now apply Hmono |].
    apply elem_of_cons in Hin as [-> | Hin]; [| right; auto].
    left. unfold import_file. rewrite Hv, core_add_video.
    destruct (add_video_cases (cv2_VideoCapture env) q t (core g))
      as (_ & _ & [[Hsame [Hz | Hl]] | (_ & _ & Hp1 & _)]).
    + rewrite Hz in Hpos. vm_compute in Hpos. discriminate.
    + now rewrite Hsame.
    + rewrite Hp1. apply elem_of_app. right. now left.
Qed.

(** X11: a folder import only appends to the target collection and
    leaves the other group alone.  What it appends are files of the walk
    that are video files by their name and whose probed duration is above
    zero; and every such file of the walk is listed afterwards. *)
Theorem import_folder_spec (env : Env) (desk : Desktop) (folder_path : string)
    (target : group) (g : Window) :
  let g' := import_folder env desk folder_path target g in
  paths_of (other target) (core g') = paths_of (other target) (core g) /\
  durations_of (other target) (core g') = durations_of (other target) (core g) /\
  (exists added,
      paths_of target (core g') = paths_of target (core g) ++ added /\
      Forall (fun p => p ∈ walked_files env desk folder_path /\
                       is_video_file desk p = true /\
                       (0 <? probed_duration (cv2_VideoCapture env) p)%float = true) added) /\
  (forall p, p ∈ walked_files env desk folder_path -> is_video_file desk p = true ->
             (0 <? probed_duration (cv2_VideoCapture env) p)%float = true ->
             p ∈ paths_of target (core g')).
Proof.
  intros g'. subst g'. rewrite import_folder_flat.
  destruct (import_files_appended env desk target (walked_files env desk folder_path) g)
    as (Hop & Hod & Hadded).
  split; [exact Hop |]. split; [exact Hod |]. split; [exact Hadded |].
  intros p Hin Hv Hpos. apply import_files_complete. right. auto.
Qed.

(** X12: importing the same folder twice in a row is the same as
    importing it once (as long as the walk and the probes answer the
    same): the second pass finds every file listed or unreadable. *)
Theorem import_folder_twice (env : Env) (desk : Desktop) (folder_path : string)
    (target : group) (g : Window) :
  import_folder env desk folder_path target (import_folder env desk folder_path target g)
    = import_folder env desk folder_path target g.
Proof.
  rewrite !import_folder_flat.
  set (l := walked_files env desk folder_path).
  set (g1 := foldl (import_file env desk target) g l).
  assert (Hfix : forall p, p ∈ l -> import_file env desk target g1 p = g1).
  { intros p Hin. unfold import_file. destruct (is_video_file desk p) eqn:Hv; [| reflexivity].
    apply Gui_add_video_absorbed.
    destruct (probed_duration_cases (cv2_VideoCapture env) p) as [_ [Hz | Hpos]];
      [now left | right].
    apply import_files_complete. right. auto. }
  clearbody g1. induction l as [| p l IH]; simpl; [reflexivity |].
  rewrite Hfix by now left. apply IH. intros q Hq. apply Hfix. now right.
Qed.

Lemma videos_appended_refl (env : Env) (desk : Desktop) (t : group) (g : Window) :
  videos_appended env desk t g g.
Proof.
  split; [reflexivity |]. split; [reflexivity |]. exists []. now rewrite app_nil_r.
Qed.

Lemma videos_appended_trans (env : Env) (desk : Desktop) (t : group) (g1 g2 g3 : Window) :
  videos_appended env desk t g1 g2 -> videos_appended env desk t g2 g3 ->
  videos_appended env desk t g1 g3.
Proof.
  intros (Hp1 & Hd1 & l1 & Hl1 & Ha1) (Hp2 & Hd2 & l2 & Hl2 & Ha2).
  split; [congruence |]. split; [congruence |].
  exists (l1 ++ l2). split; [now rewrite Hl2, Hl1, app_assoc | now apply Forall_app].
Qed.

Lemma videos_appended_add (env : Env) (desk : Desktop) (t : group) (p : string) (g : Window) :
  is_video_file desk p = true -> videos_appended env desk t g (Gui.add_video env desk p t g).
Proof.
  intros Hv. unfold videos_appended. rewrite core_add_video.
  destruct (add_video_cases (cv2_VideoCapture env) p t (core g))
    as (Hop & Hod & [[Hsame _] | (Hpos & _ & Hp & _)]).
  - rewrite Hsame. split; [reflexivity |]. split; [reflexivity |].
    exists []. now rewrite app_nil_r.
  - split; [exact Hop |]. split; [exact Hod |]. exists [p]. split; [exact Hp |].
    constructor; [auto | constructor].
Qed.

(** X13: a drop only appends to the target collection, and only files
    that are video files by their name with a probed duration above zero
    (dropped directly or found in a dropped folder); the other group is
    left alone.  Items that cannot be decoded, and files that are neither
    a directory nor a video file by their name, are skipped: a drop of
    such items alone changes nothing. *)
Theorem handle_files_spec (env : Env) (desk : Desktop) (files : list dropped)
    (target : group) (g : Window) :
  videos_appended env desk target g (handle_files env desk files target g) /\
  (Forall (fun item => match decode_dropped desk item with
                       | None => True
                       | Some file_path =>
                           isdir desk file_path = false /\
                           is_video_file desk file_path = false
                       end) files ->
   handle_files env desk files target g = g).
Proof.
  split.
  - apply (handle_files_closure env desk target (videos_appended env desk target)).
    + apply videos_appended_refl.
    + apply videos_appended_trans.
    + intros p g0. apply videos_appended_add.
  - induction 1 as [| item files Hitem _ IH]; simpl; [reflexivity |].
    destruct (decode_dropped desk item) as [file_path |]; [| exact IH].
    destruct Hitem as [-> ->]. exact IH.
Qed.

(** ** Start-up: where the encoder is looked for *)

Lemma first_on_path_spec (env : Env) (exists_ : string -> bool) (directories : list string) :
  (Forall (fun d => exists_ (os_path_join env d "ffmpeg.exe") = false) directories /\
   first_on_path env exists_ directories = "ffmpeg"%string) \/
  (exists before d after,
      directories = before ++ d :: after /\
      Forall (fun d => exists_ (os_path_join env d "ffmpeg.exe") = false) before /\
      exists_ (os_path_join env d "ffmpeg.exe") = true /\
      first_on_path env exists_ directories = os_path_join env d "ffmpeg.exe").
Proof.
  induction directories as [| d rest IH]; simpl.
  - left. split; [constructor | reflexivity].
  - destruct (exists_ (os_path_join env d "ffmpeg.exe")) eqn:Hd.
    + right. exists [], d, rest. repeat split; auto.
    + destruct IH as [[Hnone Hres] | (before & d' & after & -> & Hb & Hd' & Hres)].
      * left. split; [now constructor | exact Hres].
      * right. exists (d :: before), d', after. repeat split; auto.
Qed.

(** X14: [get_ffmpeg_path] returns the copy of [ffmpeg.exe] that lies
    beside the script when there is one, without reading [PATH];
    otherwise the one in the first directory of [PATH], in the order of
    the variable, that holds one; otherwise the bare command name
    [ffmpeg].  A path it returns other than that bare name exists.  It
    raises only when there is no local copy and [PATH] is not set. *)
Theorem get_ffmpeg_path_spec (env : Env) (exists_ : string -> bool) (current_dir : string)
    (PATH : option string) :
  let candidate := fun d => os_path_join env d "ffmpeg.exe" in
  (exists_ (candidate current_dir) = true ->
   get_ffmpeg_path env exists_ current_dir PATH = Ret (candidate current_dir)) /\
  (forall p, get_ffmpeg_path env exists_ current_dir PATH = Ret p ->
             p = "ffmpeg"%string \/ exists_ p = true) /\
  (forall value, exists_ (candidate current_dir) = false -> PATH = Some value ->
     (Forall (fun d => exists_ (candidate d) = false) (split ";"%char value) /\
      get_ffmpeg_path env exists_ current_dir PATH = Ret "ffmpeg"%string) \/
     (exists before d after,
         split ";"%char value = before ++ d :: after /\
         Forall (fun d => exists_ (candidate d) = false) before /\
         exists_ (candidate d) = true /\
         get_ffmpeg_path env exists_ current_dir PATH = Ret (candidate d))) /\
  ((exists e, get_ffmpeg_path env exists_ current_dir PATH = Raise e) <->
   exists_ (candidate current_dir) = false /\ PATH = None).
Proof.
  intros candidate. unfold get_ffmpeg_path. fold (candidate current_dir).
  destruct (exists_ (candidate current_dir)) eqn:Hlocal.
  - split; [reflexivity |]. split; [intros p [= <-]; now right |].
    split; [discriminate |]. split; [intros [e He]; discriminate | intros [? _]; discriminate].
  - split; [discriminate |].
    destruct PATH as [value |].
    + pose proof (first_on_path_spec env exists_ (split ";"%char value)) as Hloop.
      split; [| split].
      * intros p [= <-].
        destruct Hloop as [[_ ->] | (before & d & after & _ & _ & Hd & ->)]; auto.
      * intros value' _ [= <-].
        destruct Hloop as [[Hnone ->] | (before & d & after & Heq & Hb & Hd & ->)];
          [left; auto | right; exists before, d, after; auto].
      * split; [intros [e He]; discriminate | intros [_ ?]; discriminate].
    + split; [discriminate |]. split; [discriminate |].
      split; [auto | intros _; eauto].
Qed.

(** ** Start of a batch *)

(** X15: [start_processing] starts the driver exactly when both
    collections hold a path and the thread can be started; the flags are
    then [processing] set and [paused] cleared, nothing else changes, and
    on an idle application (no process registered, every slot free) the
    batch starts in an initial state of the transition system.  With an
    empty collection nothing changes at all; when the thread cannot be
    started the flag is lowered again. *)
Theorem start_processing_spec (Thread_start : res unit) (a : App) :
  let a' := fst (start_processing Thread_start a) in
  let started := snd (start_processing Thread_start a) in
  (started = true <->
   main_video_paths a <> [] /\ overlay_video_paths a <> [] /\ Thread_start = Ret tt) /\
  (main_video_paths a = [] \/ overlay_video_paths a = [] -> a' = a) /\
  (started = true ->
   a' = set_paused false (set_processing true a) /\
   (current_processes a = ∅ -> processing_semaphore a = max_concurrent_processes a ->
    initial {| app := a'; driver := DLoop 0; threads := [] |})) /\
  (started = false -> main_video_paths a <> [] -> overlay_video_paths a <> [] ->
   processing a' = false /\ paused a' = false).
Proof.
  unfold start_processing.
  destruct (main_video_paths a) as [| m ms] eqn:Hm.
  { simpl. repeat split; try congruence; try tauto; intros; try discriminate; tauto. }
  destruct (overlay_video_paths a) as [| o os] eqn:Ho.
  { simpl. repeat split; try congruence; try tauto; intros; try discriminate; tauto. }
  destruct Thread_start as [[] | e]; simpl.
  - split; [split; [intros _; repeat split; discriminate | reflexivity] |].
    split; [intros [H | H]; discriminate |].
    split; [| discriminate].
    intros _. split; [reflexivity |]. intros Hmap Hsem.
    exists a. rewrite Hm, Ho. repeat split; try discriminate; assumption.
  - split; [split; [discriminate | intros (_ & _ & H); discriminate] |].
    split; [intros [H | H]; discriminate |].
    split; [discriminate |]. intros _ _ _. split; reflexivity.
Qed.

(** ** MediaProbe: the dimensions *)

(** X16: [get_video_dimensions] always returns and never raises; it
    runs the external probe once and changes neither the application
    object nor the files.  What the external probe prints, when it is not
    blank and parses, is returned as it is.  Otherwise the answer comes
    from the capture properties, and it is a pair only when the container
    opens and both numbers are above zero; in every other case
    (including any exception) it is [None]. *)
Theorem get_video_dimensions_spec (env : Env) (video_path : string) (w : World) :
  let probe := probe_cmd (ffmpeg_path (self w)) video_path in
  exists r w',
    get_video_dimensions env video_path w = Some (Ret r, w') /\
    self w' = self w /\ files w' = files w /\
    spawned w' = spawned w ++ [probe] /\
    (forall out dimensions,
        subprocess_run env probe = Ret out -> is_blank (stdout out) = false ->
        parse_dimensions env (stdout out) = Ret dimensions -> r = Some dimensions) /\
    ((forall out, subprocess_run env probe = Ret out ->
                  is_blank (stdout out) = true \/
                  exists e, parse_dimensions env (stdout out) = Raise e) ->
     match r with
     | Some (width, height) =>
         (0 < width)%Z /\ (0 < height)%Z /\
         exists cap raw_width raw_height,
           cv2_VideoCapture env video_path = Ret cap /\ isOpened cap = Ret true /\
           get_CAP_PROP_FRAME_WIDTH cap = Ret raw_width /\ py_int raw_width = Ret width /\
           get_CAP_PROP_FRAME_HEIGHT cap = Ret raw_height /\ py_int raw_height = Ret height
     | None => True
     end).
Proof.
  intros probe.
  assert (Hcv : forall w0 : World,
             exists r,
               try_exceptM
                 (lift (cap ← cv2_VideoCapture env video_path;
                        opened ← isOpened cap;
                        if negb opened then Raise (Exception "cannot open the video file")
                        else
                          raw_width ← get_CAP_PROP_FRAME_WIDTH cap;
                          width ← py_int raw_width;
                          raw_height ← get_CAP_PROP_FRAME_HEIGHT cap;
                          height ← py_int raw_height;
                          _ ← release cap;
                          if (0 <? width)%Z && (0 <? height)%Z then Ret (Some (width, height))
                          else Raise (Exception "the dimensions are not valid")))
                 (fun _ => mret None) w0 = Some (Ret r, w0) /\
               match r with
               | Some (width, height) =>
                   (0 < width)%Z /\ (0 < height)%Z /\
                   exists cap raw_width raw_height,
                     cv2_VideoCapture env video_path = Ret cap /\ isOpened cap = Ret true /\
                     get_CAP_PROP_FRAME_WIDTH cap = Ret raw_width /\
                     py_int raw_width = Ret width /\
                     get_CAP_PROP_FRAME_HEIGHT cap = Ret raw_height /\
                     py_int raw_height = Ret height
               | None => True
               end).
  { intros w0. unfold try_exceptM, lift. run_step.
    destruct (cv2_VideoCapture env video_path) as [cap | e] eqn:Hcap; simpl;
      [| exists None; auto].
    destruct (isOpened cap) as [[|] | e] eqn:Hopen; simpl; try (exists None; auto; fail).
    destruct (get_CAP_PROP_FRAME_WIDTH cap) as [rw | e] eqn:Hrw; simpl; [| exists None; auto].
    destruct (py_int rw) as [wd | e] eqn:Hwd; simpl; [| exists None; auto].
    destruct (get_CAP_PROP_FRAME_HEIGHT cap) as [rh | e] eqn:Hrh; simpl;
      [| exists None; auto].
    destruct (py_int rh) as [ht | e] eqn:Hht; simpl; [| exists None; auto].
    destruct (release cap) as [[] | e]; simpl; [| exists None; auto].
    destruct (Z.ltb_spec 0 wd); simpl; [| exists None; auto].
    destruct (Z.ltb_spec 0 ht); simpl; [| exists None; auto].
    exists (Some (wd, ht)). split; [reflexivity |]. split; [assumption |].
    split; [assumption |]. exists cap, rw, rh. auto 10. }
  unfold get_video_dimensions.
  match goal with |- exists r w', (mbind ?k ?A) w = _ /\ _ => set (first := A); set (k0 := k) end.
  assert (HA : exists pa,
             first w = Some (Ret pa, log_spawn probe w) /\
             match pa with
             | Some d => exists out, subprocess_run env probe = Ret out /\
                                     is_blank (stdout out) = false /\
                                     parse_dimensions env (stdout out) = Ret d
             | None => forall out, subprocess_run env probe = Ret out ->
                                   is_blank (stdout out) = true \/
                                   exists e, parse_dimensions env (stdout out) = Raise e
             end).
  { subst first. unfold try_exceptM, run. run_step. fold probe.
    destruct (subprocess_run env probe) as [out | e] eqn:Hrun; simpl.
    - destruct (is_blank (stdout out)) eqn:Hblank; simpl.
      + exists None. split; [reflexivity |]. intros out' [= <-]. now left.
      + destruct (parse_dimensions env (stdout out)) as [d | e] eqn:Hparse; simpl.
        * exists (Some d). split; [reflexivity |]. eauto.
        * exists None. split; [reflexivity |]. intros out' [= <-]. right. eauto.
    - exists None. split; [reflexivity |]. discriminate. }
  destruct HA as (pa & HA & Hpa).
  unfold mbind, M_bind. rewrite HA. subst k0. cbv beta.
  destruct pa as [d |].
  - destruct Hpa as (out & Hrun & Hblank & Hparse).
    exists (Some d). eexists. split; [reflexivity |]. simpl.
    repeat split; try reflexivity.
    + intros out' d' Hrun' _ Hd'. congruence.
    + intros Hfail. destruct (Hfail out Hrun) as [Hb | [e He]]; congruence.
  - destruct (Hcv (log_spawn probe w)) as (r & Hr & Hshape).
    fold (@mbind (M World)) in Hr |- *.
    exists r. eexists. split; [exact Hr |]. simpl.
    repeat split; try reflexivity.
    + intros out d Hrun Hblank Hparse.
      destruct (Hpa out Hrun) as [Hb | [e He]]; congruence.
    + intros _. exact Hshape.
Qed.

(** ** The transcode job: the command and the files *)

Lemma get_video_dimensions_trace (env : Env) (video_path : string) (w : World) :
  exists r w',
    get_video_dimensions env video_path w = Some (Ret r, w') /\
    self w' = self w /\ files w' = files w /\
    output_path w' = output_path w /\ process_key w' = process_key w /\
    spawned w' = spawned w ++ [probe_cmd (ffmpeg_path (self w)) video_path].
Proof.
  unfold get_video_dimensions, try_exceptM, run. run_step.
  destruct (subprocess_run env _) as [out | e]; simpl.
  - destruct (is_blank (stdout out)); simpl.
    + match goal with |- context [match ?x with Ret _ => _ | Raise _ => _ end] =>
        destruct x as [[d |] | e] end; simpl; eauto 10.
    + destruct (parse_dimensions env (stdout out)) as [d | e]; simpl; [eauto 10 |].
      match goal with |- context [match ?x with Ret _ => _ | Raise _ => _ end] =>
        destruct x as [[d |] | e'] end; simpl; eauto 10.
  - match goal with |- context [match ?x with Ret _ => _ | Raise _ => _ end] =>
      destruct x as [[d |] | e'] end; simpl; eauto 10.
Qed.

(** When the preparation succeeds, the handle is the one the system
    returned for the encoder command built from the normalized paths,
    dimensions that are not zero and the negotiated family; with the
    acceleration switched off no family is negotiated. *)
Lemma prepare_and_spawn_command (env : Env) (main overlay : string) (w : World)
    (p : Popen) (k o : string) (w1 : World) :
  prepare_and_spawn env main overlay w = Some (Ret (p, k, o), w1) ->
  exists width height gpu_type,
    width <> 0%Z /\ height <> 0%Z /\
    subprocess_Popen env
      (ffmpeg_command (ffmpeg_path (self w)) (normalize_path env main)
         (normalize_path env overlay)
         (format_filter env width height (opacity_var (self w) / 100)%float) gpu_type o)
      = Ret p /\
    (use_gpu (self w) = false ->
     gpu_type = None /\
     spawned w1 = spawned w ++ [probe_cmd (ffmpeg_path (self w)) (normalize_path env main)]).
Proof.
  unfold prepare_and_spawn. run_step.
  destruct (os_makedirs env _) as [[] | e]; simpl; [| discriminate].
  destruct (negb _); simpl; [discriminate |].
  destruct (negb _); simpl; [discriminate |].
  match goal with |- context [get_video_dimensions env ?q ?w0] =>
    destruct (get_video_dimensions_trace env q w0)
      as (dims & wd & Hd & Hsd & Hfd & Hod & Hkd & Htd) end.
  rewrite Hd. simpl in Hsd, Htd.
  destruct dims as [[width height] |]; simpl; [| discriminate].
  destruct (Z.eqb_spec width 0); simpl; [discriminate |].
  destruct (Z.eqb_spec height 0); simpl; [discriminate |].
  destruct (use_gpu (self w)) eqn:Hgpu; simpl.
  - destruct (check_gpu_support_frame env wd) as [g [w2 [Hg _]]].
    rewrite Hg. simpl.
    destruct (subprocess_Popen env _) as [p' | e] eqn:Hp; simpl; [| discriminate].
    intros [= <- <- <- <-]. exists width, height, g.
    repeat split; try assumption; discriminate.
  - destruct (subprocess_Popen env _) as [p' | e] eqn:Hp; simpl; [| discriminate].
    intros [= <- <- <- <-]. exists width, height, None.
    repeat split; try assumption.
Qed.

Lemma process_video_blocked (env : Env) (main overlay : string) (total processed : nat)
    (w : World) :
  processing_semaphore (self w) = 0 -> process_video env main overlay total processed w = None.
Proof.
  intros H. unfold process_video, try_finally, try_exceptM, process_video_try, with_semaphore.
  run_step. now rewrite H.
Qed.

(** The files after the job has watched its encoder and checked the
    output: what the encoder left, less the output file when an empty
    one was deleted. *)
Lemma encode_and_verify_files (env : Env) (process : Popen) (key out : string) (w : World) :
  exists r w',
    encode_and_verify env process key out w = Some (r, w') /\
    (files w' = writes process (files w) \/
     files w' = delete out (writes process (files w))).
Proof.
  unfold encode_and_verify, try_finally. run_step.
  destruct (watch_spec process (register_process key process w))
    as (rw & w3 & Hwatch & (Hf3 & _) & _).
  rewrite Hwatch.
  destruct (release_process_spec process key w3) as (w4 & Hrel & Hf4 & _).
  rewrite Hrel. simpl in Hf3. rewrite Hf3 in Hf4.
  destruct rw as [errs | e]; [| eauto].
  destruct (verify_output_spec env out w4) as (rv & w5 & Hver & _ & _ & _ & Hcase).
  rewrite Hver. exists rv, w5. split; [reflexivity |].
  rewrite Hf4 in Hcase.
  destruct (writes process (files w) !! out) as [size |].
  - destruct (size =? 0)%N; destruct Hcase as [_ ->]; [| now left].
    destruct (os_remove_allowed env out); [right | left]; reflexivity.
  - destruct Hcase as [_ ->]. now left.
Qed.

Lemma joined_output_path_job_entry (env : Env) (main overlay : string) (w : World) :
  joined_output_path env (self (job_entry w)) main overlay
    = joined_output_path env (self w) main overlay.
Proof. reflexivity. Qed.

(** X17: when a job returns without raising, the session was running
    when the job got its slot, the file at the job's output path exists
    and is not empty, the job's key is not in the active-process map and
    the slot is back. *)
Theorem process_video_returns_with_output (env : Env) (main overlay : string)
    (total processed : nat) (w w' : World) :
  process_video env main overlay total processed w = Some (Ret tt, w') ->
  let out := normalize_path env (joined_output_path env (self w) main overlay) in
  processing (self w) = true /\
  output_path w' = Some out /\
  (exists size, files w' !! out = Some size /\ size <> 0%N) /\
  process_key w' = Some (job_key env main overlay) /\
  (job_key env main overlay ∉ dom (current_processes (self w'))) /\
  processing_semaphore (self w') = processing_semaphore (self w).
Proof.
  intros Hrun out.
  assert (Hslot : 0 < processing_semaphore (self w)).
  { destruct (processing_semaphore (self w)) eqn:Hs; [| lia].
    rewrite (process_video_blocked env main overlay total processed w Hs) in Hrun.
    discriminate. }
  destruct (processing (self w)) eqn:Hc.
  - destruct (prepare_and_spawn_spec env main overlay (job_entry w))
      as (r0 & w1 & Hprep & Hs1 & Hf1 & Hk1 & Ho1 & Hret).
    pose proof (process_video_try_running env main overlay w _ _ Hslot Hc Hprep) as Hbody.
    destruct r0 as [[[p k] o] | e0]; cbv beta iota in Hbody.
    + destruct (Hret p k o eq_refl) as (Hkey & Hout & Hop).
      rewrite joined_output_path_job_entry in Hout. fold out in Hout. subst o k.
      destruct (encode_and_verify_spec env p (job_key env main overlay) out w1)
        as (r' & w5 & Henc & Hk5 & Ho5 & Hp5 & Hd5 & Hsize & _).
      rewrite Henc in Hbody.
      destruct (process_video_wrap env main overlay total processed w _ _ Hbody)
        as (r & w2 & Hfinal & Hr & Hk' & Ho' & Hp' & Hd' & Hf').
      rewrite Hrun in Hfinal. injection Hfinal as <- <-.
      change (process_key (give_slot w5)) with (process_key w5) in *.
      change (output_path (give_slot w5)) with (output_path w5) in *.
      change (files (give_slot w5)) with (files w5) in *.
      change (current_processes (self (give_slot w5))) with (current_processes (self w5)) in *.
      rewrite Hk5 in Hr, Hk', Hd'. subst r'.
      split; [reflexivity |]. split; [congruence |]. split; [| split; [exact Hk' | split]].
      * rewrite Hf'. apply Hsize. reflexivity.
      * rewrite Hd', dom_delete_L. intros Hin.
        apply elem_of_difference in Hin as [_ Hn]. apply Hn. now apply elem_of_singleton.
      * rewrite Hp'. apply slot_returned; [exact Hslot |]. now rewrite Hp5, Hs1.
    + destruct (process_video_wrap env main overlay total processed w _ _ Hbody)
        as (r & w2 & Hfinal & Hr & _).
      rewrite Hrun in Hfinal. injection Hfinal as <- <-.
      change (process_key (give_slot w1)) with (process_key w1) in Hr.
      rewrite Hk1 in Hr. simpl in Hr. discriminate.
  - pose proof (process_video_try_cancelled env main overlay w Hslot Hc) as Hbody.
    destruct (process_video_wrap env main overlay total processed w _ _ Hbody)
      as (r & w2 & Hfinal & Hr & _).
    rewrite Hrun in Hfinal. injection Hfinal as <- <-. simpl in Hr. discriminate.
Qed.

(** X18: a job changes the files in two ways only: through what its
    encoder writes, and by deleting the file at its own output path.
    Whatever happens, the files afterwards are the files before, or
    those left by the process the system started for the job's encoder
    command, in both cases possibly less the one file at the path the
    local [output_path] holds. *)
Theorem process_video_touches_only_output (env : Env) (main overlay : string)
    (total processed : nat) (w : World) (r : res unit) (w' : World) :
  process_video env main overlay total processed w = Some (r, w') ->
  exists fs,
    (fs = files w \/
     exists width height gpu_type process,
       subprocess_Popen env
         (ffmpeg_command (ffmpeg_path (self w)) (normalize_path env main)
            (normalize_path env overlay)
            (format_filter env width height (opacity_var (self w) / 100)%float) gpu_type
            (normalize_path env (joined_output_path env (self w) main overlay)))
         = Ret process /\
       fs = writes process (files w)) /\
    (files w' = fs \/ exists out, output_path w' = Some out /\ files w' = delete out fs).
Proof.
  intros Hrun.
  assert (Hslot : 0 < processing_semaphore (self w)).
  { destruct (processing_semaphore (self w)) eqn:Hs; [| lia].
    rewrite (process_video_blocked env main overlay total processed w Hs) in Hrun.
    discriminate. }
  destruct (processing (self w)) eqn:Hc.
  - destruct (prepare_and_spawn_spec env main overlay (job_entry w))
      as (r0 & w1 & Hprep & Hs1 & Hf1 & Hk1 & Ho1 & Hret).
    simpl in Hf1.
    pose proof (process_video_try_running env main overlay w _ _ Hslot Hc Hprep) as Hbody.
    destruct r0 as [[[p k] o] | e0]; cbv beta iota in Hbody.
    + destruct (Hret p k o eq_refl) as (_ & Hout & Hop).
      destruct (prepare_and_spawn_command env main overlay _ _ _ _ _ Hprep)
        as (width & height & g & _ & _ & Hspawn & _).
      simpl in Hspawn. rewrite Hout, joined_output_path_job_entry in Hspawn.
      destruct (encode_and_verify_spec env p k o w1) as (r' & w5 & Henc & _ & Ho5 & _).
      destruct (encode_and_verify_files env p k o w1) as (r'' & w5' & Henc' & Hfiles).
      rewrite Henc in Henc'. injection Henc' as <- <-.
      rewrite Henc in Hbody.
      destruct (process_video_wrap env main overlay total processed w _ _ Hbody)
        as (rf & w2 & Hfinal & _ & _ & Ho' & _ & _ & Hf').
      rewrite Hrun in Hfinal. injection Hfinal as <- <-.
      change (output_path (give_slot w5)) with (output_path w5) in *.
      change (files (give_slot w5)) with (files w5) in *.
      rewrite Ho5, Hop in Ho', Hf'. rewrite Hf1 in Hfiles.
      exists (writes p (files w)). split; [right; eauto 10 |].
      destruct r' as [[] | e]; [| destruct (os_remove_allowed env o)];
        rewrite Hf'; destruct Hfiles as [-> | ->]; eauto.
      right. exists o. split; [exact Ho' |]. apply delete_delete_eq.
    + destruct (process_video_wrap env main overlay total processed w _ _ Hbody)
        as (rf & w2 & Hfinal & _ & _ & Ho' & _ & _ & Hf').
      rewrite Hrun in Hfinal. injection Hfinal as <- <-.
      change (output_path (give_slot w1)) with (output_path w1) in *.
      change (files (give_slot w1)) with (files w1) in *.
      rewrite Hf1 in Hf'.
      exists (files w). split; [now left |].
      destruct (output_path w1) as [path |]; [| now left].
      destruct (os_remove_allowed env path); [right; eauto | now left].
  - pose proof (process_video_try_cancelled env main overlay w Hslot Hc) as Hbody.
    destruct (process_video_wrap env main overlay total processed w _ _ Hbody)
      as (rf & w2 & Hfinal & _ & _ & _ & _ & _ & Hf').
    rewrite Hrun in Hfinal. injection Hfinal as <- <-. simpl in Hf'.
    exists (files w). split; [now left | now left].
Qed.

(** X19: the command a job hands to the system for its encoder.  The
    job probes the dimensions of the normalized main path and, only
    with the acceleration switched on, runs the negotiation.  The
    command it then starts is built from the path of the encoder, the
    two normalized input paths in the order main, overlay, the filter
    for those dimensions and the opacity, the family the negotiation has
    just answered (none with the acceleration off), and the normalized
    output path as last argument; hardware decoding is [auto] exactly
    when a family was answered, and the video encoder is the one of that
    family, [libx264] when there is none. *)
Theorem prepare_and_spawn_encoder_command (env : Env) (main overlay : string) (w : World)
    (process : Popen) (key out : string) (w' : World) :
  prepare_and_spawn env main overlay w = Some (Ret (process, key, out), w') ->
  exists width height wd gpu_type,
    let command :=
      ffmpeg_command (ffmpeg_path (self w)) (normalize_path env main)
        (normalize_path env overlay)
        (format_filter env width height (opacity_var (self w) / 100)%float) gpu_type out in
    out = normalize_path env (joined_output_path env (self w) main overlay) /\
    key = job_key env main overlay /\
    get_video_dimensions env (normalize_path env main) (set_output_path out w)
      = Some (Ret (Some (width, height)), wd) /\
    width <> 0%Z /\ height <> 0%Z /\
    (if use_gpu (self w) then check_gpu_support env wd = Some (Ret gpu_type, w')
     else gpu_type = None /\ w' = wd) /\
    subprocess_Popen env command = Ret process /\
    command !! 0 = Some (ffmpeg_path (self w)) /\
    command !! 3 = Some (match gpu_type with Some _ => "auto" | None => "none" end)%string /\
    command !! 5 = Some (normalize_path env main) /\
    command !! 7 = Some (normalize_path env overlay) /\
    command !! 21 = Some (match gpu_type with
                          | Some NVIDIA => "h264_nvenc"
                          | Some AMD => "h264_amf"
                          | None => "libx264"
                          end)%string /\
    last command = Some out.
Proof.
  unfold prepare_and_spawn. run_step.
  destruct (os_makedirs env _) as [[] | e]; simpl; [| discriminate].
  destruct (negb _); simpl; [discriminate |].
  destruct (negb _); simpl; [discriminate |].
  match goal with |- context [get_video_dimensions env ?q ?w0] =>
    destruct (get_video_dimensions env q w0) as [[[dims | e] wd] |] eqn:Hd end;
    simpl; try discriminate.
  destruct dims as [[width height] |]; simpl; [| discriminate].
  destruct (Z.eqb_spec width 0); simpl; [discriminate |].
  destruct (Z.eqb_spec height 0); simpl; [discriminate |].
  destruct (use_gpu (self w)) eqn:Hgpu; simpl.
  - destruct (check_gpu_support env wd) as [[[g | e] w2] |] eqn:Hg; simpl; try discriminate.
    destruct (subprocess_Popen env _) as [p' | e] eqn:Hp; simpl; [| discriminate].
    intros [= <- <- <- <-]. exists width, height, wd, g.
    split; [reflexivity |]. split; [reflexivity |]. split; [exact Hd |].
    split; [assumption |]. split; [assumption |]. split; [exact Hg |].
    split; [exact Hp |]. destruct g as [[] |]; repeat split; reflexivity.
  - destruct (subprocess_Popen env _) as [p' | e] eqn:Hp; simpl; [| discriminate].
    intros [= <- <- <- <-]. exists width, height, wd, None.
    split; [reflexivity |]. split; [reflexivity |]. split; [exact Hd |].
    split; [assumption |]. split; [assumption |]. split; [auto |].
    split; [exact Hp |]. repeat split; reflexivity.
Qed.

(** ** The monitor loop *)



(** ** Jobs that have ended *)

Lemma holders_done (l : list thread) : Forall done l -> holders l = 0.
Proof.
  induction 1 as [| t l Ht _ IH]; simpl; [reflexivity |].
  unfold done in Ht. now rewrite Ht, IH.
Qed.

Lemma sequential_threads (l : list thread) :
  (forall j t, l !! j = Some t -> S j < length l -> done t) ->
  l = [] \/ exists earlier t, l = earlier ++ [t] /\ Forall done earlier.
Proof.
  intros Hbut. destruct l as [| t0 l0 _] using rev_ind; [now left |].
  right. exists l0, t0. split; [reflexivity |].
  apply Forall_lookup. intros j u Hj. apply (Hbut j).
  - now apply lookup_app_l_Some.
  - apply lookup_lt_Some in Hj. rewrite length_app. simpl. lia.
Qed.

(** ** The whole session: what every move keeps *)

Lemma concat_lookup_split {A} (ls : list (list A)) (k : nat) (l : list A) :
  ls !! k = Some l -> concat ls = concat (take k ls) ++ l ++ concat (drop (S k) ls).
Proof.
  intros Hk. rewrite <- (take_drop_middle ls k l Hk) at 1.
  now rewrite concat_app, concat_cons.
Qed.

Lemma concat_insert_split {A} (ls : list (list A)) (k : nat) (l l' : list A) :
  ls !! k = Some l ->
  concat (<[k := l']> ls) = concat (take k ls) ++ l' ++ concat (drop (S k) ls).
Proof.
  intros Hk. apply lookup_lt_Some in Hk as Hlt.
  rewrite insert_take_drop by exact Hlt.
  now rewrite concat_app, concat_cons.
Qed.

Lemma all_threads_split (s : machine) (k : nat) (b : batch) :
  batches s !! k = Some b ->
  all_threads s = concat (take k (batch_threads <$> batches s)) ++ batch_threads b ++
                  concat (drop (S k) (batch_threads <$> batches s)).
Proof.
  intros Hk. apply concat_lookup_split. now rewrite list_lookup_fmap, Hk.
Qed.

Lemma all_threads_insert (a : App) (s : machine) (k : nat) (b b' : batch) :
  batches s !! k = Some b ->
  all_threads {| machine_app := a; batches := <[k := b']> (batches s) |}
    = concat (take k (batch_threads <$> batches s)) ++ batch_threads b' ++
      concat (drop (S k) (batch_threads <$> batches s)).
Proof.
  intros Hk. unfold all_threads. simpl. rewrite list_fmap_insert.
  apply (concat_insert_split _ k (batch_threads b)). now rewrite list_lookup_fmap, Hk.
Qed.

Lemma registered_keys_app (l1 l2 : list thread) :
  registered_keys (l1 ++ l2) = registered_keys l1 ++ registered_keys l2.
Proof.
  induction l1 as [| t l1 IH]; simpl; [reflexivity |].
  destruct (registered (pc t)); simpl; now rewrite IH.
Qed.

(** What a step of a driver does to the application object and to the
    list of its jobs. *)
Lemma driver_step_effect (env : Env) (a : App) (b : batch) (a' : App) (b' : batch) :
  driver_step env a b a' b' ->
  processing_semaphore a' = processing_semaphore a /\
  max_concurrent_processes a' = max_concurrent_processes a /\
  dom (current_processes a') ⊆ dom (current_processes a) /\
  (processing a = false -> processing a' = false) /\
  (batch_threads b' = batch_threads b \/
   exists i main_video_path overlay_video_path,
     batch_threads b' = batch_threads b ++ [new_job env i main_video_path overlay_video_path]).
Proof.
  intros Hstep. destruct Hstep; simpl; repeat split; auto; try set_solver; right; eauto.
Qed.

Lemma start_processing_control (Thread_start : res unit) (a : App) :
  let a' := fst (start_processing Thread_start a) in
  processing_semaphore a' = processing_semaphore a /\
  max_concurrent_processes a' = max_concurrent_processes a /\
  current_processes a' = current_processes a.
Proof.
  unfold start_processing.
  destruct (main_video_paths a); [simpl; auto |].
  destruct (overlay_video_paths a); [simpl; auto |].
  destruct Thread_start; simpl; auto.
Qed.

Lemma stop_processing_control (a : App) :
  processing_semaphore (stop_processing a) = processing_semaphore a /\
  max_concurrent_processes (stop_processing a) = max_concurrent_processes a /\
  dom (current_processes (stop_processing a)) ⊆ dom (current_processes a) /\
  (processing a = false -> processing (stop_processing a) = false).
Proof.
  unfold stop_processing. destruct (processing a) eqn:Hp; simpl; repeat split; auto; set_solver.
Qed.

Lemma toggle_pause_control (a : App) :
  processing_semaphore (toggle_pause a) = processing_semaphore a /\
  max_concurrent_processes (toggle_pause a) = max_concurrent_processes a /\
  current_processes (toggle_pause a) = current_processes a /\
  processing (toggle_pause a) = processing a.
Proof.
  unfold toggle_pause. destruct (processing a) eqn:Hp; simpl; repeat split; auto.
Qed.

Lemma all_threads_started (a : App) (s : machine) (started : bool) :
  all_threads {| machine_app := a;
                 batches := batches s ++
                            if started then [{| batch_driver := AtNext 0; batch_threads := [] |}]
                            else [] |}
    = all_threads s.
Proof.
  unfold all_threads. simpl. rewrite fmap_app, concat_app.
  destruct started; simpl; now rewrite app_nil_r.
Qed.

Lemma session_gate_invariant_idle (s : machine) : idle s -> session_gate_invariant s.
Proof.
  intros (Hb & _ & Hmap & Hsem). unfold session_gate_invariant, all_threads.
  rewrite Hb, Hmap, Hsem. simpl. split; [lia |].
  intros x Hx. rewrite dom_empty_L in Hx. now apply elem_of_empty in Hx.
Qed.

Lemma session_gate_invariant_move (env : Env) (s : machine) (e : event) (s' : machine) :
  session_gate_invariant s -> move env s e s' -> session_gate_invariant s'.
Proof.
  intros [Hsem Hmap] Hmove. unfold session_gate_invariant.
  destruct Hmove as [s k b a' b' Hk Hstep | s k b tid t a' pc' Hk Ht Hstep
                    | s Thread_start | s | s | s a' Hsame]; simpl.
  - (* a driver *)
    destruct (driver_step_effect env _ _ _ _ Hstep) as (Hs & Hm & Hd & _ & Hthreads).
    rewrite (all_threads_insert a' s k b b' Hk).
    rewrite (all_threads_split s k b Hk) in Hsem, Hmap.
    destruct Hthreads as [-> | (i & p & o & ->)].
    + rewrite Hs, Hm. split; [exact Hsem |]. intros x Hx. apply Hmap, Hd, Hx.
    + rewrite Hs, Hm. split.
      * rewrite !holders_app in *. simpl. lia.
      * intros x Hx. apply Hd, Hmap in Hx.
        rewrite !registered_keys_app in *. simpl. now rewrite app_nil_r.
  - (* a job *)
    destruct (job_step_effect _ _ _ _ _ Hstep) as (Hs & Hm & Hd & _).
    rewrite (all_threads_insert a' s k b _ Hk). simpl.
    rewrite (all_threads_split s k b Hk) in Hsem, Hmap.
    pose proof (holders_insert (batch_threads b) tid t (at_pc t pc') Ht) as Hh.
    simpl in Hh. split.
    + rewrite !holders_app in *. rewrite Hm. lia.
    + intros x Hx. rewrite !registered_keys_app in *.
      destruct (Hd x Hx) as [[-> Hr] | [Hold Hkeep]].
      * apply elem_of_app. right. apply elem_of_app. left.
        apply elem_of_registered_keys. exists tid, (at_pc t pc').
        split; [| auto]. apply list_lookup_insert_eq. now apply lookup_lt_Some in Ht.
      * apply Hmap in Hold. apply elem_of_app in Hold as [Hin | Hin];
          [apply elem_of_app; now left |].
        apply elem_of_app in Hin as [Hin | Hin];
          [| apply elem_of_app; right; apply elem_of_app; now right].
        apply elem_of_app. right. apply elem_of_app. left.
        apply elem_of_registered_keys in Hin as (i & u & Hi & Hr & Hkey).
        apply elem_of_registered_keys.
        destruct (decide (i = tid)) as [-> | Hne].
        -- rewrite Ht in Hi. injection Hi as <-.
           exists tid, (at_pc t pc'). split; [| split; [| exact Hkey]].
           ++ apply list_lookup_insert_eq. now apply lookup_lt_Some in Ht.
           ++ simpl. apply Hkeep; auto.
        -- exists i, u. split; [| auto]. now rewrite list_lookup_insert_ne by congruence.
  - (* a start *)
    destruct (start_processing_control Thread_start (machine_app s)) as (Hs & Hm & Hc).
    rewrite all_threads_started, Hs, Hm, Hc. auto.
  - (* a stop *)
    destruct (stop_processing_control (machine_app s)) as (Hs & Hm & Hd & _).
    change (all_threads {| machine_app := stop_processing (machine_app s);
                           batches := batches s |}) with (all_threads s).
    rewrite Hs, Hm. split; [exact Hsem |]. intros x Hx. apply Hmap, Hd, Hx.
  - (* a pause *)
    destruct (toggle_pause_control (machine_app s)) as (Hs & Hm & Hc & _).
    change (all_threads {| machine_app := toggle_pause (machine_app s);
                           batches := batches s |}) with (all_threads s).
    rewrite Hs, Hm, Hc. auto.
  - (* an edit *)
    destruct Hsame as (_ & _ & Hc & Hm & Hs & _).
    change (all_threads {| machine_app := a'; batches := batches s |}) with (all_threads s).
    rewrite Hs, Hm, Hc. auto.
Qed.

Lemma reached_on_reached (env : Env) (s : machine) : reached_on env s -> reached s.
Proof.
  induction 1 as [s Hidle | s e s' _ IH Hmove].
  - now apply reached_idle.
  - eapply reached_move; eauto.
Qed.

Lemma session_gate_invariant_reached (s : machine) :
  reached s -> session_gate_invariant s.
Proof.
  induction 1 as [s Hidle | env s e s' _ IH Hmove].
  - now apply session_gate_invariant_idle.
  - eapply session_gate_invariant_move; eauto.
Qed.

(** ** The whole session: one job per driver *)

Lemma batch_invariant_driver (env : Env) (a : App) (b : batch) (a' : App) (b' : batch) :
  batch_invariant b -> driver_step env a b a' b' -> batch_invariant b'.
Proof.
  intros (Hsorted & Hbut & Hdrv) Hstep.
  assert (Hnext : forall i i', i <= i' ->
            Forall (fun t => done t /\ job_index t < i) (batch_threads b) ->
            Forall (fun t => done t /\ job_index t < i') (batch_threads b)).
  { intros i i' Hle Hall. eapply Forall_impl; [exact Hall |].
    simpl. intros t [? ?]. split; [assumption | lia]. }
  destruct Hstep as [a b i Hd | a b i p Hd | a b i p Hd | a b i p Hd | a b i p Hd
                    | a b i p e Hd | a b i p m Hd | a b i p m Hd
                    | a b i p m j acc o d Hd | a b i p m j acc o e Hd
                    | a b i p m j Hd | a b i p m j acc o Hd Hend Hin
                    | a b i t Hd Hlast Hdone | a b Htry | a b Hd | a b Hd];
    unfold batch_invariant; simpl;
    try (split; [exact Hsorted | split; [exact Hbut | exact I]]);
    try (rewrite Hd in Hdrv; split; [exact Hsorted | split; [exact Hbut |]];
         first [exact Hdrv | apply (Hnext i (S i)); [lia | exact Hdrv]]).
  - (* the start of a job *)
    rewrite Hd in Hdrv. rewrite Forall_forall in Hdrv. split; [| split].
    + rewrite fmap_app. apply StronglySorted_app. split; [| split; [exact Hsorted |]].
      * intros x1 x2 Hx1 Hx2. apply list_elem_of_singleton in Hx2 as ->.
        apply list_elem_of_fmap in Hx1 as (t & -> & Ht). now apply Hdrv.
      * repeat constructor.
    + intros j0 t Hj Hlen. rewrite length_app in Hlen. simpl in Hlen.
      rewrite lookup_app_l in Hj by lia.
      apply Hdrv. eapply list_elem_of_lookup_2; eauto.
    + apply Forall_app. split.
      * apply Forall_forall. intros t Ht. destruct (Hdrv t Ht). lia.
      * repeat constructor.
  - (* the join *)
    rewrite Hd in Hdrv. split; [exact Hsorted | split; [exact Hbut |]].
    pose proof (all_done_from_last _ _ Hbut Hlast Hdone) as Hall.
    rewrite Forall_forall in *. intros u Hu. split; [auto |].
    specialize (Hdrv u Hu). lia.
Qed.

Lemma batch_invariant_job (key : string) (a : App) (b : batch) (tid : nat) (t : thread)
    (a' : App) (pc' : job_pc) :
  batch_invariant b -> batch_threads b !! tid = Some t ->
  job_step key a (pc t) a' pc' ->
  batch_invariant {| batch_driver := batch_driver b;
                     batch_threads := <[tid := at_pc t pc']> (batch_threads b) |}.
Proof.
  intros (Hsorted & Hbut & Hdrv) Ht Hstep. unfold batch_invariant. simpl.
  destruct (job_step_effect _ _ _ _ _ Hstep) as (_ & _ & _ & Hlive).
  assert (Hidx : job_index <$> <[tid := at_pc t pc']> (batch_threads b)
                 = job_index <$> batch_threads b).
  { rewrite list_fmap_insert. simpl. apply list_insert_id.
    rewrite list_lookup_fmap, Ht. reflexivity. }
  assert (Hlast : ~ S tid < length (batch_threads b)).
  { intros Hlt. apply Hlive. exact (Hbut tid t Ht Hlt). }
  rewrite Hidx, length_insert. split; [exact Hsorted | split].
  - intros j u Hj Hlt. destruct (decide (j = tid)) as [-> | Hne]; [contradiction |].
    rewrite list_lookup_insert_ne in Hj by auto. eauto.
  - assert (Hin : t ∈ batch_threads b) by (eapply list_elem_of_lookup_2; eauto).
    destruct (batch_driver b) as [i | i p | i p | i p m j acc | i | | |]; try exact I;
      try (exfalso; apply Hlive; rewrite Forall_forall in Hdrv; apply (Hdrv t Hin)).
    apply Forall_insert; [exact Hdrv |]. simpl.
    rewrite Forall_forall in Hdrv. now apply Hdrv.
Qed.

Lemma batch_invariants_idle (s : machine) : idle s -> Forall batch_invariant (batches s).
Proof. intros (-> & _). constructor. Qed.

Lemma batch_invariants_move (env : Env) (s : machine) (e : event) (s' : machine) :
  Forall batch_invariant (batches s) -> move env s e s' ->
  Forall batch_invariant (batches s').
Proof.
  intros Hall Hmove.
  destruct Hmove as [s k b a' b' Hk Hstep | s k b tid t a' pc' Hk Ht Hstep
                    | s Thread_start | s | s | s a' Hsame]; simpl; try exact Hall.
  - apply Forall_insert; [exact Hall |].
    eapply batch_invariant_driver; [| exact Hstep].
    rewrite Forall_forall in Hall. apply Hall. eapply list_elem_of_lookup_2; eauto.
  - apply Forall_insert; [exact Hall |].
    eapply batch_invariant_job; [| exact Ht | exact Hstep].
    rewrite Forall_forall in Hall. apply Hall. eapply list_elem_of_lookup_2; eauto.
  - apply Forall_app. split; [exact Hall |].
    destruct (snd _); repeat constructor. intros j t Hj. discriminate.
Qed.

Lemma batch_invariants_reached (s : machine) :
  reached s -> Forall batch_invariant (batches s).
Proof.
  induction 1 as [s Hidle | env s e s' _ IH Hmove].
  - now apply batch_invariants_idle.
  - eapply batch_invariants_move; eauto.
Qed.

(** A driver that keeps its invariant has at most one job inside the
    gate. *)
Lemma batch_holds_one_slot (b : batch) : batch_invariant b -> holders (batch_threads b) <= 1.
Proof.
  intros (_ & Hbut & _).
  destruct (sequential_threads _ Hbut) as [-> | (earlier & t & -> & Hdone)]; [simpl; lia |].
  rewrite holders_app, (holders_done _ Hdone). simpl.
  destruct (holds_slot (pc t)); lia.
Qed.

Lemma holders_concat (bs : list batch) :
  Forall batch_invariant bs -> holders (concat (batch_threads <$> bs)) <= length bs.
Proof.
  induction 1 as [| b bs Hb _ IH]; [simpl; lia |].
  rewrite fmap_cons, concat_cons, holders_app, length_cons.
  pose proof (batch_holds_one_slot b Hb). lia.
Qed.

(** X21: one job per driver, also when the session is started again
    while an earlier driver lives and while files are added, removed or
    renamed, whatever the host answers.  In every state the session can
    reach, each driver has
    started its jobs for strictly increasing rows and at most one of
    them has not ended; so the jobs inside the gate are never more than
    the drivers that were started, nor more than the limit of the gate,
    and the active-process map never holds more entries than there are
    jobs inside the gate. *)
Theorem session_one_job_per_driver (s : machine) :
  reached s ->
  (forall k b, batches s !! k = Some b ->
     StronglySorted lt (job_index <$> batch_threads b) /\
     forall j1 j2 t1 t2,
       batch_threads b !! j1 = Some t1 -> batch_threads b !! j2 = Some t2 ->
       live t1 -> live t2 -> j1 = j2) /\
  holders (all_threads s) <= length (batches s) /\
  holders (all_threads s) <= max_concurrent_processes (machine_app s) /\
  size (current_processes (machine_app s)) <= holders (all_threads s).
Proof.
  intros Hreach.
  pose proof (batch_invariants_reached s Hreach) as Hall.
  destruct (session_gate_invariant_reached s Hreach) as [Hsem Hmap].
  split; [| split; [| split]].
  - intros k b Hk.
    assert (Hb : batch_invariant b).
    { rewrite Forall_forall in Hall. apply Hall. eapply list_elem_of_lookup_2; eauto. }
    destruct Hb as (Hsorted & Hbut & _). split; [exact Hsorted |].
    intros j1 j2 t1 t2 H1 H2 Hl1 Hl2.
    destruct (decide (S j1 < length (batch_threads b))) as [Hlt1 | Hge1];
      [exfalso; apply Hl1; eapply Hbut; eauto |].
    destruct (decide (S j2 < length (batch_threads b))) as [Hlt2 | Hge2];
      [exfalso; apply Hl2; eapply Hbut; eauto |].
    apply lookup_lt_Some in H1, H2. lia.
  - now apply holders_concat.
  - lia.
  - rewrite <- size_dom.
    transitivity (size (list_to_set (registered_keys (all_threads s)) : gset string)).
    + apply subseteq_size. intros x Hx. apply elem_of_list_to_set. now apply Hmap.
    + etransitivity; [apply size_list_to_set_le |]. apply registered_keys_le_holders.
Qed.

(** ** The whole session: which pairs are encoded *)

Lemma probed_duration_of (cv : cv2) (p : string) (d : float) :
  get_video_duration cv p = Ret d -> probed_duration cv p = d.
Proof. unfold probed_duration. now intros ->. Qed.

Lemma selection_invariant_driver (env : Env) (a : App) (b : batch) (a' : App) (b' : batch) :
  selection_invariant env b -> Forall (paired env) (batch_threads b) ->
  driver_step env a b a' b' ->
  selection_invariant env b' /\ Forall (paired env) (batch_threads b').
Proof.
  intros Hsel Hpairs Hstep. unfold selection_invariant in *.
  destruct Hstep as [a b i Hd | a b i p Hd | a b i p Hd | a b i p Hd | a b i p Hd
                    | a b i p e Hd | a b i p m Hd | a b i p m Hd Hrun Hpos
                    | a b i p m j acc o d Hd Ho Hrun | a b i p m j acc o e Hd
                    | a b i p m j Hd | a b i p m j acc o Hd Hend Hin
                    | a b i t Hd Hlast Hdone | a b Htry | a b Hd | a b Hd];
    simpl; try (split; [exact I | exact Hpairs]).
  - (* the main asset is probed *)
    split; [| exact Hpairs]. split; [now apply probed_duration_of |]. split; [| constructor].
    destruct (get_video_duration_cases (cv2_VideoCapture env) p)
      as [Hz | (d & Hd' & Hd0)]; rewrite Hrun in *.
    + injection Hz as ->. rewrite float_zero_le0 in Hpos. discriminate.
    + now injection Hd' as ->.
  - (* one overlay is considered *)
    rewrite Hd in Hsel. destruct Hsel as (Hm & Hm0 & Hacc).
    split; [| exact Hpairs]. split; [exact Hm |]. split; [exact Hm0 |].
    unfold consider. destruct (d <=? 0)%float; [exact Hacc |].
    destruct (in_window m d) eqn:Hw; [| exact Hacc].
    apply Forall_app. split; [exact Hacc |]. constructor; [| constructor].
    now rewrite (probed_duration_of _ _ _ Hrun).
  - (* a job is started *)
    rewrite Hd in Hsel. destruct Hsel as (Hm & Hm0 & Hacc).
    split; [exact I |]. apply Forall_app. split; [exact Hpairs |].
    constructor; [| constructor]. exists p, o. simpl.
    rewrite Hm. split; [reflexivity |]. split; [exact Hm0 |].
    rewrite Forall_forall in Hacc. now apply Hacc.
Qed.

Lemma paired_at_pc (env : Env) (t : thread) (pc' : job_pc) :
  paired env t -> paired env (at_pc t pc').
Proof. intros (p & o & H). exists p, o. exact H. Qed.

Lemma selection_invariants_move (env : Env) (s : machine) (e : event) (s' : machine) :
  Forall (fun b => selection_invariant env b /\ Forall (paired env) (batch_threads b))
         (batches s) ->
  move env s e s' ->
  Forall (fun b => selection_invariant env b /\ Forall (paired env) (batch_threads b))
         (batches s').
Proof.
  intros Hall Hmove.
  destruct Hmove as [s k b a' b' Hk Hstep | s k b tid t a' pc' Hk Ht Hstep
                    | s Thread_start | s | s | s a' Hsame]; simpl; try exact Hall.
  - apply Forall_insert; [exact Hall |].
    rewrite Forall_forall in Hall.
    destruct (Hall b) as [Hsel Hpairs]; [eapply list_elem_of_lookup_2; eauto |].
    eapply selection_invariant_driver; eauto.
  - apply Forall_insert; [exact Hall |].
    rewrite Forall_forall in Hall.
    destruct (Hall b) as [Hsel Hpairs]; [eapply list_elem_of_lookup_2; eauto |].
    split; [exact Hsel |]. simpl.
    apply Forall_insert; [exact Hpairs |]. apply paired_at_pc.
    rewrite Forall_forall in Hpairs. apply Hpairs. eapply list_elem_of_lookup_2; eauto.
  - apply Forall_app. split; [exact Hall |].
    destruct (snd _); repeat constructor.
Qed.

(** X22: on a host whose probe answers the same each time, whatever is
    added to or removed from the lists while drivers run, and however
    often the session is started, every job that any driver ever starts
    works on a main asset whose probed duration [m] is above zero and on
    an overlay whose probed duration [d] lies in the window
    [m <= d <= m * 3.0]: its key is the key of such a pair. *)
Theorem session_jobs_pair_within_window (env : Env) (s : machine) :
  reached_on env s -> Forall (paired env) (all_threads s).
Proof.
  intros Hreach.
  assert (Hall : Forall (fun b => selection_invariant env b /\
                                  Forall (paired env) (batch_threads b)) (batches s)).
  { induction Hreach as [s (-> & _) | s e s' _ IH Hmove]; [constructor |].
    eapply selection_invariants_move; eauto. }
  unfold all_threads. apply Forall_concat, Forall_fmap.
  eapply Forall_impl; [exact Hall |]. simpl. tauto.
Qed.

(** ** The whole session after a stop *)

Lemma job_step_stopped (key : string) (a : App) (pc0 : job_pc) (a' : App) (pc' : job_pc) :
  job_step key a pc0 a' pc' ->
  processing a' = processing a /\
  (processing a = false -> unstarted pc0 = true -> unstarted pc' = true).
Proof.
  intros Hstep. destruct Hstep; simpl; split; try reflexivity; try congruence.
Qed.

Lemma move_stopped (s1 s2 : machine) :
  processing (machine_app s1) = false -> move_without_start s1 s2 ->
  processing (machine_app s2) = false /\
  forall k b2 tid t2,
    batches s2 !! k = Some b2 -> batch_threads b2 !! tid = Some t2 ->
    (forall b1 t1, batches s1 !! k = Some b1 -> batch_threads b1 !! tid = Some t1 ->
                   unstarted (pc t1) = true) ->
    unstarted (pc t2) = true.
Proof.
  intros Hp (env & e & He & Hmove).
  assert (Hsame : forall k b2 tid t2,
            batches s1 !! k = Some b2 -> batch_threads b2 !! tid = Some t2 ->
            (forall b1 t1, batches s1 !! k = Some b1 -> batch_threads b1 !! tid = Some t1 ->
                           unstarted (pc t1) = true) ->
            unstarted (pc t2) = true).
  { intros k b2 tid t2 Hk Ht H. eapply H; eauto. }
  destruct Hmove as [s k b a' b' Hk Hstep | s k b tid t a' pc' Hk Ht Hstep
                    | s Thread_start | s | s | s a' Hsame']; simpl; try contradiction.
  - (* a driver *)
    destruct (driver_step_effect env _ _ _ _ Hstep) as (_ & _ & _ & Hproc & Hthreads).
    split; [auto |]. intros k0 b2 tid t2 Hk0 Ht2 Hold.
    destruct (decide (k0 = k)) as [-> | Hne];
      [| rewrite list_lookup_insert_ne in Hk0 by congruence; eapply Hsame; eauto].
    rewrite list_lookup_insert_eq in Hk0 by (now apply lookup_lt_Some in Hk).
    injection Hk0 as <-.
    destruct Hthreads as [Heq | (i & p & o & Heq)]; rewrite Heq in Ht2.
    + eapply Hold; eauto.
    + destruct (batch_threads b !! tid) as [t1 |] eqn:Ht1.
      * rewrite (lookup_app_l_Some _ _ _ _ Ht1) in Ht2. injection Ht2 as <-.
        eapply Hold; eauto.
      * apply lookup_ge_None in Ht1. rewrite lookup_app_r in Ht2 by exact Ht1.
        apply list_lookup_singleton_Some in Ht2 as [_ <-]. reflexivity.
  - (* a job *)
    destruct (job_step_stopped _ _ _ _ _ Hstep) as [Hproc Hun].
    split; [congruence |]. intros k0 b2 tid0 t2 Hk0 Ht2 Hold.
    destruct (decide (k0 = k)) as [-> | Hne];
      [| rewrite list_lookup_insert_ne in Hk0 by congruence; eapply Hsame; eauto].
    rewrite list_lookup_insert_eq in Hk0 by (now apply lookup_lt_Some in Hk).
    injection Hk0 as <-. simpl in Ht2.
    destruct (decide (tid0 = tid)) as [-> | Hne].
    + rewrite list_lookup_insert_eq in Ht2 by (now apply lookup_lt_Some in Ht).
      injection Ht2 as <-. simpl. apply Hun; [exact Hp |]. eapply Hold; eauto.
    + rewrite list_lookup_insert_ne in Ht2 by congruence. eapply Hold; eauto.
  - (* a stop *)
    destruct (stop_processing_control (machine_app s)) as (_ & _ & _ & Hproc).
    split; [auto | exact Hsame].
  - (* a pause *)
    destruct (toggle_pause_control (machine_app s)) as (_ & _ & _ & Hproc).
    split; [congruence | exact Hsame].
  - (* an edit *)
    destruct Hsame' as (Hproc & _). split; [congruence | exact Hsame].
Qed.

(** X23: between a stop and the next start no new encoder is launched by
    a job that had not yet passed the check of line 633.  From any
    state with [processing] down, and whatever the drivers, the jobs and
    the control thread do next short of a new start (edits included),
    and whatever the host answers, the flag stays down, and every job that was waiting at the gate or
    standing before the check, as well as every job a driver starts in
    that time, only takes its slot, finds the session stopped and
    leaves: it never prepares, spawns or registers a process. *)
Theorem stopped_session_starts_no_encoder (s s' : machine) :
  processing (machine_app s) = false -> rtc move_without_start s s' ->
  processing (machine_app s') = false /\
  forall k b' tid t',
    batches s' !! k = Some b' -> batch_threads b' !! tid = Some t' ->
    (forall b t, batches s !! k = Some b -> batch_threads b !! tid = Some t ->
                 unstarted (pc t) = true) ->
    unstarted (pc t') = true.
Proof.
  intros Hp Hsteps. revert s' Hsteps.
  apply (rtc_ind_r (fun s' =>
           processing (machine_app s') = false /\
           forall k b' tid t',
             batches s' !! k = Some b' -> batch_threads b' !! tid = Some t' ->
             (forall b t, batches s !! k = Some b -> batch_threads b !! tid = Some t ->
                          unstarted (pc t) = true) ->
             unstarted (pc t') = true)).
  - split; [exact Hp |]. intros k b' tid t' Hk Ht H. eapply H; eauto.
  - intros s1 s2 Hsteps Hstep [Hp1 IH].
    destruct (move_stopped s1 s2 Hp1 Hstep) as [Hp2 Hnext].
    split; [exact Hp2 |]. intros k b2 tid t2 Hk2 Ht2 Hstart.
    apply (Hnext k b2 tid t2 Hk2 Ht2).
    intros b1 t1 Hk1 Ht1. now apply (IH k b1 tid t1).
Qed.

(** ** Pause and stop *)

(** X24: [stop_processing] and [toggle_pause] do nothing on an idle
    application.  On a running one, a stop lowers both flags and empties
    the active-process map without touching the collections, a second
    stop or a pause after it changes nothing, and two pauses in a row
    restore the state. *)
Theorem stop_and_pause (a : App) :
  (processing a = false -> stop_processing a = a /\ toggle_pause a = a) /\
  (processing a = true ->
   processing (stop_processing a) = false /\ paused (stop_processing a) = false /\
   current_processes (stop_processing a) = ∅ /\
   processing_semaphore (stop_processing a) = processing_semaphore a /\
   main_video_paths (stop_processing a) = main_video_paths a /\
   overlay_video_paths (stop_processing a) = overlay_video_paths a /\
   paused (toggle_pause a) = negb (paused a) /\
   processing (toggle_pause a) = true /\
   current_processes (toggle_pause a) = current_processes a) /\
  stop_processing (stop_processing a) = stop_processing a /\
  toggle_pause (stop_processing a) = stop_processing a /\
  toggle_pause (toggle_pause a) = a.
Proof.
  unfold stop_processing, toggle_pause.
  destruct a as [mp op md od out opv proc pau cur mx sem gpu ff].
  destruct proc; simpl; repeat split; try discriminate; try reflexivity.
  unfold set_paused. simpl. now rewrite negb_involutive.
Qed.

(** ** Paths *)

Lemma slashes_no_backslash (path : string) :
  Forall (fun c => c <> "092"%char) (list_ascii_of_string (slashes path)).
Proof.
  unfold slashes. rewrite list_ascii_of_string_of_list_ascii.
  induction (list_ascii_of_string path) as [| c l IH]; simpl; constructor; auto.
  destruct (Ascii.eqb_spec c "092"%char); [discriminate | assumption].
Qed.

(** X25: a normalized path holds no backslash, whatever
    [os.path.normpath] returned; so neither do the two inputs and the
    output a job names to its encoder, nor does the job's key hold one
    before or after the underscore that joins its two paths. *)
Theorem normalize_path_no_backslash (env : Env) (main overlay : string) (a : App) :
  Forall (fun c => c <> "092"%char) (list_ascii_of_string (normalize_path env main)) /\
  Forall (fun c => c <> "092"%char)
    (list_ascii_of_string (normalize_path env (joined_output_path env a main overlay))) /\
  Forall (fun c => c <> "092"%char) (list_ascii_of_string (job_key env main overlay)).
Proof.
  split; [apply slashes_no_backslash |]. split; [apply slashes_no_backslash |].
  unfold job_key. rewrite !list_ascii_of_string_app.
  repeat (apply Forall_app; split); try apply slashes_no_backslash.
  repeat constructor. discriminate.
Qed.

(** ** Renaming *)

Lemma free_path_fresh (env : Env) (files : gmap string N) (base_path ext : string)
    (fuel counter : nat) (new_path found : string) :
  free_path env files base_path ext fuel counter new_path = Some found ->
  path_exists env files found = false.
Proof.
  revert counter new_path. induction fuel as [| fuel IH]; intros counter new_path; simpl.
  - destruct (path_exists env files new_path) eqn:He; [discriminate |].
    now intros [= <-].
  - destruct (path_exists env files new_path) eqn:He; [apply IH |].
    now intros [= <-].
Qed.

(** A move to a path at which nothing exists keeps the sizes found on
    the disk. *)
Lemma shutil_move_sizes (desk : Desktop) (src dst : string) (files files' : gmap string N) :
  shutil_move desk src dst files = Ret files' -> files !! dst = None ->
  (map_to_list files').*2 ≡ₚ (map_to_list files).*2.
Proof.
  unfold shutil_move. destruct (files !! src) as [size |] eqn:Hsrc; [| discriminate].
  destruct (shutil_move_allowed desk src dst); [| discriminate].
  intros [= <-] Hdst.
  rewrite map_to_list_insert.
  - rewrite <- (map_to_list_delete files src size Hsrc). reflexivity.
  - rewrite lookup_delete_ne; [exact Hdst |]. intros ->. congruence.
Qed.

Lemma rename_loop_sizes (env : Env) (desk : Desktop) (fuel : nat) (prefix target_dir : string)
    (paths : list string) (selected : list nat) (i : nat) (files : gmap string N)
    (renamed : gmap string string) (files' : gmap string N) (r : res (gmap string string)) :
  rename_loop env desk fuel prefix target_dir paths selected i files renamed = Some (files', r) ->
  (map_to_list files').*2 ≡ₚ (map_to_list files).*2.
Proof.
  revert i files renamed. induction selected as [| index rest IH]; intros i files renamed; simpl.
  - now intros [= <- _].
  - destruct (paths !! index) as [old_path |]; [| now intros [= <- _]].
    match goal with |- context [free_path ?e ?f ?b ?x ?n ?c ?p] =>
      destruct (free_path e f b x n c p) as [new_path |] eqn:Hfree end; [| discriminate].
    apply free_path_fresh in Hfree. unfold path_exists in Hfree.
    apply orb_false_iff in Hfree as [Hfile _]. apply bool_decide_eq_false in Hfile.
    rewrite <- eq_None_not_Some in Hfile.
    destruct (shutil_move desk old_path new_path files) as [files1 | e] eqn:Hmove.
    + intros Hrest. rewrite (IH _ _ _ Hrest).
      eapply shutil_move_sizes; eauto.
    + now intros [= <- _].
Qed.

Lemma update_loop_length (renamed : gmap string string) (paths updated : list string)
    (durations : gmap string float) :
  length (update_loop renamed paths updated durations).1.1 = length updated + length paths.
Proof.
  revert updated durations. induction paths as [| path rest IH]; intros updated durations;
    simpl; [lia |].
  destruct (renamed !! path) as [new_path |].
  - destruct (durations !! path) as [d |].
    + rewrite IH, length_app. simpl. lia.
    + simpl. rewrite length_app. simpl. lia.
  - rewrite IH, length_app. simpl. lia.
Qed.

(** With no path listed twice and a duration for every listed path the
    second loop does not raise. *)
Lemma update_loop_total (renamed : gmap string string) (paths updated : list string)
    (durations : gmap string float) :
  NoDup paths -> Forall (fun p => is_Some (durations !! p)) paths ->
  (update_loop renamed paths updated durations).2 = Ret tt.
Proof.
  revert updated durations. induction paths as [| path rest IH]; intros updated durations;
    simpl; [reflexivity |].
  intros Hnd Hall. apply NoDup_cons in Hnd as [Hnew Hnd].
  apply Forall_cons in Hall as [[d Hd] Hall].
  destruct (renamed !! path) as [new_path |]; [| now apply IH].
  rewrite Hd. apply IH; [exact Hnd |].
  rewrite Forall_forall in *. intros q Hq.
  rewrite lookup_delete_ne by (intros ->; contradiction).
  destruct (decide (new_path = q)) as [-> | Hne].
  - rewrite lookup_insert_eq. eauto.
  - rewrite lookup_insert_ne by exact Hne. now apply Hall.
Qed.

Lemma set_group_fields (target : group) (paths : list string) (durations : gmap string float)
    (a : App) :
  paths_of target (set_group target paths durations a) = paths /\
  durations_of target (set_group target paths durations a) = durations /\
  paths_of (other target) (set_group target paths durations a) = paths_of (other target) a /\
  durations_of (other target) (set_group target paths durations a)
    = durations_of (other target) a.
Proof. destruct target; repeat split. Qed.

(** X26: whenever a renaming ends, it has neither lost nor overwritten
    a file: the files on the disk have the same sizes as before, one for
    one, under old or new names.  The target collection has as many rows
    as before and the other group is untouched.  When the renaming fails
    on a collection that is consistent with its duration index, the
    window is left as it was, though files renamed before the failure
    keep their new names; when it succeeds on a mirrored window, the
    window is mirrored again. *)
Theorem rename_selected_files_keeps_files (env : Env) (desk : Desktop) (fuel : nat)
    (target : group) (selected : list nat) (g : Window) (files : gmap string N)
    (g' : Window) (files' : gmap string N) (ok : bool) :
  rename_selected_files env desk fuel target selected g files = Some (g', files', ok) ->
  (map_to_list files').*2 ≡ₚ (map_to_list files).*2 /\
  size files' = size files /\
  length (paths_of target (core g')) = length (paths_of target (core g)) /\
  paths_of (other target) (core g') = paths_of (other target) (core g) /\
  durations_of (other target) (core g') = durations_of (other target) (core g) /\
  (ok = false ->
   consistent (paths_of target (core g)) (durations_of target (core g)) -> g' = g) /\
  (ok = true -> mirrored env desk g -> mirrored env desk g').
Proof.
  intros Hrun.
  cut ((map_to_list files').*2 ≡ₚ (map_to_list files).*2 /\
       length (paths_of target (core g')) = length (paths_of target (core g)) /\
       paths_of (other target) (core g') = paths_of (other target) (core g) /\
       durations_of (other target) (core g') = durations_of (other target) (core g) /\
       (ok = false ->
        consistent (paths_of target (core g)) (durations_of target (core g)) -> g' = g) /\
       (ok = true -> mirrored env desk g -> mirrored env desk g')).
  { intros (Hperm & Hrest). split; [exact Hperm |]. split; [| exact Hrest].
    rewrite <- !length_map_to_list, <- (length_fmap snd (map_to_list files')),
      <- (length_fmap snd (map_to_list files)).
    now rewrite Hperm. }
  unfold rename_selected_files in Hrun.
  destruct selected as [| first rest]; [injection Hrun as <- <- <-; auto 10 |].
  destruct (paths_of target (core g) !! first) as [first_file |];
    [| injection Hrun as <- <- <-; auto 10].
  match type of Hrun with context [rename_loop ?a ?b ?c ?d ?e ?f ?h ?i ?j ?k] =>
    destruct (rename_loop a b c d e f h i j k) as [[files1 r1] |] eqn:Hloop end;
    [| discriminate].
  pose proof (rename_loop_sizes _ _ _ _ _ _ _ _ _ _ _ _ Hloop) as Hperm.
  destruct r1 as [renamed | e]; [| injection Hrun as <- <- <-; auto 10].
  pose proof (update_loop_length renamed (paths_of target (core g)) []
                (durations_of target (core g))) as Hlen.
  pose proof (update_loop_total renamed (paths_of target (core g)) []
                (durations_of target (core g))) as Htotal.
  destruct (update_loop renamed (paths_of target (core g)) [] (durations_of target (core g)))
    as [[paths1 durations1] r2].
  simpl in Hlen, Htotal.
  destruct (set_group_fields target paths1 durations1 (core g)) as (Hp & Hd & Hop & Hod).
  destruct r2 as [[] | e]; injection Hrun as <- <- <-; simpl.
  - split; [exact Hperm |].
    destruct target; simpl in *;
      (split; [exact Hlen |]); (split; [reflexivity |]); (split; [reflexivity |]);
      (split; [discriminate |]);
      intros _ [Hmm Hmo]; split; simpl; try reflexivity; assumption.
  - split; [exact Hperm |]. rewrite Hp. split; [exact Hlen |].
    split; [exact Hop |]. split; [exact Hod |]. split; [| discriminate].
    intros _ [Hnd Hall]. exfalso.
    assert (Hr : Ret tt = Raise e); [| discriminate].
    symmetry. apply Htotal; [exact Hnd |].
    eapply Forall_impl; [exact Hall |]. simpl. intros p (d & -> & _). eauto.
Qed.

(** ** Renaming: the search of a free name *)

Lemma free_path_reaches (env : Env) (files : gmap string N) (base_path ext : string)
    (m fuel c : nat) :
  m <= fuel ->
  (forall j, j < m -> path_exists env files (candidate env base_path ext (c + j)) = true) ->
  path_exists env files (candidate env base_path ext (c + m)) = false ->
  free_path env files base_path ext fuel (S c) (candidate env base_path ext c)
    = Some (candidate env base_path ext (c + m)).
Proof.
  revert fuel c. induction m as [| m IH]; intros fuel c Hfuel Hbusy Hfree.
  - rewrite Nat.add_0_r in Hfree. destruct fuel; simpl; rewrite Hfree;
      now rewrite Nat.add_0_r.
  - destruct fuel as [| fuel]; [lia |]. simpl.
    specialize (Hbusy 0) as Hfirst. rewrite Nat.add_0_r in Hfirst.
    rewrite Hfirst by lia.
    replace (c + S m) with (S c + m) by lia.
    apply (IH fuel (S c)); [lia | | now replace (S c + m) with (c + S m) by lia].
    intros j Hj. replace (S c + j) with (c + S j) by lia. apply Hbusy. lia.
Qed.

Lemma first_false (f : nat -> bool) (n : nat) :
  (forall j, j <= n -> f j = true) \/
  exists k, k <= n /\ f k = false /\ forall j, j < k -> f j = true.
Proof.
  induction n as [| n [Hall | (k & Hk & Hf & Hleast)]].
  - destruct (f 0) eqn:H0.
    + left. intros j Hj. now replace j with 0 by lia.
    + right. exists 0. repeat split; auto. intros j Hj. lia.
  - destruct (f (S n)) eqn:Hn.
    + left. intros j Hj. destruct (decide (j = S n)) as [-> | Hne]; [exact Hn |].
      apply Hall. lia.
    + right. exists (S n). repeat split; auto. intros j Hj. apply Hall. lia.
  - right. exists k. repeat split; auto.
Qed.

(** More pairwise distinct names than files cannot all be files. *)
Lemma names_exceed_files (files : gmap string N) (name : nat -> string) (n : nat) :
  (forall j k, j <= n -> k <= n -> name j = name k -> j = k) ->
  (forall j, j <= n -> is_Some (files !! name j)) ->
  n < size files.
Proof.
  intros Hinj Hall.
  assert (Hnd : NoDup (name <$> seq 0 (S n))).
  { apply NoDup_fmap_2_strong; [| apply NoDup_seq].
    intros j k Hj Hk. apply elem_of_seq in Hj, Hk. apply Hinj; lia. }
  assert (Hsub : (list_to_set (name <$> seq 0 (S n)) : gset string) ⊆ dom files).
  { intros p Hp. apply elem_of_list_to_set, list_elem_of_fmap in Hp as (j & -> & Hj).
    apply elem_of_seq in Hj. apply elem_of_dom, Hall. lia. }
  apply subseteq_size in Hsub.
  rewrite size_list_to_set, length_fmap, length_seq, size_dom in Hsub by exact Hnd.
  lia.
Qed.

Lemma free_path_first_free (env : Env) (files : gmap string N)
    (base_path ext : string) (fuel : nat) :
  names_usable env (size files) base_path ext ->
  size files <= fuel ->
  exists k, k <= size files /\
    free_path env files base_path ext fuel 1 base_path
      = Some (candidate env base_path ext k) /\
    files !! candidate env base_path ext k = None /\
    forall j, j < k -> is_Some (files !! candidate env base_path ext j).
Proof.
  intros [Hinj Hdir] Hfuel.
  destruct (first_false (fun k => path_exists env files (candidate env base_path ext k))
              (size files)) as [Hall | (k & Hk & Hfree & Hbusy)].
  - exfalso. apply (Nat.lt_irrefl (size files)).
    apply (names_exceed_files files (candidate env base_path ext)); [exact Hinj |].
    intros j Hj. specialize (Hall j Hj). unfold path_exists in Hall.
    rewrite (Hdir j Hj), orb_false_r in Hall. now apply bool_decide_eq_true in Hall.
  - exists k. split; [exact Hk |]. split; [| split].
    + apply (free_path_reaches env files base_path ext k fuel 0); [lia | exact Hbusy | exact Hfree].
    + unfold path_exists in Hfree. apply orb_false_iff in Hfree as [Hfile _].
      apply bool_decide_eq_false in Hfile. now apply eq_None_not_Some.
    + intros j Hj. specialize (Hbusy j Hj). unfold path_exists in Hbusy.
      rewrite (Hdir j) in Hbusy by lia. rewrite orb_false_r in Hbusy.
      now apply bool_decide_eq_true in Hbusy.
Qed.

(** X27: the search of a free name ends.  When the names it tries are
    pairwise distinct and none of them is a directory, it returns, after
    at most as many rounds as there are files, the first of these names
    at which no file exists. *)
Theorem free_path_finds_first_free (env : Env) (files : gmap string N)
    (base_path ext : string) (fuel : nat) :
  (forall j k, j <= size files -> k <= size files ->
     candidate env base_path ext j = candidate env base_path ext k -> j = k) ->
  (forall k, k <= size files -> os_path_isdir env (candidate env base_path ext k) = false) ->
  size files <= fuel ->
  exists k, k <= size files /\
    free_path env files base_path ext fuel 1 base_path
      = Some (candidate env base_path ext k) /\
    files !! candidate env base_path ext k = None /\
    forall j, j < k -> is_Some (files !! candidate env base_path ext j).
Proof.
  intros Hinj Hdir Hfuel. apply free_path_first_free; [split; assumption | exact Hfuel].
Qed.

(** ** Renaming: the whole operation returns *)

Lemma shutil_move_size (desk : Desktop) (src dst : string) (files files' : gmap string N) :
  shutil_move desk src dst files = Ret files' -> files !! dst = None ->
  size files' = size files.
Proof.
  intros Hmove Hdst. pose proof (shutil_move_sizes _ _ _ _ _ Hmove Hdst) as Hperm.
  rewrite <- !length_map_to_list, <- (length_fmap snd (map_to_list files')),
    <- (length_fmap snd (map_to_list files)).
  now rewrite Hperm.
Qed.

Lemma rename_loop_returns (env : Env) (desk : Desktop) (fuel n : nat)
    (prefix target_dir : string) (paths : list string) (selected : list nat) (i : nat)
    (files : gmap string N) (renamed : gmap string string) :
  size files = n -> n <= fuel ->
  (forall i' index old_path,
     selected !! i' = Some index -> paths !! index = Some old_path ->
     names_usable env n (first_name env prefix target_dir (i + i') old_path)
       (snd (splitext_str old_path))) ->
  exists files' r,
    rename_loop env desk fuel prefix target_dir paths selected i files renamed
      = Some (files', r).
Proof.
  intros Hsize Hfuel. revert i files renamed Hsize.
  induction selected as [| index rest IH]; intros i files renamed Hsize Hnames; simpl.
  - eauto.
  - destruct (paths !! index) as [old_path |] eqn:Hold; [| eauto].
    pose proof (Hnames 0 index old_path eq_refl Hold) as Husable.
    rewrite Nat.add_0_r in Husable. unfold first_name in Husable. rewrite <- Hsize in Husable.
    destruct (free_path_first_free env files _ _ fuel Husable ltac:(lia))
      as (k & _ & Hfree & Hnone & _).
    rewrite Hfree.
    destruct (shutil_move desk old_path _ files) as [files1 | e] eqn:Hmove; [| eauto].
    apply IH.
    + rewrite <- Hsize. eapply shutil_move_size; eauto.
    + intros i' index' old' Hi' Hold'. replace (S i + i') with (i + S i') by lia.
      now apply (Hnames (S i') index' old').
Qed.

(** X28: the renaming returns.  When, for every selected row, the names
    tried for it are pairwise distinct and none of them is a directory,
    the search of free names needs no more rounds than there are files,
    whatever the selection and the files are. *)
Theorem rename_selected_files_returns (env : Env) (desk : Desktop) (fuel : nat)
    (target : group) (selected : list nat) (g : Window) (files : gmap string N) :
  size files <= fuel ->
  (forall first first_file i index old_path,
     selected !! 0 = Some first -> paths_of target (core g) !! first = Some first_file ->
     selected !! i = Some index -> paths_of target (core g) !! index = Some old_path ->
     names_usable env (size files)
       (first_name env (rename_prefix target) (os_path_dirname env first_file) i old_path)
       (snd (splitext_str old_path))) ->
  exists g' files' ok,
    rename_selected_files env desk fuel target selected g files = Some (g', files', ok).
Proof.
  intros Hfuel Hnames. unfold rename_selected_files.
  destruct selected as [| first rest]; [eauto |].
  destruct (paths_of target (core g) !! first) as [first_file |] eqn:Hfirst; [| eauto].
  destruct (rename_loop_returns env desk fuel (size files) (rename_prefix target)
              (os_path_dirname env first_file) (paths_of target (core g)) (first :: rest) 0
              files ∅ eq_refl Hfuel) as (files1 & r & Hloop).
  { intros i' index old_path Hi' Hold. simpl. eapply Hnames; eauto. }
  rewrite Hloop. destruct r as [renamed | e]; [| eauto].
  destruct (update_loop renamed (paths_of target (core g)) [] (durations_of target (core g)))
    as [[paths1 durations1] r2].
  destruct r2; eauto.
Qed.

(** ** The properties on the examples *)

Lemma demo_window_session : session open_env demo_desk demo_window.
Proof. apply session_import, session_start. Qed.

(** X7 on the imported folder: the two clips are listed once each, the
    text file is not. *)
Lemma session_collections_consistent_witness :
  overlay_video_paths (core demo_window) = ["clips/a.mp4"; "clips/b.MKV"]%string /\
  collections_consistent (core demo_window).
Proof.
  split; [vm_compute; reflexivity |].
  exact (session_collections_consistent open_env demo_desk demo_window demo_window_session).
Defined.

(** X8 on the imported folder: removing the first row of the overlay
    list box leaves the second clip. *)
Lemma session_listboxes_mirror_witness :
  exists g', Gui.remove_selected_overlay open_env demo_desk [0] demo_window = (g', Ret tt) /\
             overlay_video_paths (core g') = ["clips/b.MKV"]%string.
Proof.
  destruct (session_listboxes_mirror open_env demo_desk demo_window demo_window_session)
    as (_ & _ & Hremove).
  destruct (Hremove [0]) as (g' & Hrun & Hpaths & _).
  - repeat constructor.
  - repeat constructor.
  - exists g'. split; [exact Hrun |]. rewrite Hpaths. vm_compute. reflexivity.
Defined.

(** X9 on the imported folder. *)
Lemma session_duration_indexes_witness :
  dom (overlay_video_durations (core demo_window))
    = list_to_set (overlay_video_paths (core demo_window)).
Proof.
  exact (proj1 (session_duration_indexes open_env demo_desk demo_window demo_window_session)).
Defined.

(** X10 on the imported folder: with both rows selected the removal
    leaves group B empty. *)
Lemma select_all_then_remove_witness :
  exists g',
    Gui.remove_selected_overlay open_env demo_desk
      (select_all_files (overlay_listbox demo_window)) demo_window = (g', Ret tt) /\
    overlay_video_paths (core g') = [] /\ overlay_video_durations (core g') = ∅.
Proof.
  destruct (select_all_then_remove open_env demo_desk demo_window demo_window_session)
    as (_ & g' & Hrun & Hpaths & _ & Hindex).
  exists g'. split; [exact Hrun |]. split; [exact Hpaths | exact Hindex].
Defined.

(** X17 on the demo host with an encoder that writes its output: the
    job returns and the output file is there, not empty. *)
Lemma process_video_returns_with_output_witness :
  exists w' size,
    process_video (host good_writer true) "main10.mp4" "o10.mp4" 1 0 demo_world
      = Some (Ret tt, w') /\
    files w' !! demo_output_path = Some size /\ size <> 0%N.
Proof.
  destruct (process_video (host good_writer true) "main10.mp4" "o10.mp4" 1 0 demo_world)
    as [[[[] | e] w'] |] eqn:Hrun; try (vm_compute in Hrun; discriminate).
  destruct (process_video_returns_with_output _ _ _ _ _ _ _ Hrun)
    as (_ & _ & (size & Hsize & Hpos) & _).
  exists w', size. split; [reflexivity |]. split; [exact Hsize | exact Hpos].
Defined.

(** X18 on a host whose encoder leaves an empty output file: the job
    changes the files in both ways, the encoder writes the output, the
    job deletes it again; the file nobody names stays. *)
Lemma process_video_touches_only_output_witness :
  exists r w',
    process_video (host empty_writer true) "main10.mp4" "o10.mp4" 1 0 kept_world
      = Some (r, w') /\
    writes empty_writer (files kept_world) <> files kept_world /\
    output_path w' = Some demo_output_path /\
    files w' = delete demo_output_path (writes empty_writer (files kept_world)) /\
    files w' !! "dir/keep.mp4"%string = Some 9%N /\
    exists fs,
      (fs = files kept_world \/
       exists width height gpu_type process,
         subprocess_Popen (host empty_writer true)
           (ffmpeg_command "ffmpeg" "main10.mp4" "o10.mp4"
              (format_filter (host empty_writer true) width height
                 (opacity_var (self kept_world) / 100)%float) gpu_type demo_output_path)
           = Ret process /\
         fs = writes process (files kept_world)) /\
      (files w' = fs \/ exists out, output_path w' = Some out /\ files w' = delete out fs).
Proof.
  destruct (process_video (host empty_writer true) "main10.mp4" "o10.mp4" 1 0 kept_world)
    as [[r w'] |] eqn:Hrun; [| vm_compute in Hrun; discriminate].
  pose proof (process_video_touches_only_output _ _ _ _ _ _ _ _ Hrun) as Hfs.
  exists r, w'. split; [reflexivity |].
  assert (Hw : output_path w' = Some demo_output_path /\
               files w' = delete demo_output_path (writes empty_writer (files kept_world)) /\
               files w' !! "dir/keep.mp4"%string = Some 9%N).
  { vm_compute in Hrun. injection Hrun as <- <-. repeat split; vm_compute; reflexivity. }
  destruct Hw as (Ho & Hf & Hk).
  split; [| auto].
  intros Habs. apply (f_equal (lookup demo_output_path)) in Habs. vm_compute in Habs.
  discriminate.
Defined.

(** X19 on a host that starts the encoder for the AMF command only: the
    negotiation answers AMD, and the job starts exactly that command. *)
Lemma prepare_and_spawn_encoder_command_witness :
  exists key w',
    prepare_and_spawn (strict_host amf_command demo_process) "main10.mp4" "o10.mp4" demo_world
      = Some (Ret (demo_process, key, demo_output_path), w') /\
    subprocess_Popen (strict_host amf_command demo_process) amf_command = Ret demo_process /\
    amf_command !! 3 = Some "auto"%string /\ amf_command !! 21 = Some "h264_amf"%string /\
    spawned w' = [probe_cmd "ffmpeg" "main10.mp4"; encoders_cmd "ffmpeg";
                  test_cmd "ffmpeg" "h264_nvenc"; test_cmd "ffmpeg" "h264_amf"].
Proof.
  destruct (prepare_and_spawn (strict_host amf_command demo_process) "main10.mp4" "o10.mp4"
              demo_world) as [[[[[p k] o] | e] w1] |] eqn:Hprep;
    try (vm_compute in Hprep; discriminate).
  destruct (prepare_and_spawn_encoder_command _ _ _ _ _ _ _ _ Hprep)
    as (width & height & wd & g & Hout & _ & Hdim & _ & _ & Hneg & Hspawn & _ & H3 & _ & _
        & H21 & _).
  assert (Hp : p = demo_process /\ o = demo_output_path).
  { vm_compute in Hprep. injection Hprep as <- _ <- _. split; reflexivity. }
  destruct Hp as [-> ->].
  assert (Hshape : width = 1280%Z /\ height = 720%Z /\ g = Some AMD /\
                   spawned w1 = [probe_cmd "ffmpeg" "main10.mp4"; encoders_cmd "ffmpeg";
                                 test_cmd "ffmpeg" "h264_nvenc"; test_cmd "ffmpeg" "h264_amf"]).
  { vm_compute in Hdim. injection Hdim as <- <- <-.
    vm_compute in Hneg. injection Hneg as <- <-. repeat split; reflexivity. }
  destruct Hshape as (-> & -> & -> & Hlog).
  exists k, w1. split; [reflexivity |]. split; [exact Hspawn |].
  split; [exact H3 |]. split; [exact H21 | exact Hlog].
Defined.

Ltac then_move H ev tac :=
  let H' := fresh "Hreached" in
  eassert (H' : reached_on open_env _);
  [ eapply (reached_on_move open_env _ ev); [exact H | tac] | clear H; rename H' into H ];
  match type of H with
  | reached_on _ ?s =>
      let s' := eval vm_compute in s in
      let Heq := fresh "Heq" in
      assert (Heq : s = s') by (vm_compute; reflexivity);
      rewrite Heq in H; clear Heq
  end.

Ltac driver_moves k c :=
  eapply (m_driver open_env _ k); [vm_compute; reflexivity | eapply c; vm_compute; reflexivity].

Ltac job_moves k tid c :=
  eapply (m_job open_env _ k _ tid); [vm_compute; reflexivity | vm_compute; reflexivity | c].

Lemma restart_idle_is_idle : idle restart_idle.
Proof. repeat split; vm_compute; reflexivity. Qed.

Lemma restart_waiting_reached :
  reached_on open_env
    {| machine_app := set_paused false (set_processing true two_App);
       batches := [ {| batch_driver := AtJoin 0; batch_threads := [job_a JWaiting] |} ] |}.
Proof.
  pose proof (reached_on_idle open_env _ restart_idle_is_idle) as H.
  then_move H EvStart ltac:(apply (m_start open_env _ (Ret tt))).
  then_move H (EvDriver 0) ltac:(driver_moves 0 ds_fetch).
  then_move H (EvDriver 0) ltac:(driver_moves 0 ds_enter).
  then_move H (EvDriver 0) ltac:(driver_moves 0 ds_select).
  then_move H (EvDriver 0) ltac:(driver_moves 0 ds_overlay).
  then_move H (EvDriver 0)
    ltac:(eapply (m_driver open_env _ 0); [vm_compute; reflexivity |];
          eapply (ds_start open_env _ _ _ _ _ _ _ "o.mp4");
          [vm_compute; reflexivity | vm_compute; lia | vm_compute; left]).
  match type of H with reached_on _ ?s =>
    match goal with |- reached_on _ ?s' =>
      assert (Heq : s = s') by (vm_compute; reflexivity) end end.
  rewrite <- Heq. exact H.
Qed.

Lemma restart_stopped_reached : reached_on open_env restart_stopped.
Proof.
  pose proof restart_waiting_reached as H.
  then_move H EvStop ltac:(apply m_stop).
  exact H.
Qed.

Lemma restart_running_reached : reached_on open_env restart_running.
Proof.
  pose proof restart_waiting_reached as H.
  then_move H (EvJob 0 0) ltac:(job_moves 0 0 ltac:(apply (js_acquire _ _ 2); reflexivity)).
  then_move H (EvJob 0 0) ltac:(job_moves 0 0 ltac:(apply js_proceed; reflexivity)).
  then_move H (EvJob 0 0) ltac:(job_moves 0 0 ltac:(apply (js_spawn _ _ demo_process))).
  then_move H (EvJob 0 0) ltac:(job_moves 0 0 ltac:(apply js_register)).
  then_move H EvStop ltac:(apply m_stop).
  then_move H EvEdit
    ltac:(apply (m_edit open_env _
                   (set_main_video_paths ["b.mp4"]
                      (set_processing_semaphore 2
                         (stop_processing (set_paused false (set_processing true two_App))))));
          repeat split; vm_compute; reflexivity).
  then_move H EvStart ltac:(apply (m_start open_env _ (Ret tt))).
  then_move H (EvDriver 1) ltac:(driver_moves 1 ds_fetch).
  then_move H (EvDriver 1) ltac:(driver_moves 1 ds_enter).
  then_move H (EvDriver 1) ltac:(driver_moves 1 ds_select).
  then_move H (EvDriver 1) ltac:(driver_moves 1 ds_overlay).
  then_move H (EvDriver 1)
    ltac:(eapply (m_driver open_env _ 1); [vm_compute; reflexivity |];
          eapply (ds_start open_env _ _ _ _ _ _ _ "o.mp4");
          [vm_compute; reflexivity | vm_compute; lia | vm_compute; left]).
  then_move H (EvJob 1 0) ltac:(job_moves 1 0 ltac:(apply (js_acquire _ _ 1); reflexivity)).
  then_move H (EvJob 1 0) ltac:(job_moves 1 0 ltac:(apply js_proceed; reflexivity)).
  then_move H (EvJob 1 0) ltac:(job_moves 1 0 ltac:(apply (js_spawn _ _ demo_process))).
  then_move H (EvJob 1 0) ltac:(job_moves 1 0 ltac:(apply js_register)).
  match type of H with reached_on _ ?s =>
    assert (Heq : s = restart_running) by (vm_compute; reflexivity) end.
  rewrite <- Heq. exact H.
Qed.

Lemma restart_cancelled_run : rtc move_without_start restart_stopped restart_cancelled.
Proof.
  eapply rtc_l.
  { exists open_env, (EvJob 0 0). split; [discriminate |].
    job_moves 0 0 ltac:(apply (js_acquire _ _ 2); reflexivity). }
  eapply rtc_l.
  { exists open_env, EvEdit. split; [discriminate |].
    apply (m_edit open_env _
             (set_main_video_paths ["b.mp4"]
                (set_processing_semaphore 2
                   (stop_processing (set_paused false (set_processing true two_App)))))).
    repeat split; vm_compute; reflexivity. }
  eapply rtc_l.
  { exists open_env, (EvJob 0 0). split; [discriminate |].
    job_moves 0 0 ltac:(apply js_cancelled; reflexivity). }
  match goal with |- rtc _ ?s _ =>
    assert (Heq : s = restart_cancelled) by (vm_compute; reflexivity) end.
  rewrite Heq. apply rtc_refl.
Qed.

(** X21 on the session that was started twice: each driver has one live
    job, two jobs are inside the gate at once, and one process is
    registered. *)
Lemma session_one_job_per_driver_witness :
  holders (all_threads restart_running) = 2 /\
  length (batches restart_running) = 2 /\
  size (current_processes (machine_app restart_running)) = 1 /\
  holders (all_threads restart_running) <= length (batches restart_running) /\
  size (current_processes (machine_app restart_running))
    <= holders (all_threads restart_running).
Proof.
  destruct (session_one_job_per_driver restart_running
              (reached_on_reached open_env _ restart_running_reached))
    as (_ & Hdrivers & _ & Hmap).
  split; [reflexivity |]. split; [reflexivity |]. split; [vm_compute; reflexivity |].
  split; [exact Hdrivers | exact Hmap].
Defined.

(** X22 on the same session: the jobs of both drivers work on pairs
    within the window. *)
Lemma session_jobs_pair_within_window_witness :
  all_threads restart_running
    = [job_a (JWatching demo_process); job_b (JWatching demo_process)] /\
  Forall (paired open_env) (all_threads restart_running).
Proof.
  split; [reflexivity |].
  exact (session_jobs_pair_within_window open_env restart_running restart_running_reached).
Defined.

(** X23 on the session stopped while its job waited at the gate: a row
    is removed, the job takes its slot, finds the session stopped and
    leaves. *)
Lemma stopped_session_starts_no_encoder_witness :
  processing (machine_app restart_cancelled) = false /\
  unstarted (pc (job_a (JLeaving true false))) = true.
Proof.
  destruct (stopped_session_starts_no_encoder restart_stopped restart_cancelled)
    as [Hp Hun].
  - vm_compute. reflexivity.
  - exact restart_cancelled_run.
  - split; [exact Hp |].
    apply (Hun 0 _ 0 (job_a (JLeaving true false)) eq_refl eq_refl).
    intros b t Hb Ht. injection Hb as <-. injection Ht as <-. reflexivity.
Defined.

Lemma small_cases (n j : nat) : j <= n -> In j (seq 0 (S n)).
Proof. intros Hj. apply in_seq. lia. Qed.

Ltac names_usable_by_cases :=
  split;
  [ intros j k Hj Hk;
    apply small_cases in Hj; apply small_cases in Hk; vm_compute in Hj, Hk;
    repeat (destruct Hj as [<- | Hj]); try contradiction;
    repeat (destruct Hk as [<- | Hk]); try contradiction;
    vm_compute; intros Heq; first [reflexivity | discriminate Heq]
  | reflexivity ].

(** X26 on the imported folder: both clips are renamed, and the two
    files are still there. *)
Lemma rename_selected_files_keeps_files_witness :
  exists g' files',
    rename_selected_files plain_env demo_desk 2 overlay_group [0; 1] demo_window demo_files
      = Some (g', files', true) /\
    overlay_video_paths (core g')
      = ["dir/video_overlay_001.mp4"; "dir/video_overlay_002.MKV"]%string /\
    size files' = 2.
Proof.
  assert (Hrun : exists g' files',
             rename_selected_files plain_env demo_desk 2 overlay_group [0; 1] demo_window
               demo_files = Some (g', files', true) /\
             overlay_video_paths (core g')
               = ["dir/video_overlay_001.mp4"; "dir/video_overlay_002.MKV"]%string).
  { eexists _, _. split; vm_compute; reflexivity. }
  destruct Hrun as (g' & files' & Hrun & Hpaths).
  destruct (rename_selected_files_keeps_files _ _ _ _ _ _ _ _ _ _ Hrun) as (_ & Hsize & _).
  exists g', files'. split; [exact Hrun |]. split; [exact Hpaths |].
  rewrite Hsize. vm_compute. reflexivity.
Defined.

(** X27 when the first name is taken: the search returns one of the
    next names, at which no file exists. *)
Lemma free_path_finds_first_free_witness :
  exists k,
    free_path plain_env taken_files "dir/video_overlay_001.mp4" ".mp4" 3 1
      "dir/video_overlay_001.mp4"
      = Some (candidate plain_env "dir/video_overlay_001.mp4" ".mp4" k) /\
    0 < k.
Proof.
  destruct (free_path_finds_first_free plain_env taken_files "dir/video_overlay_001.mp4"
              ".mp4" 3) as (k & _ & Hrun & Hnone & _).
  - apply (proj1 (ltac:(names_usable_by_cases) :
                    names_usable plain_env (size taken_files) "dir/video_overlay_001.mp4"
                      ".mp4")).
  - reflexivity.
  - vm_compute. lia.
  - exists k. split; [exact Hrun |].
    destruct k; [vm_compute in Hnone; discriminate | lia].
Defined.

(** X28 on the imported folder. *)
Lemma rename_selected_files_returns_witness :
  exists g' files' ok,
    rename_selected_files plain_env demo_desk 2 overlay_group [0; 1] demo_window demo_files
      = Some (g', files', ok).
Proof.
  apply rename_selected_files_returns.
  - vm_compute. lia.
  - intros first first_file i index old_path Hfirst Hfile Hi Hold.
    injection Hfirst as <-. vm_compute in Hfile. injection Hfile as <-.
    destruct i as [| [| i]]; simpl in Hi; try discriminate; injection Hi as <-;
      vm_compute in Hold; injection Hold as <-; names_usable_by_cases.
Defined.
